(** * Inference engine of the new random forest (vigra/random_forest_new)

    A shallow embedding of [RandomForest] from
    [include/vigra/random_forest_new/random_forest.hxx]: tree traversal
    ([leaf_ids_impl]), the parallel driver ([leaf_ids]), probability
    aggregation ([predict_proba]), label selection ([predict]) and
    [merge], together with the properties stated for them.

    Conventions.
    - Node ids are natural numbers (indices into the node arena).
    - A [vigra_precondition] that fails, a [PropertyMap::at] on an absent
      key and an access outside a container are results of type
      [result]; the [while] loop of the traversal is bounded by a fuel
      argument, and running out of it is the result [OutOfFuel].
    - The comparison counters are C++ doubles that only ever receive
      [+= 1.0] and sums of such values; they are exact integers (below
      2^53) and are modelled in [nat].  The final division
      [sum / features.shape()[0]] is kept as the formal quotient [Quot].
    - An id array holds integers of the element type of the caller's
      array; its cells are kept in [Z], and what [leaf_ids] writes is
      converted to the element type ([to_id]).
    - Operations that write into a caller's array take the array and
      return it together with the result, so that what has been written
      when a failure is raised stays visible. *)

From stdpp Require Import base list gmap strings sorting.
From Stdlib Require Import ZArith QArith.

Local Open Scope nat_scope.
Set Default Proof Using "Type".

(** ** Failures and results *)

Inductive Failure : Type :=
| PreconditionViolation (message : string)
| OutOfRange
| InvalidAccess
| OutOfFuel.

Inductive result (A : Type) : Type :=
| Ok (a : A)
| Throw (e : Failure).
Arguments Ok {A} a.
Arguments Throw {A} e.

#[global] Instance result_ret : MRet result := fun A a => Ok a.
#[global] Instance result_bind : MBind result := fun A B f r =>
  match r with
  | Ok a => f a
  | Throw e => Throw e
  end.

Definition is_ok {A} (r : result A) : bool :=
  match r with Ok _ => true | Throw _ => false end.

Definition of_option {A} (e : Failure) (o : option A) : result A :=
  match o with Some a => Ok a | None => Throw e end.

(** [vigra_precondition(cond, message)]: throws the precondition
    violation with the message given at the call site. *)
Definition vigra_precondition (cond : bool) (message : string) : result unit :=
  if cond then Ok tt else Throw (PreconditionViolation message).

(** A range-[for] loop over [l] whose body updates the state [S]; the
    loop is left at the first failure, with the state as it is then. *)
Fixpoint for_each {S B : Type} (body : B -> S -> S * result unit)
    (l : list B) (s : S) : S * result unit :=
  match l with
  | [] => (s, Ok tt)
  | b :: l' =>
      match body b s with
      | (s', Ok _) => for_each body l' s'
      | (s', Throw e) => (s', Throw e)
      end
  end.

(** The failures other than precondition violations. *)
Definition runtime_failure (e : Failure) : Prop :=
  forall message, e <> PreconditionViolation message.

(** The value of a [double] obtained as [total / samples]. *)
Record Ratio : Type := Quot { total : nat; samples : nat }.

(** ** [std::set<size_t>]: strictly ascending lists *)

Fixpoint set_insert (x : nat) (s : list nat) : list nat :=
  match s with
  | [] => [x]
  | y :: s' =>
      if x <? y then x :: y :: s'
      else if x =? y then y :: s'
      else y :: set_insert x s'
  end.

(** The range constructor [std::set<size_t>(begin, end)]. *)
Definition std_set (l : list nat) : list nat :=
  foldl (fun s x => set_insert x s) [] l.

(** ** Two-dimensional arrays (MultiArray<2, T>) *)

Record MultiArray2 (A : Type) : Type := mkArray {
  rows : list (list A);
  cols : nat
}.
Arguments mkArray {A} rows cols.
Arguments rows {A} m.
Arguments cols {A} m.

Section arrays.
Context {A : Type}.

Definition shape0 (m : MultiArray2 A) : nat := length (rows m).
Definition shape1 (m : MultiArray2 A) : nat := cols m.

(** Every row has [shape1] cells. *)
Definition rectangular (m : MultiArray2 A) : Prop :=
  Forall (fun r => length r = cols m) (rows m).

(** [MultiArray<2, T>(Shape2(n, m))], every cell holding [init]. *)
Definition new_array (n m : nat) (init : A) : MultiArray2 A :=
  mkArray (replicate n (replicate m init)) m.

(** [std::fill(a.begin(), a.end(), v)]. *)
Definition fill (m : MultiArray2 A) (v : A) : MultiArray2 A :=
  mkArray ((fun r : list A => (fun _ => v) <$> r) <$> rows m) (cols m).

(** [a.bind<0>(i)]. *)
Definition bind0 (m : MultiArray2 A) (i : nat) : result (list A) :=
  of_option InvalidAccess (rows m !! i).

(** [a(i, k)] as an rvalue. *)
Definition cell (m : MultiArray2 A) (i k : nat) : result A :=
  r ← bind0 m i; of_option InvalidAccess (r !! k).

(** [a(i, k) = v].  The checks of the callers keep [i] and [k] inside
    the shape; outside of it the list update changes nothing. *)
Definition set_cell (m : MultiArray2 A) (i k : nat) (v : A) : MultiArray2 A :=
  mkArray (alter (fun r => <[k := v]> r) i (rows m)) (cols m).

(** Overwriting the whole view [a.bind<0>(i)]. *)
Definition set_row (m : MultiArray2 A) (i : nat) (r : list A) : MultiArray2 A :=
  mkArray (<[i := r]> (rows m)) (cols m).
End arrays.

(** ** The forest graph *)

Module BinaryForest.

(** Modelled from the spec: the forest graph ([binary_forest.hxx] is
    not among the sources).  An arena of nodes identified by their
    index; a node has out-degree 0 (a leaf, [None]) or 2 (an internal
    node with its children 0 and 1); one root per tree, in tree
    order.  [merge] is the id-preserving structural append: the nodes
    and roots of the other graph follow those of this one, their ids
    shifted by this graph's node count. *)
Record t : Type := mk {
  nodes_ : list (option (nat * nat));
  root_nodes_ : list nat
}.

Definition numNodes (g : t) : nat := length (nodes_ g).
Definition numRoots (g : t) : nat := length (root_nodes_ g).

Definition getRoot (g : t) (i : nat) : result nat :=
  of_option InvalidAccess (root_nodes_ g !! i).

Definition outDegree (g : t) (node : nat) : result nat :=
  n ← of_option InvalidAccess (nodes_ g !! node);
  Ok (match n with None => 0 | Some _ => 2 end).

Definition getChild (g : t) (node i : nat) : result nat :=
  n ← of_option InvalidAccess (nodes_ g !! node);
  match n, i with
  | Some (left_child, _), 0 => Ok left_child
  | Some (_, right_child), 1 => Ok right_child
  | _, _ => Throw InvalidAccess
  end.

Definition shift (offset : nat) (n : option (nat * nat)) : option (nat * nat) :=
  match n with
  | None => None
  | Some (l, r) => Some (l + offset, r + offset)
  end.

Definition merge (g other : t) : t :=
  let offset := numNodes g in
  mk (nodes_ g ++ (shift offset <$> nodes_ other))
     (root_nodes_ g ++ ((fun r => r + offset) <$> root_nodes_ other)).

End BinaryForest.

(** ** Property maps (the [MapTag] container) *)

(** Modelled from the spec: the node attribute map ([PropertyMap] is
    declared outside the sources).  [insert] overwrites the value of an
    existing key, [at] fails on an absent key. *)
Definition at_ {V : Type} (m : gmap nat V) (node : nat) : result V :=
  of_option OutOfRange (m !! node).

(** ** Problem specification *)

(** Modelled from the spec: the problem specification
    ([ProblemSpecNew], declared outside the sources): expected feature
    count, class count and the ordered distinct labels; two
    specifications are equal iff all three match. *)
Record ProblemSpecNew (LabelType : Type) : Type := mkSpec {
  num_features_ : nat;
  num_classes_ : nat;
  distinct_classes_ : list LabelType
}.
Arguments mkSpec {LabelType} _ _ _.
Arguments num_features_ {LabelType} p.
Arguments num_classes_ {LabelType} p.
Arguments distinct_classes_ {LabelType} p.

#[global] Instance ProblemSpecNew_eq_dec {L} `{EqDecision L} :
  EqDecision (ProblemSpecNew L).
Proof. solve_decision. Defined.

(** ** The element type of an id array *)

(** [leaf_ids] and [leaf_ids_impl] are templates over the id array
    [IDS]; what they write, the constant [-1] and [node.id()], is
    converted to the element type of that array.  A signed integer
    type holds the value written.  An unsigned type of [bits] bits
    holds a negative value as its residue modulo [2 ^ bits]; a node id
    is not negative and, node ids being naturals without a bound here,
    is kept as it is. *)
Inductive IdType : Type :=
| signed_id
| unsigned_id (bits : N).

(** [std::size_t], the element type of the id array of [predict_proba]. *)
Definition size_t : IdType := unsigned_id 64.

Definition to_id (id_type : IdType) (z : Z) : Z :=
  match id_type with
  | signed_id => z
  | unsigned_id bits => if (z <? 0)%Z then (z mod 2 ^ Z.of_N bits)%Z else z
  end.

(** ** The texts of the precondition checks *)

Definition merge_message : string :=
  "RandomForest::merge(): You cannot merge with different problem specs.".

Definition predict_messages : list string :=
  ["RandomForest::predict(): Shape mismatch between features and labels.";
   "RandomForest::predict(): Number of features in prediction differs from training."].

Definition predict_proba_messages : list string :=
  ["RandomForest::predict_proba(): Shape mismatch between features and probabilities.";
   "RandomForest::predict_proba(): Number of features in prediction differs from training.";
   "RandomForest::predict_proba(): Number of labels in probabilities differs from training.";
   "RandomForest::predict_proba(): Tree index out of range."].

Definition leaf_ids_messages : list string :=
  ["RandomForest::leaf_ids(): Shape mismatch between features and probabilities.";
   "RandomForest::leaf_ids(): Number of features in prediction differs from training.";
   "RandomForest::leaf_ids(): Leaf array has wrong shape.";
   "RandomForest::leaf_ids(): Tree index out of range."].

(** ** The random forest *)

(** [SPLITTESTS]: a callable from a feature row to a child index. *)
Abbreviation SplitTests FeatureType := (list FeatureType -> nat).

Section random_forest.
(** The template parameters: feature values, labels, the input type of
    the accumulator, and the value type of probability arrays with its
    [operator<] and its value-initialised element. *)
Context {FeatureType LabelType AccInputType Prob : Type}.
Context `{EqDecision LabelType}.
Context (prob_lt : Prob -> Prob -> bool) (prob_zero : Prob).

(** The accumulator [ACC]: called with the responses of one sample and
    the output iterator of its probability row, it rewrites that row. *)
Context (acc : list AccInputType -> list Prob -> list Prob).

(** [std::thread::hardware_concurrency()]. *)
Context (hardware_concurrency : nat).

Record RandomForest : Type := mkForest {
  graph_ : BinaryForest.t;
  split_tests_ : gmap nat (SplitTests FeatureType);
  node_responses_ : gmap nat AccInputType;
  problem_spec_ : ProblemSpecNew LabelType
}.

Definition num_nodes (rf : RandomForest) : nat := BinaryForest.numNodes (graph_ rf).
Definition num_trees (rf : RandomForest) : nat := BinaryForest.numRoots (graph_ rf).
Definition num_classes (rf : RandomForest) : nat := num_classes_ (problem_spec_ rf).

(** *** merge *)

(** The loop [for (auto const & p : other_map) map.insert(Node(p.first.id()+offset), p.second)].
    The keys written are pairwise different, so the order in which the
    entries of the other map are enumerated does not show in the result. *)
Definition reinsert {V : Type} (offset : nat) (other into : gmap nat V) : gmap nat V :=
  map_fold (fun id v m => <[id + offset := v]> m) into other.

(** [merge] takes the forest it grows and returns it with the result;
    [other] is a forest of its own (not the object that is grown). *)
Definition merge (rf other : RandomForest) : RandomForest * result unit :=
  match vigra_precondition (bool_decide (problem_spec_ rf = problem_spec_ other))
          "RandomForest::merge(): You cannot merge with different problem specs." with
  | Throw e => (rf, Throw e)
  | Ok _ =>
      let offset := num_nodes rf in
      (mkForest (BinaryForest.merge (graph_ rf) (graph_ other))
                (reinsert offset (split_tests_ other) (split_tests_ rf))
                (reinsert offset (node_responses_ other) (node_responses_ rf))
                (problem_spec_ rf),
       Ok tt)
  end.

(** *** leaf_ids_impl *)

(** The loop [while (graph_.outDegree(node) > 0)] of [leaf_ids_impl],
    started at [node] with the counter at [split_comparisons]; it
    returns the node it stops at and the counter. *)
Fixpoint descend (fuel : nat) (rf : RandomForest) (sub_features : list FeatureType)
    (node : nat) (split_comparisons : nat) : result (nat * nat) :=
  d ← BinaryForest.outDegree (graph_ rf) node;
  if 0 <? d then
    match fuel with
    | 0 => Throw OutOfFuel
    | S fuel' =>
        test ← at_ (split_tests_ rf) node;
        let child_index := test sub_features in
        child ← BinaryForest.getChild (graph_ rf) node child_index;
        descend fuel' rf sub_features child (split_comparisons + 1)
    end
  else Ok (node, split_comparisons).

(** The set of tree indices after the checks and the default.  The
    same statements open [predict_proba] and [leaf_ids]; [message] is
    the text of the range check. *)
Definition checked_tree_indices (rf : RandomForest) (tree_indices : list nat)
    (message : string) : result (list nat) :=
  let actual_tree_indices := std_set tree_indices in
  _ ← foldl (fun r i =>
               _ ← r; vigra_precondition (i <? BinaryForest.numRoots (graph_ rf)) message)
            (Ok tt) actual_tree_indices;
  Ok (if length actual_tree_indices =? 0
      then foldl (fun s i => set_insert i s) actual_tree_indices
                 (seq 0 (BinaryForest.numRoots (graph_ rf)))
      else actual_tree_indices).

(** The body of [for (auto k : tree_indices)] for sample [i]; the
    assignment [ids(i, k) = node.id()] converts the id to the element
    type [id_type] of the array. *)
Definition leaf_ids_impl_tree (id_type : IdType) (fuel : nat) (rf : RandomForest)
    (sub_features : list FeatureType) (i k : nat)
    (st : MultiArray2 Z * nat) : (MultiArray2 Z * nat) * result unit :=
  let '(ids, split_comparisons) := st in
  match (node ← BinaryForest.getRoot (graph_ rf) k;
         descend fuel rf sub_features node split_comparisons) with
  | Throw e => ((ids, split_comparisons), Throw e)
  | Ok (node, split_comparisons) =>
      ((set_cell ids i k (to_id id_type (Z.of_nat node)), split_comparisons), Ok tt)
  end.

(** The body of [for (size_t i = from; i < to; ++i)]. *)
Definition leaf_ids_impl_sample (id_type : IdType) (fuel : nat) (rf : RandomForest)
    (features : MultiArray2 FeatureType) (tree_indices : list nat) (i : nat)
    (st : MultiArray2 Z * nat) : (MultiArray2 Z * nat) * result unit :=
  match bind0 features i with
  | Throw e => (st, Throw e)
  | Ok sub_features =>
      for_each (leaf_ids_impl_tree id_type fuel rf sub_features i) tree_indices st
  end.

Definition leaf_ids_impl (id_type : IdType) (fuel : nat) (rf : RandomForest)
    (features : MultiArray2 FeatureType) (ids : MultiArray2 Z)
    (from to : nat) (tree_indices : list nat) : MultiArray2 Z * result nat :=
  match
    (_ ← vigra_precondition (shape0 features =? shape0 ids)
           "RandomForest::leaf_ids_impl(): Shape mismatch between features and labels.";
     _ ← vigra_precondition (shape1 features =? num_features_ (problem_spec_ rf))
           "RandomForest::leaf_ids_impl(): Number of Features in prediction differs from training.";
     _ ← vigra_precondition ((0 <=? from) && (from <=? to) && (to <=? shape0 features))
           "RandomForest::leaf_ids_impl(): Indices out of range.";
     vigra_precondition (shape1 ids =? BinaryForest.numRoots (graph_ rf))
           "RandomForest::leaf_ids_impl(): Leaf array has wrong shape.")
  with
  | Throw e => (ids, Throw e)
  | Ok _ =>
      let split_comparisons := 0 in
      match
        for_each (leaf_ids_impl_sample id_type fuel rf features tree_indices)
                 (seq from (to - from)) (ids, split_comparisons)
      with
      | ((ids, _), Throw e) => (ids, Throw e)
      | ((ids, split_comparisons), Ok _) => (ids, Ok split_comparisons)
      end
  end.

(** *** leaf_ids *)

(** Modelled from the spec: the parallel executor ([parallel_foreach]
    of [threadpool.hxx], not among the sources), which runs
    [f(workerId, item)] for every item and blocks until all are
    processed.  Which worker takes which item, and in which order the
    items complete, is the executor's choice; a schedule lists the
    pairs (worker, item) in completion order.  An item here touches
    its own row and the counter of its worker only, so running the
    items one after the other in schedule order yields what any
    interleaving of them yields.  At an item that fails the loop is
    left; what the executor does with the items still pending is not
    modelled, and no statement below depends on it. *)
Definition parallel_foreach {S : Type} (schedule : list (nat * nat))
    (f : nat -> nat -> S -> S * result unit) (s : S) : S * result unit :=
  for_each (fun '(thread_id, i) => f thread_id i) schedule s.

(** The schedules the executor can choose for [n_threads] workers and
    the items [0 .. n_items - 1]. *)
Definition valid_schedule (n_threads n_items : nat) (schedule : list (nat * nat)) : Prop :=
  Forall (fun p => p.1 < n_threads) schedule ∧ schedule.*2 ≡ₚ seq 0 n_items.

(** The two adjustments of [n_threads] at the head of [leaf_ids]. *)
Definition resolve_threads (n_threads : Z) : Z :=
  let n_threads := if (n_threads =? -1)%Z then Z.of_nat hardware_concurrency else n_threads in
  if (n_threads <? 1)%Z then 1%Z else n_threads.

(** The function object handed to [parallel_foreach]:
    [split_comparisons[thread_id] += leaf_ids_impl(features, ids, i, i+1, ...)]. *)
Definition leaf_ids_item (id_type : IdType) (fuel : nat) (rf : RandomForest)
    (features : MultiArray2 FeatureType) (actual_tree_indices : list nat)
    (thread_id i : nat) (st : MultiArray2 Z * list nat)
    : (MultiArray2 Z * list nat) * result unit :=
  let '(ids, split_comparisons) := st in
  match leaf_ids_impl id_type fuel rf features ids i (i + 1) actual_tree_indices with
  | (ids, Throw e) => ((ids, split_comparisons), Throw e)
  | (ids, Ok c) => ((ids, alter (fun v => v + c) thread_id split_comparisons), Ok tt)
  end.

(** The head of [leaf_ids]: its preconditions, up to the set of tree
    indices it goes on with. *)
Definition leaf_ids_checks (rf : RandomForest)
    (features : MultiArray2 FeatureType) (ids : MultiArray2 Z)
    (tree_indices : list nat) : result (list nat) :=
  _ ← vigra_precondition (shape0 features =? shape0 ids)
        "RandomForest::leaf_ids(): Shape mismatch between features and probabilities.";
  _ ← vigra_precondition (shape1 features =? num_features_ (problem_spec_ rf))
        "RandomForest::leaf_ids(): Number of features in prediction differs from training.";
  _ ← vigra_precondition (shape1 ids =? BinaryForest.numRoots (graph_ rf))
        "RandomForest::leaf_ids(): Leaf array has wrong shape.";
  checked_tree_indices rf tree_indices
        "RandomForest::leaf_ids(): Tree index out of range.".

(** [std::fill(ids.begin(), ids.end(), -1)] assigns the [int] -1 to
    every cell, converted to the element type [id_type] of the array. *)
Definition leaf_ids (id_type : IdType) (fuel : nat) (rf : RandomForest)
    (features : MultiArray2 FeatureType) (ids : MultiArray2 Z)
    (n_threads : Z) (tree_indices : list nat) (schedule : list (nat * nat))
    : MultiArray2 Z * result Ratio :=
  match leaf_ids_checks rf features ids tree_indices with
  | Throw e => (ids, Throw e)
  | Ok actual_tree_indices =>
      let num_instances := shape0 features in
      let n_threads := resolve_threads n_threads in
      let split_comparisons := replicate (Z.to_nat n_threads) 0 in
      let ids := fill ids (to_id id_type (-1)) in
      match
        parallel_foreach schedule (leaf_ids_item id_type fuel rf features actual_tree_indices)
                         (ids, split_comparisons)
      with
      | ((ids, _), Throw e) => (ids, Throw e)
      | ((ids, split_comparisons), Ok _) =>
          let sum_split_comparisons := foldl Nat.add 0 split_comparisons in
          (ids, Ok (Quot sum_split_comparisons (shape0 features)))
      end
  end.

(** *** predict_proba *)

(** [Node(ids(i, k))]: a cell that holds a negative value is not the
    id of any node, and no property map has an entry for it. *)
Definition response_at (rf : RandomForest) (ids : MultiArray2 Z) (i k : nat)
    : result AccInputType :=
  id ← cell ids i k;
  if (id <? 0)%Z then Throw OutOfRange else at_ (node_responses_ rf) (Z.to_nat id).

(** The inner loop of [predict_proba]: [tree_results] after the
    [push_back] of one response per tree index. *)
Fixpoint gather (rf : RandomForest) (ids : MultiArray2 Z) (i : nat)
    (tree_indices : list nat) (tree_results : list AccInputType)
    : result (list AccInputType) :=
  match tree_indices with
  | [] => Ok tree_results
  | k :: rest =>
      r ← response_at rf ids i k;
      gather rf ids i rest (tree_results ++ [r])
  end.

(** The body of the loop over the samples in [predict_proba]. *)
Definition predict_proba_sample (rf : RandomForest) (ids : MultiArray2 Z)
    (actual_tree_indices : list nat) (i : nat) (probs : MultiArray2 Prob)
    : MultiArray2 Prob * result unit :=
  match gather rf ids i actual_tree_indices [] with
  | Throw e => (probs, Throw e)
  | Ok tree_results =>
      match bind0 probs i with
      | Throw e => (probs, Throw e)
      | Ok sub_probs => (set_row probs i (acc tree_results sub_probs), Ok tt)
      end
  end.

(** The head of [predict_proba]: its preconditions, up to the set of
    tree indices it goes on with. *)
Definition predict_proba_checks (rf : RandomForest)
    (features : MultiArray2 FeatureType) (probs : MultiArray2 Prob)
    (tree_indices : list nat) : result (list nat) :=
  _ ← vigra_precondition (shape0 features =? shape0 probs)
        "RandomForest::predict_proba(): Shape mismatch between features and probabilities.";
  _ ← vigra_precondition (shape1 features =? num_features_ (problem_spec_ rf))
        "RandomForest::predict_proba(): Number of features in prediction differs from training.";
  _ ← vigra_precondition (shape1 probs =? num_classes_ (problem_spec_ rf))
        "RandomForest::predict_proba(): Number of labels in probabilities differs from training.";
  checked_tree_indices rf tree_indices
        "RandomForest::predict_proba(): Tree index out of range.".

Definition predict_proba (fuel : nat) (rf : RandomForest)
    (features : MultiArray2 FeatureType) (probs : MultiArray2 Prob)
    (n_threads : Z) (tree_indices : list nat) (schedule : list (nat * nat))
    : MultiArray2 Prob * result Ratio :=
  match predict_proba_checks rf features probs tree_indices with
  | Throw e => (probs, Throw e)
  | Ok actual_tree_indices =>
      let num_roots := BinaryForest.numRoots (graph_ rf) in
      let ids := new_array (shape0 features) num_roots 0%Z in
      match leaf_ids size_t fuel rf features ids n_threads actual_tree_indices schedule with
      | (_, Throw e) => (probs, Throw e)
      | (ids, Ok average_split_counts) =>
          match
            for_each (predict_proba_sample rf ids actual_tree_indices)
                     (seq 0 (shape0 features)) probs
          with
          | (probs, Throw e) => (probs, Throw e)
          | (probs, Ok _) => (probs, Ok average_split_counts)
          end
      end
  end.

(** *** predict *)

(** [std::max_element] over a range whose first element [largest] (at
    index [largest_i]) has been taken and whose remaining elements
    [l] start at index [first_i]; the result is the index of the
    element the returned iterator points to. *)
Fixpoint max_element_from (largest_i : nat) (largest : Prob) (first_i : nat)
    (l : list Prob) : nat :=
  match l with
  | [] => largest_i
  | x :: l' =>
      if prob_lt largest x
      then max_element_from first_i x (S first_i) l'
      else max_element_from largest_i largest (S first_i) l'
  end.

(** [std::distance(begin, std::max_element(begin, end))]; on an empty
    range the iterator returned is [end], at distance 0. *)
Definition max_element (l : list Prob) : nat :=
  match l with
  | [] => 0
  | x :: l' => max_element_from 0 x 1 l'
  end.

(** The body of the loop over the samples in [predict]. *)
Definition predict_sample (rf : RandomForest) (probs : MultiArray2 Prob) (i : nat)
    (labels : list LabelType) : list LabelType * result unit :=
  match bind0 probs i with
  | Throw e => (labels, Throw e)
  | Ok sub_probs =>
      let label := max_element sub_probs in
      match distinct_classes_ (problem_spec_ rf) !! label with
      | None => (labels, Throw InvalidAccess)
      | Some c => (<[i := c]> labels, Ok tt)
      end
  end.

(** The head of [predict]: its two preconditions. *)
Definition predict_checks (rf : RandomForest)
    (features : MultiArray2 FeatureType) (labels : list LabelType) : result unit :=
  _ ← vigra_precondition (shape0 features =? length labels)
        "RandomForest::predict(): Shape mismatch between features and labels.";
  vigra_precondition (shape1 features =? num_features_ (problem_spec_ rf))
        "RandomForest::predict(): Number of features in prediction differs from training.".

Definition predict (fuel : nat) (rf : RandomForest)
    (features : MultiArray2 FeatureType) (labels : list LabelType)
    (n_threads : Z) (tree_indices : list nat) (schedule : list (nat * nat))
    : list LabelType * result Ratio :=
  match predict_checks rf features labels with
  | Throw e => (labels, Throw e)
  | Ok _ =>
      let probs := new_array (shape0 features) (num_classes_ (problem_spec_ rf)) prob_zero in
      match predict_proba fuel rf features probs n_threads tree_indices schedule with
      | (_, Throw e) => (labels, Throw e)
      | (probs, Ok average_split_counts) =>
          match for_each (predict_sample rf probs) (seq 0 (shape0 features)) labels with
          | (labels, Throw e) => (labels, Throw e)
          | (labels, Ok _) => (labels, Ok average_split_counts)
          end
      end
  end.

(** ** Reference notions used in the statements *)

(** The traversal as the specification words it: from [node], a node
    without children is the leaf, reached with no comparison; a node
    with two children evaluates its split test on the row, moves to
    the child of that index in {0, 1} and counts one comparison. *)
Inductive reaches (rf : RandomForest) (x : list FeatureType) : nat -> nat -> nat -> Prop :=
| reaches_leaf node :
    BinaryForest.outDegree (graph_ rf) node = Ok 0 ->
    reaches rf x node node 0
| reaches_step node test child leaf n :
    BinaryForest.outDegree (graph_ rf) node = Ok 2 ->
    split_tests_ rf !! node = Some test ->
    test x < 2 ->
    BinaryForest.getChild (graph_ rf) node (test x) = Ok child ->
    reaches rf x child leaf n ->
    reaches rf x node leaf (S n).

(** The invariants of the data model below [node]: the nodes form a
    finite tree of height at most [h], and every node with children has
    a split test that answers 0 or 1 on every row. *)
Inductive proper_tree (rf : RandomForest) : nat -> nat -> Prop :=
| proper_leaf node h :
    BinaryForest.nodes_ (graph_ rf) !! node = Some None ->
    proper_tree rf node h
| proper_split node left_child right_child test h :
    BinaryForest.nodes_ (graph_ rf) !! node = Some (Some (left_child, right_child)) ->
    split_tests_ rf !! node = Some test ->
    (forall x, test x < 2) ->
    proper_tree rf left_child h ->
    proper_tree rf right_child h ->
    proper_tree rf node (S h).

(** One sample in one tree: the body of the loop over the tree
    indices, with a fresh counter. *)
Definition tree_walk (fuel : nat) (rf : RandomForest) (x : list FeatureType) (k : nat)
    : result (nat * nat) :=
  node ← BinaryForest.getRoot (graph_ rf) k; descend fuel rf x node 0.

Definition leaf_of (fuel : nat) (rf : RandomForest) (x : list FeatureType) (k : nat) : nat :=
  match tree_walk fuel rf x k with Ok (leaf, _) => leaf | Throw _ => 0 end.

Definition cost_of (fuel : nat) (rf : RandomForest) (x : list FeatureType) (k : nat) : nat :=
  match tree_walk fuel rf x k with Ok (_, n) => n | Throw _ => 0 end.

(** Every sample of [features] reaches a leaf in every tree of [ks]
    within [fuel] comparisons. *)
Definition walks_ok (fuel : nat) (rf : RandomForest)
    (features : MultiArray2 FeatureType) (ks : list nat) : Prop :=
  Forall (fun x => Forall (fun k => is_ok (tree_walk fuel rf x k) = true) ks) (rows features).

(** Sample [i] of [features]: [features.bind<0>(i)] inside the shape. *)
Definition sample_row (features : MultiArray2 FeatureType) (i : nat) : list FeatureType :=
  default [] (rows features !! i).

(** The tree indices an operation works with: the given ones as a
    set, all trees when none is given. *)
Definition resolved_trees (rf : RandomForest) (tree_indices : list nat) : list nat :=
  match std_set tree_indices with
  | [] => seq 0 (num_trees rf)
  | s => s
  end.

(** Row [r] of the leaf-id array after the leaves of sample [x] in the
    trees [ks] have been stored. *)
Definition leaf_row (fuel : nat) (rf : RandomForest) (x : list FeatureType)
    (ks : list nat) (r : list Z) : list Z :=
  foldl (fun r k => <[k := Z.of_nat (leaf_of fuel rf x k)]> r) r ks.

(** The id array with every cell set to the converted -1 and then the
    leaves of the trees [ks] stored. *)
Definition expected_ids (id_type : IdType) (fuel : nat) (rf : RandomForest)
    (features : MultiArray2 FeatureType) (ids : MultiArray2 Z) (ks : list nat)
    : MultiArray2 Z :=
  mkArray (zip_with (fun x (r : list Z) =>
                       leaf_row fuel rf x ks ((fun _ => to_id id_type (-1)) <$> r))
             (rows features) (rows ids))
          (cols ids).

Definition row_cost (fuel : nat) (rf : RandomForest) (ks : list nat)
    (x : list FeatureType) : nat :=
  sum_list (cost_of fuel rf x <$> ks).

Definition total_cost (fuel : nat) (rf : RandomForest)
    (features : MultiArray2 FeatureType) (ks : list nat) : nat :=
  sum_list (row_cost fuel rf ks <$> rows features).

(** The responses of the leaves of sample [x], in the order of [ks]. *)
Definition responses_of (fuel : nat) (rf : RandomForest) (x : list FeatureType)
    (ks : list nat) : list AccInputType :=
  omap (fun k => node_responses_ rf !! leaf_of fuel rf x k) ks.

(** Every leaf reached from [features] in the trees [ks] has a response. *)
Definition responses_ok (fuel : nat) (rf : RandomForest)
    (features : MultiArray2 FeatureType) (ks : list nat) : Prop :=
  Forall (fun x => Forall (fun k => is_Some (node_responses_ rf !! leaf_of fuel rf x k)) ks)
         (rows features).

Definition expected_probs (fuel : nat) (rf : RandomForest)
    (features : MultiArray2 FeatureType) (probs : MultiArray2 Prob) (ks : list nat)
    : MultiArray2 Prob :=
  mkArray (zip_with (fun x old => acc (responses_of fuel rf x ks) old)
             (rows features) (rows probs))
          (cols probs).

(** [j] is the position of the first maximum of [row] for [prob_lt]. *)
Definition first_max (row : list Prob) (j : nat) : Prop :=
  exists m, row !! j = Some m /\
    (forall j' y, row !! j' = Some y -> prob_lt m y = false) /\
    (forall j' y, j' < j -> row !! j' = Some y -> prob_lt y m = true).

(** [prob_lt] is a strict weak order, as [<] is on the doubles that
    are numbers. *)
Definition strict_weak_order : Prop :=
  (forall a, prob_lt a a = false) /\
  (forall a b c, prob_lt a b = true -> prob_lt b c = true -> prob_lt a c = true) /\
  (forall a b c, prob_lt a b = false -> prob_lt b c = false -> prob_lt a c = false).

(** "The failure describes the offending values", for the feature
    count: the count expected and the count given can be read off the
    failure that [predict] raises when they differ. *)
Definition failure_tells_feature_counts : Prop :=
  exists report : Failure -> nat * nat,
    forall fuel (rf : RandomForest) features labels n_threads tree_indices schedule labels' e,
      shape0 features = length labels ->
      shape1 features <> num_features_ (problem_spec_ rf) ->
      predict fuel rf features labels n_threads tree_indices schedule = (labels', Throw e) ->
      report e = (num_features_ (problem_spec_ rf), shape1 features).

(** The forest that [merge] leaves in place of [rf] when it succeeds. *)
Definition merged (rf other : RandomForest) : RandomForest :=
  mkForest (BinaryForest.merge (graph_ rf) (graph_ other))
           (reinsert (num_nodes rf) (split_tests_ other) (split_tests_ rf))
           (reinsert (num_nodes rf) (node_responses_ other) (node_responses_ rf))
           (problem_spec_ rf).

End random_forest.

(** ** The forest of the unit test [test_base_class] *)

Module BaseClassTest.

(** Modelled from the spec: the threshold split test of the
    end-to-end scenario ([LessEqualSplitTest] is declared outside the
    sources): child 0 when feature [dim] is at most [val], else
    child 1. *)
Definition LessEqualSplitTest (dim : nat) (val : Q) : SplitTests Q :=
  fun features =>
    match features !! dim with
    | Some v => if Qle_bool v val then 0 else 1
    | None => 1
    end.

(** An accumulator for the examples: the number of trees that answer
    with each class. *)
Definition vote_counts (responses : list nat) (row : list nat) : list nat :=
  foldl (fun r c => alter S c r) (map (fun _ => 0) row) responses.

Definition gr : BinaryForest.t :=
  BinaryForest.mk [Some (1, 2); Some (3, 4); Some (5, 6); None; None; None; None] [0].

Definition split_tests : gmap nat (SplitTests Q) :=
  <[2 := LessEqualSplitTest 1 (75 # 100)]>
    (<[1 := LessEqualSplitTest 1 (25 # 100)]>
       (<[0 := LessEqualSplitTest 0 (6 # 10)]> ∅)).

Definition leaf_responses : gmap nat nat :=
  <[6 := 3]> (<[5 := 2]> (<[4 := 1]> (<[3 := 0]> (<[3 := 0]> ∅)))).

Definition pspec : ProblemSpecNew Z := mkSpec 2 4 [0; 1; -7; 3]%Z.

Definition rf : @RandomForest Q Z nat := mkForest gr split_tests leaf_responses pspec.

Definition test_x : MultiArray2 Q :=
  mkArray [[2 # 10; 2 # 10]; [4 # 10; 2 # 10]; [2 # 10; 7 # 10]; [4 # 10; 7 # 10];
           [7 # 10; 2 # 10]; [8 # 10; 2 # 10]; [7 # 10; 8 # 10]; [8 # 10; 8 # 10]] 2.

Definition test_y : list Z := [0; 0; 1; 1; -7; -7; 3; 3]%Z.

(** One worker taking the samples in order, and two workers taking
    them alternately, the later samples first. *)
Definition one_worker : list (nat * nat) := map (fun i => (0, i)) (seq 0 8).
Definition two_workers : list (nat * nat) :=
  map (fun i => (i mod 2, i)) (rev (seq 0 8)).

(** A forest with a single tree that is a single node. *)
Definition stump : @RandomForest Q Z nat :=
  mkForest (BinaryForest.mk [None] [0]) ∅ (<[0 := 1]> ∅) pspec.

(** Features with three and with five columns, for a forest trained
    on two. *)
Definition three_columns : MultiArray2 Q := mkArray [[1 # 1; 2 # 1; 3 # 1]] 3.
Definition five_columns : MultiArray2 Q := mkArray [[1 # 1; 2 # 1; 3 # 1; 4 # 1; 5 # 1]] 5.

End BaseClassTest.

(** ** The constructors, and further reference notions *)

Section constructors.
Context {FeatureType LabelType AccInputType : Type}.

(** [RandomForest()]: an empty graph and empty property maps;
    [problem_spec] stands for the default-constructed specification
    ([ProblemSpecNew()] is declared outside the sources). *)
Definition empty_forest (problem_spec : ProblemSpecNew LabelType)
    : @RandomForest FeatureType LabelType AccInputType :=
  mkForest (BinaryForest.mk [] []) ∅ ∅ problem_spec.

(** The trees [ks] of [rf] satisfy the invariants of the data model
    with height at most [h]. *)
Definition proper_forest (rf : @RandomForest FeatureType LabelType AccInputType)
    (ks : list nat) (h : nat) : Prop :=
  Forall (fun k => exists root, BinaryForest.getRoot (graph_ rf) k = Ok root /\
                                proper_tree rf root h) ks.

End constructors.

(** ** Variants of the unit-test forest for the edge cases *)

Module EdgeCases.
Import BaseClassTest.

(** The test forest without the response of leaf 5. *)
Definition rf_no_response : @RandomForest Q Z nat :=
  mkForest gr split_tests (delete 5 leaf_responses) pspec.

(** The test forest with a specification that lists no label. *)
Definition rf_no_labels : @RandomForest Q Z nat :=
  mkForest gr split_tests leaf_responses (mkSpec 2 0 []).

(** The id array after [leaf_ids_impl] has handled the samples 0, 1, 2
    of the test features. *)
Definition ids_after_three : MultiArray2 Z :=
  mkArray [[3]; [3]; [4]; [0]; [0]; [0]; [0]; [0]]%Z 1.

Definition ids_after_all : MultiArray2 Z :=
  mkArray [[3]; [3]; [4]; [4]; [5]; [5]; [6]; [6]]%Z 1.

End EdgeCases.

(** * Properties *)

(** *** The conversion to the element type of an id array *)

Lemma to_id_of_nat id_type (n : nat) : to_id id_type (Z.of_nat n) = Z.of_nat n.
Proof.
  destruct id_type as [|bits]; [done|]. unfold to_id.
  by rewrite (proj2 (Z.ltb_ge _ _)) by lia.
Qed.


(** ** Sets of tree indices *)

Lemma elem_of_set_insert x y s : y ∈ set_insert x s <-> y = x \/ y ∈ s.
Proof.
  induction s as [|z s IH]; simpl.
  - rewrite list_elem_of_singleton. split; [by left|].
    intros [Hy|Hy]; [done|by apply elem_of_nil in Hy].
  - destruct (x <? z) eqn:Hlt; [apply elem_of_cons|].
    destruct (x =? z) eqn:Heq.
    + apply Nat.eqb_eq in Heq. subst. split; [by right|].
      intros [->|Hy]; [left|done].
    + rewrite !elem_of_cons, IH. split; [intros [?|[?|?]]|intros [?|[?|?]]]; auto.
Qed.

Lemma set_insert_last x s : Forall (fun y => y < x) s -> set_insert x s = s ++ [x].
Proof.
  induction 1 as [|y s Hy _ IH]; simpl; [done|].
  destruct (x <? y) eqn:Hlt; [apply Nat.ltb_lt in Hlt; lia|].
  destruct (x =? y) eqn:Heq; [apply Nat.eqb_eq in Heq; lia|].
  by rewrite IH.
Qed.

Lemma set_insert_sorted x s :
  StronglySorted lt s -> StronglySorted lt (set_insert x s).
Proof.
  induction 1 as [|y s Hs IH Hy]; simpl.
  - repeat constructor.
  - destruct (x <? y) eqn:Hlt.
    + apply Nat.ltb_lt in Hlt. constructor; [by constructor|].
      constructor; [done|]. eapply Forall_impl; [exact Hy|]. simpl. lia.
    + destruct (x =? y) eqn:Heq; [by constructor|].
      apply Nat.ltb_ge in Hlt. apply Nat.eqb_neq in Heq.
      constructor; [done|]. apply Forall_forall. intros z Hz.
      apply elem_of_set_insert in Hz as [->|Hz]; [lia|].
      by eapply Forall_forall in Hy.
Qed.

Lemma foldl_set_insert_sorted l s :
  StronglySorted lt s -> StronglySorted lt (foldl (fun s x => set_insert x s) s l).
Proof.
  revert s. induction l as [|x l IH]; intros s Hs; simpl; [done|].
  by apply IH, set_insert_sorted.
Qed.

Lemma elem_of_foldl_set_insert l s y :
  y ∈ foldl (fun s x => set_insert x s) s l <-> y ∈ l \/ y ∈ s.
Proof.
  revert s. induction l as [|x l IH]; intros s; simpl.
  - split; [by right|]. intros [Hy|Hy]; [by apply elem_of_nil in Hy|done].
  - rewrite IH, elem_of_set_insert, elem_of_cons.
    split; [intros [?|[?|?]]|intros [[?|?]|?]]; auto.
Qed.

Lemma foldl_set_insert_ascending l s :
  StronglySorted lt (s ++ l) -> foldl (fun s x => set_insert x s) s l = s ++ l.
Proof.
  revert s. induction l as [|x l IH]; intros s Hs; simpl; [by rewrite app_nil_r|].
  rewrite set_insert_last.
  - rewrite IH; rewrite <- app_assoc; done.
  - apply Forall_forall. intros y Hy.
    apply StronglySorted_app_1_elem_of with (x1 := y) (x2 := x) in Hs; [done|done|left].
Qed.

Lemma std_set_sorted l : StronglySorted lt (std_set l).
Proof. apply foldl_set_insert_sorted. constructor. Qed.

Lemma elem_of_std_set l y : y ∈ std_set l <-> y ∈ l.
Proof.
  unfold std_set. rewrite elem_of_foldl_set_insert.
  split; [intros [Hy|Hy]; [done|by apply elem_of_nil in Hy]|by left].
Qed.

Lemma std_set_ascending l : StronglySorted lt l -> std_set l = l.
Proof. intros Hl. unfold std_set. by rewrite foldl_set_insert_ascending. Qed.

Lemma seq_sorted j n : StronglySorted lt (seq j n).
Proof.
  revert j. induction n as [|n IH]; intros j; simpl; constructor; [apply IH|].
  apply Forall_forall. intros y Hy. apply elem_of_seq in Hy. lia.
Qed.


Lemma std_set_nil_inv l : std_set l = [] -> l = [].
Proof.
  destruct l as [|x l]; [done|]. intros Hs.
  assert (Hx : x ∈ std_set (x :: l)) by (apply elem_of_std_set; left).
  rewrite Hs in Hx. by apply elem_of_nil in Hx.
Qed.

Lemma check_loop n message (s : list nat) (r : result unit) :
  foldl (fun r i => _ ← r; vigra_precondition (i <? n) message) r s =
  match r with
  | Throw e => Throw e
  | Ok _ => if forallb (fun i => i <? n) s then Ok tt
            else Throw (PreconditionViolation message)
  end.
Proof.
  revert r. induction s as [|i s IH]; intros r; simpl.
  - by destruct r as [[]|].
  - rewrite IH. destruct r as [[]|]; simpl; [|done].
    unfold vigra_precondition. by destruct (i <? n).
Qed.

Lemma for_each_invariant {S B : Type} (P : S -> Prop) (Q : Failure -> Prop)
    (body : B -> S -> S * result unit) (l : list B) :
  (forall b s s' r, b ∈ l -> P s -> body b s = (s', r) ->
                    P s' /\ (forall e, r = Throw e -> Q e)) ->
  forall s s' r, P s -> for_each body l s = (s', r) ->
                 P s' /\ (forall e, r = Throw e -> Q e).
Proof.
  induction l as [|b l IH]; intros Hbody s s' r Hs; simpl.
  - intros [= <- <-]. split; [done|]. by intros e.
  - destruct (body b s) as [s1 [[]|e1]] eqn:Hb.
    + apply Hbody in Hb as [Hs1 _]; [|by left|done].
      apply IH; [|done]. intros b' t t' r' Hb'. apply Hbody. by right.
    + intros [= <- <-]. apply Hbody in Hb; [done|by left|done].
Qed.

Lemma checks_inv {X : Type} (b : bool) message (r : result X) v :
  (_ ← vigra_precondition b message; r) = Ok v -> b = true /\ r = Ok v.
Proof. destruct b; simpl; [done|discriminate]. Qed.

Lemma checks_throw {X : Type} (b : bool) message (r : result X) e :
  (_ ← vigra_precondition b message; r) = Throw e ->
  (b = false /\ e = PreconditionViolation message) \/ (b = true /\ r = Throw e).
Proof. destruct b; simpl; [by right|]. intros [= <-]. by left. Qed.

Section facts.
Context {FeatureType LabelType AccInputType Prob : Type}.
Context `{EqDecision LabelType}.
Context (prob_lt : Prob -> Prob -> bool) (prob_zero : Prob).
Context (acc : list AccInputType -> list Prob -> list Prob).
Context (hardware_concurrency : nat).

Abbreviation Forest := (@RandomForest FeatureType LabelType AccInputType).
Implicit Types (rf : Forest) (x : list FeatureType) (features : MultiArray2 FeatureType).
Implicit Types (ids : MultiArray2 Z) (ks : list nat).

(** *** Checked tree indices *)

Lemma checked_tree_indices_eq rf tree_indices message :
  checked_tree_indices rf tree_indices message =
  if forallb (fun i => i <? num_trees rf) (std_set tree_indices)
  then Ok (resolved_trees rf tree_indices)
  else Throw (PreconditionViolation message).
Proof.
  unfold checked_tree_indices, resolved_trees, num_trees.
  rewrite check_loop.
  destruct (forallb _ _); simpl; [|done].
  destruct (std_set tree_indices) as [|k s] eqn:Hs; simpl; [|done].
  f_equal. apply (std_set_ascending (seq 0 _)), seq_sorted.
Qed.

Lemma resolved_trees_sorted rf tree_indices :
  StronglySorted lt (resolved_trees rf tree_indices).
Proof.
  unfold resolved_trees.
  pose proof (std_set_sorted tree_indices) as Hs.
  destruct (std_set tree_indices); [apply seq_sorted|done].
Qed.

Lemma elem_of_resolved_trees rf tree_indices k :
  k ∈ resolved_trees rf tree_indices <->
  k ∈ tree_indices \/ (tree_indices = [] /\ k < num_trees rf).
Proof.
  unfold resolved_trees.
  destruct (std_set tree_indices) as [|j s] eqn:Hs.
  - apply std_set_nil_inv in Hs as ->. rewrite elem_of_seq.
    split; [intros ?; right; split; [done|lia]|].
    intros [Hk|[_ Hk]]; [by apply elem_of_nil in Hk|lia].
  - rewrite <- Hs, elem_of_std_set.
    split; [by left|]. intros [Hk|[-> _]]; [done|]. discriminate Hs.
Qed.

Lemma resolved_trees_in_range rf tree_indices :
  Forall (fun k => k < num_trees rf) tree_indices ->
  Forall (fun k => k < num_trees rf) (resolved_trees rf tree_indices).
Proof.
  intros Hall. apply Forall_forall. intros k Hk.
  apply elem_of_resolved_trees in Hk as [Hk|[_ Hk]]; [|done].
  rewrite Forall_forall in Hall. by apply Hall.
Qed.

Lemma forallb_std_set rf tree_indices :
  Forall (fun k => k < num_trees rf) tree_indices ->
  forallb (fun i => i <? num_trees rf) (std_set tree_indices) = true.
Proof.
  intros Hall. apply forallb_forall. intros k Hk.
  rewrite <- list_elem_of_In, elem_of_std_set in Hk.
  rewrite Forall_forall in Hall. by apply Nat.ltb_lt, Hall.
Qed.

Lemma forallb_std_set_inv rf tree_indices :
  forallb (fun i => i <? num_trees rf) (std_set tree_indices) = true ->
  Forall (fun k => k < num_trees rf) tree_indices.
Proof.
  intros Hall. apply Forall_forall. intros k Hk.
  apply Nat.ltb_lt. rewrite forallb_forall in Hall. apply Hall.
  by rewrite <- list_elem_of_In, elem_of_std_set.
Qed.

Lemma resolved_trees_idem rf tree_indices :
  resolved_trees rf (resolved_trees rf tree_indices) = resolved_trees rf tree_indices.
Proof.
  unfold resolved_trees at 1.
  rewrite std_set_ascending by apply resolved_trees_sorted.
  destruct (resolved_trees rf tree_indices) as [|k s] eqn:Hr; [|done].
  unfold resolved_trees in Hr. by destruct (std_set tree_indices).
Qed.

(** *** The descent *)

Lemma descend_counter fuel rf x node c :
  descend fuel rf x node c =
  match descend fuel rf x node 0 with
  | Ok (leaf, n) => Ok (leaf, c + n)
  | Throw e => Throw e
  end.
Proof.
  revert node c. induction fuel as [|fuel IH]; intros node c; simpl.
  - destruct (BinaryForest.outDegree _ _) as [d|]; simpl; [|done].
    destruct (0 <? d); [done|]. by rewrite Nat.add_0_r.
  - destruct (BinaryForest.outDegree _ _) as [d|]; simpl; [|done].
    destruct (0 <? d); [|by rewrite Nat.add_0_r].
    destruct (at_ _ _) as [test|]; simpl; [|done].
    destruct (BinaryForest.getChild _ _ _) as [child|]; simpl; [|done].
    rewrite (IH child (c + 1)), (IH child 1).
    destruct (descend fuel rf x child 0) as [[leaf n]|]; [|done].
    f_equal. f_equal. lia.
Qed.

Lemma outDegree_cases (g : BinaryForest.t) node d :
  BinaryForest.outDegree g node = Ok d -> d = 0 \/ d = 2.
Proof.
  unfold BinaryForest.outDegree.
  destruct (BinaryForest.nodes_ g !! node) as [[?|]|]; simpl; intros [=]; auto.
Qed.

Lemma getChild_index (g : BinaryForest.t) node i child :
  BinaryForest.getChild g node i = Ok child -> i < 2.
Proof.
  unfold BinaryForest.getChild.
  destruct (BinaryForest.nodes_ g !! node) as [[[l r]|]|]; simpl; [| |done].
  - destruct i as [|[|i]]; [lia|lia|done].
  - by destruct i.
Qed.

Lemma descend_reaches fuel rf x node leaf n :
  descend fuel rf x node 0 = Ok (leaf, n) -> reaches rf x node leaf n /\ n <= fuel.
Proof.
  revert node leaf n. induction fuel as [|fuel IH]; intros node leaf n; simpl.
  - destruct (BinaryForest.outDegree _ _) as [d|] eqn:Hd; simpl; [|done].
    destruct (0 <? d) eqn:Hpos; [done|]. intros [= <- <-].
    apply Nat.ltb_ge in Hpos. assert (d = 0) as -> by lia.
    split; [by constructor|lia].
  - destruct (BinaryForest.outDegree _ _) as [d|] eqn:Hd; simpl; [|done].
    destruct (0 <? d) eqn:Hpos.
    + apply Nat.ltb_lt in Hpos.
      destruct (outDegree_cases _ _ _ Hd) as [->| ->]; [lia|].
      unfold at_. destruct (split_tests_ rf !! node) as [test|] eqn:Ht; simpl; [|done].
      destruct (BinaryForest.getChild _ _ _) as [child|] eqn:Hc; simpl; [|done].
      rewrite descend_counter.
      destruct (descend fuel rf x child 0) as [[leaf' n']|] eqn:Hrec; [|done].
      intros [= <- <-]. apply IH in Hrec as [Hr Hn].
      split; [|lia]. econstructor; eauto using getChild_index.
    + intros [= <- <-]. apply Nat.ltb_ge in Hpos. assert (d = 0) as -> by lia.
      split; [by constructor|lia].
Qed.

Lemma reaches_descend fuel rf x node leaf n :
  reaches rf x node leaf n -> n <= fuel -> descend fuel rf x node 0 = Ok (leaf, n).
Proof.
  intros Hr. revert fuel. induction Hr as [node Hd|node test child leaf n Hd Ht Hlt Hc Hr IH];
    intros fuel Hfuel.
  - destruct fuel; simpl; by rewrite Hd.
  - destruct fuel as [|fuel]; [lia|]. simpl. rewrite Hd. simpl.
    unfold at_. rewrite Ht. simpl. rewrite Hc. simpl.
    rewrite descend_counter, IH by lia. done.
Qed.

Lemma reaches_functional rf x node leaf n leaf' n' :
  reaches rf x node leaf n -> reaches rf x node leaf' n' -> leaf = leaf' /\ n = n'.
Proof.
  intros H1 H2.
  pose proof (reaches_descend (n + n') _ _ _ _ _ H1 ltac:(lia)) as E1.
  pose proof (reaches_descend (n + n') _ _ _ _ _ H2 ltac:(lia)) as E2.
  rewrite E1 in E2. by injection E2.
Qed.

Lemma proper_tree_reaches rf x node h :
  proper_tree rf node h -> exists leaf n, reaches rf x node leaf n /\ n <= h.
Proof.
  induction 1 as [node h Hn|node l r test h Hn Ht Hlt _ IHl _ IHr].
  - exists node, 0. split; [|lia]. constructor.
    unfold BinaryForest.outDegree. by rewrite Hn.
  - assert (Hd : BinaryForest.outDegree (graph_ rf) node = Ok 2)
      by (unfold BinaryForest.outDegree; by rewrite Hn).
    specialize (Hlt x).
    destruct (test x) as [|[|?]] eqn:Hx; [| |lia].
    + destruct IHl as (leaf & n & Hr & Hle). exists leaf, (S n). split; [|lia].
      eapply (reaches_step _ _ node test l); try done; rewrite Hx; [lia|].
      unfold BinaryForest.getChild. by rewrite Hn.
    + destruct IHr as (leaf & n & Hr & Hle). exists leaf, (S n). split; [|lia].
      eapply (reaches_step _ _ node test r); try done; rewrite Hx; [lia|].
      unfold BinaryForest.getChild. by rewrite Hn.
Qed.

(** *** One sample in one tree, as [leaf_ids_impl] runs it *)

(** The body of the loop over the trees returns exactly when the walk
    from the root of the tree ends, with the leaf stored and the
    counter advanced by the steps of the walk. *)
Lemma leaf_ids_impl_tree_reaches id_type fuel rf x i k ids c root ids' c' :
  BinaryForest.getRoot (graph_ rf) k = Ok root ->
  leaf_ids_impl_tree id_type fuel rf x i k (ids, c) = ((ids', c'), Ok tt) <->
  exists leaf n, reaches rf x root leaf n /\ n <= fuel /\
                 ids' = set_cell ids i k (to_id id_type (Z.of_nat leaf)) /\ c' = c + n.
Proof.
  intros Hroot. unfold leaf_ids_impl_tree. rewrite Hroot. cbn [mbind result_bind].
  rewrite (descend_counter _ _ _ _ c).
  destruct (descend fuel rf x root 0) as [[leaf n]|e] eqn:Hd.
  - apply descend_reaches in Hd as [Hr Hn]. split.
    + intros [= <- <-]. by exists leaf, n.
    + intros (leaf' & n' & Hr' & _ & -> & ->).
      by destruct (reaches_functional _ _ _ _ _ _ _ Hr Hr') as [-> ->].
  - split; [done|]. intros (leaf & n & Hr & Hn & _).
    by rewrite (reaches_descend _ _ _ _ _ _ Hr Hn) in Hd.
Qed.

(** [leaf_ids_impl] on the range [i, i + 1) and the single tree [k]:
    its checks pass, and the two loops run their body once. *)
Lemma leaf_ids_impl_one id_type fuel rf features ids i k x :
  shape0 features = shape0 ids ->
  shape1 features = num_features_ (problem_spec_ rf) ->
  shape1 ids = num_trees rf ->
  rows features !! i = Some x ->
  leaf_ids_impl id_type fuel rf features ids i (i + 1) [k] =
  match leaf_ids_impl_tree id_type fuel rf x i k (ids, 0) with
  | ((ids', _), Throw e) => (ids', Throw e)
  | ((ids', c), Ok _) => (ids', Ok c)
  end.
Proof.
  intros H0 H1 H2 Hx. unfold leaf_ids_impl, num_trees in *.
  assert (Hi : i < shape0 features) by (by eapply lookup_lt_Some).
  rewrite <- H0, H1, H2, !Nat.eqb_refl.
  replace (i + 1 <=? shape0 features) with true by (symmetry; apply Nat.leb_le; lia).
  replace (i <=? i + 1) with true by (symmetry; apply Nat.leb_le; lia).
  replace (i + 1 - i) with 1 by lia.
  cbn [vigra_precondition mbind result_bind andb Nat.leb seq for_each].
  unfold leaf_ids_impl_sample, bind0. rewrite Hx. cbn [of_option for_each].
  by destruct (leaf_ids_impl_tree id_type fuel rf x i k (ids, 0)) as [[ids' c] [[]|e]].
Qed.

Lemma leaf_ids_impl_one_reaches id_type fuel rf features ids i k x root leaf n :
  shape0 features = shape0 ids ->
  shape1 features = num_features_ (problem_spec_ rf) ->
  shape1 ids = num_trees rf ->
  rows features !! i = Some x ->
  BinaryForest.getRoot (graph_ rf) k = Ok root ->
  reaches rf x root leaf n -> n <= fuel ->
  leaf_ids_impl id_type fuel rf features ids i (i + 1) [k] =
  (set_cell ids i k (Z.of_nat leaf), Ok n).
Proof.
  intros H0 H1 H2 Hx Hroot Hr Hn.
  rewrite (leaf_ids_impl_one _ _ _ _ _ _ _ x) by done.
  assert (Htree : leaf_ids_impl_tree id_type fuel rf x i k (ids, 0) =
                  ((set_cell ids i k (to_id id_type (Z.of_nat leaf)), 0 + n), Ok tt)).
  { apply (leaf_ids_impl_tree_reaches _ _ _ _ _ _ _ _ root); [done|]. by exists leaf, n. }
  by rewrite Htree, to_id_of_nat.
Qed.

Lemma reaches_leaf_outDegree rf x node leaf n :
  reaches rf x node leaf n -> BinaryForest.outDegree (graph_ rf) leaf = Ok 0.
Proof. by induction 1. Qed.

Lemma cell_set_cell {A} (m : MultiArray2 A) i k (v : A) :
  i < shape0 m -> k < shape1 m -> rectangular m ->
  cell (set_cell m i k v) i k = Ok v.
Proof.
  intros Hi Hk Hrect. unfold cell, set_cell, bind0, shape0, shape1 in *. cbn [rows].
  destruct (lookup_lt_is_Some_2 (rows m) i Hi) as [r Hr].
  rewrite list_lookup_alter_eq, Hr. cbn [fmap option_fmap option_map of_option mbind result_bind].
  rewrite list_lookup_insert_eq; [done|].
  unfold rectangular in Hrect. rewrite Forall_lookup in Hrect.
  rewrite (Hrect i r Hr). done.
Qed.

(** C1.  The traversal engine.  For every feature row [x] of the
    feature count of the problem specification (sample [i] of the
    feature array), every tree index [k] below the tree count and every
    id array of the shape that [leaf_ids_impl] asks for: tree [k] has a
    root, and the pass of [leaf_ids_impl] over that sample and that
    tree returns with the counter advanced by [n] exactly when, from
    that root, repeatedly evaluating the split test of the current
    node, moving to the child of that index in {0, 1} and counting one
    comparison while the node has two children ends at a childless
    node [leaf] after [n] such steps (and the fuel covers them); what
    it then leaves in cell (i, k) is the id of that leaf, and the count
    it returns is [n].  A root with no children is stored at once,
    with zero comparisons and whatever the fuel, also when no split
    test exists; and below a root that satisfies the invariants of the
    data model with height [h] the pass returns for every fuel from
    [h] on, with at most [h] comparisons. *)
Theorem traversal_engine id_type fuel rf features ids i k x :
  shape0 features = shape0 ids ->
  shape1 features = num_features_ (problem_spec_ rf) ->
  shape1 ids = num_trees rf ->
  rows features !! i = Some x ->
  k < num_trees rf ->
  exists root,
    BinaryForest.getRoot (graph_ rf) k = Ok root /\
    (forall c ids' c',
       leaf_ids_impl_tree id_type fuel rf x i k (ids, c) = ((ids', c'), Ok tt) <->
       exists leaf n, reaches rf x root leaf n /\ n <= fuel /\
                      ids' = set_cell ids i k (to_id id_type (Z.of_nat leaf)) /\
                      c' = c + n) /\
    (forall ids' n,
       leaf_ids_impl id_type fuel rf features ids i (i + 1) [k] = (ids', Ok n) <->
       exists leaf, reaches rf x root leaf n /\ n <= fuel /\
                    ids' = set_cell ids i k (Z.of_nat leaf)) /\
    (forall leaf n,
       reaches rf x root leaf n -> n <= fuel -> rectangular ids ->
       cell (leaf_ids_impl id_type fuel rf features ids i (i + 1) [k]).1 i k
         = Ok (Z.of_nat leaf) /\
       BinaryForest.outDegree (graph_ rf) leaf = Ok 0) /\
    (BinaryForest.outDegree (graph_ rf) root = Ok 0 ->
     leaf_ids_impl id_type fuel rf features ids i (i + 1) [k]
       = (set_cell ids i k (Z.of_nat root), Ok 0) /\
     leaf_ids_impl id_type 0 rf features ids i (i + 1) [k]
       = (set_cell ids i k (Z.of_nat root), Ok 0) /\
     leaf_ids_impl id_type fuel
                   (mkForest (graph_ rf) ∅ (node_responses_ rf) (problem_spec_ rf))
                   features ids i (i + 1) [k]
       = (set_cell ids i k (Z.of_nat root), Ok 0)) /\
    (forall h,
       proper_tree rf root h -> h <= fuel ->
       exists leaf n,
         leaf_ids_impl id_type fuel rf features ids i (i + 1) [k]
           = (set_cell ids i k (Z.of_nat leaf), Ok n) /\
         n <= h).
Proof.
  intros H0 H1 H2 Hx Hk.
  assert (Hi : i < shape0 features) by (by eapply lookup_lt_Some).
  destruct (lookup_lt_is_Some_2 (BinaryForest.root_nodes_ (graph_ rf)) k Hk) as [root Hroot].
  assert (Hget : BinaryForest.getRoot (graph_ rf) k = Ok root)
    by (unfold BinaryForest.getRoot; by rewrite Hroot).
  exists root. split; [done|]. split; [|split; [|split; [|split]]].
  - intros c ids' c'. by apply leaf_ids_impl_tree_reaches.
  - intros ids' n. rewrite (leaf_ids_impl_one _ _ _ _ _ _ _ x) by done. split.
    + destruct (leaf_ids_impl_tree id_type fuel rf x i k (ids, 0))
        as [[ids1 c1] [[]|e]] eqn:Htree; [|done].
      intros [= <- <-].
      apply (leaf_ids_impl_tree_reaches _ _ _ _ _ _ _ _ root) in Htree
        as (leaf & n & Hr & Hn & -> & ->); [|done].
      exists leaf. by rewrite to_id_of_nat.
    + intros (leaf & Hr & Hn & ->).
      rewrite <- (leaf_ids_impl_one _ _ _ _ _ _ _ x) by done.
      by apply (leaf_ids_impl_one_reaches _ _ _ _ _ _ _ x root).
  - intros leaf n Hr Hn Hrect.
    rewrite (leaf_ids_impl_one_reaches _ _ _ _ _ _ _ x root leaf n) by done.
    split; [|by eapply reaches_leaf_outDegree].
    apply cell_set_cell; [lia| |done]. unfold num_trees in *. by rewrite H2.
  - intros Hd. repeat split.
    + apply (leaf_ids_impl_one_reaches _ _ _ _ _ _ _ x root); try done; [|lia].
      by apply reaches_leaf.
    + apply (leaf_ids_impl_one_reaches _ _ _ _ _ _ _ x root); try done.
      by apply reaches_leaf.
    + apply (leaf_ids_impl_one_reaches _ _ _ _ _ _ _ x root); try done; [|lia].
      by apply reaches_leaf.
  - intros h Hproper Hfuel.
    destruct (proper_tree_reaches rf x root h Hproper) as (leaf & n & Hr & Hn).
    exists leaf, n. split; [|done].
    apply (leaf_ids_impl_one_reaches _ _ _ _ _ _ _ x root); try done. lia.
Qed.

Lemma tree_walk_throw_kind fuel rf x k e :
  tree_walk fuel rf x k = Throw e -> e = InvalidAccess \/ e = OutOfRange \/ e = OutOfFuel.
Proof.
  unfold tree_walk, BinaryForest.getRoot.
  destruct (BinaryForest.root_nodes_ (graph_ rf) !! k) as [root|]; simpl;
    [|intros [= <-]; auto].
  generalize 0 as c. revert root.
  induction fuel as [|fuel IH]; intros node c; simpl.
  - unfold BinaryForest.outDegree.
    destruct (BinaryForest.nodes_ (graph_ rf) !! node) as [n|]; simpl;
      [|intros [= <-]; auto].
    destruct (0 <? _); [intros [= <-]; auto|done].
  - unfold BinaryForest.outDegree at 1.
    destruct (BinaryForest.nodes_ (graph_ rf) !! node) as [n|] eqn:Hn; simpl;
      [|intros [= <-]; auto].
    destruct (0 <? _); [|done].
    unfold at_. destruct (split_tests_ rf !! node) as [test|]; simpl;
      [|intros [= <-]; auto].
    unfold BinaryForest.getChild. rewrite Hn. simpl.
    destruct n as [[l r]|]; [|intros [= <-]; auto].
    destruct (test x) as [|[|?]]; simpl; [apply IH|apply IH|intros [= <-]; auto].
Qed.

(** *** One sample: the loop over the trees *)

Lemma leaf_ids_impl_tree_ok id_type fuel rf x i k ids c :
  is_ok (tree_walk fuel rf x k) = true ->
  leaf_ids_impl_tree id_type fuel rf x i k (ids, c) =
  ((set_cell ids i k (Z.of_nat (leaf_of fuel rf x k)), c + cost_of fuel rf x k), Ok tt).
Proof.
  unfold leaf_ids_impl_tree, leaf_of, cost_of, tree_walk.
  destruct (BinaryForest.getRoot (graph_ rf) k) as [root|]; simpl; [|done].
  rewrite (descend_counter _ _ _ _ c).
  destruct (descend fuel rf x root 0) as [[leaf n]|]; simpl; [|done].
  by rewrite to_id_of_nat.
Qed.

Lemma leaf_ids_impl_tree_throw id_type fuel rf x i k ids c e :
  tree_walk fuel rf x k = Throw e ->
  leaf_ids_impl_tree id_type fuel rf x i k (ids, c) = ((ids, c), Throw e).
Proof.
  unfold leaf_ids_impl_tree, tree_walk.
  destruct (BinaryForest.getRoot (graph_ rf) k) as [root|]; simpl; [|by intros [= <-]].
  rewrite (descend_counter _ _ _ _ c).
  destruct (descend fuel rf x root 0) as [[leaf n]|]; [done|]. by intros [= <-].
Qed.

Lemma leaf_row_cons fuel rf x k ks (r : list Z) :
  leaf_row fuel rf x (k :: ks) r =
  leaf_row fuel rf x ks (<[k := Z.of_nat (leaf_of fuel rf x k)]> r).
Proof. done. Qed.

Lemma row_cost_cons fuel rf x k ks :
  row_cost fuel rf (k :: ks) x = cost_of fuel rf x k + row_cost fuel rf ks x.
Proof. done. Qed.

Lemma trees_loop_ok id_type fuel rf x i ks ids c :
  Forall (fun k => is_ok (tree_walk fuel rf x k) = true) ks ->
  for_each (leaf_ids_impl_tree id_type fuel rf x i) ks (ids, c) =
  ((mkArray (alter (leaf_row fuel rf x ks) i (rows ids)) (cols ids),
    c + row_cost fuel rf ks x), Ok tt).
Proof.
  intros Hall. revert ids c.
  induction Hall as [|k ks Hk _ IH]; intros ids c; cbn [for_each].
  - unfold row_cost. simpl. rewrite Nat.add_0_r.
    rewrite list_alter_id by done. by destruct ids.
  - rewrite leaf_ids_impl_tree_ok by done. rewrite IH.
    rewrite row_cost_cons. unfold set_cell at 1. cbn [rows cols].
    rewrite list_alter_alter_eq.
    f_equal. f_equal. lia.
Qed.

(** Shapes survive the stores of [leaf_ids_impl]. *)
Lemma trees_loop_shape id_type fuel rf x i ks ids c ids' c' r :
  for_each (leaf_ids_impl_tree id_type fuel rf x i) ks (ids, c) = ((ids', c'), r) ->
  shape0 ids' = shape0 ids /\ shape1 ids' = shape1 ids.
Proof.
  revert ids c. induction ks as [|k ks IH]; intros ids c; cbn [for_each].
  - by intros [= <- <- <-].
  - destruct (tree_walk fuel rf x k) as [[leaf n]|e] eqn:Hw.
    + rewrite leaf_ids_impl_tree_ok by (by rewrite Hw).
      intros Hrest. apply IH in Hrest as [-> ->].
      unfold shape0, shape1, set_cell. simpl. by rewrite length_alter.
    + rewrite (leaf_ids_impl_tree_throw _ _ _ _ _ _ _ _ e) by done.
      by intros [= <- <- <-].
Qed.

Lemma trees_loop_throw_kind id_type fuel rf x i ks ids c st e :
  for_each (leaf_ids_impl_tree id_type fuel rf x i) ks (ids, c) = (st, Throw e) ->
  e = InvalidAccess \/ e = OutOfRange \/ e = OutOfFuel.
Proof.
  revert ids c. induction ks as [|k ks IH]; intros ids c; cbn [for_each]; [done|].
  destruct (tree_walk fuel rf x k) as [[leaf n]|e'] eqn:Hw.
  - rewrite leaf_ids_impl_tree_ok by (by rewrite Hw). apply IH.
  - rewrite (leaf_ids_impl_tree_throw _ _ _ _ _ _ _ _ e') by done.
    intros [= <- <-]. by eapply tree_walk_throw_kind.
Qed.

(** *** One item of the parallel loop *)

Lemma walks_ok_row fuel rf features ks i x :
  walks_ok fuel rf features ks -> rows features !! i = Some x ->
  Forall (fun k => is_ok (tree_walk fuel rf x k) = true) ks.
Proof. intros Hw Hx. by eapply (Forall_lookup_1 _ _ _ _ Hw). Qed.

Lemma sample_row_lookup features i x :
  rows features !! i = Some x -> sample_row features i = x.
Proof. unfold sample_row. by intros ->. Qed.

Lemma leaf_ids_impl_item_ok id_type fuel rf features ids i ks :
  shape0 features = shape0 ids ->
  shape1 features = num_features_ (problem_spec_ rf) ->
  shape1 ids = num_trees rf ->
  i < shape0 features ->
  walks_ok fuel rf features ks ->
  leaf_ids_impl id_type fuel rf features ids i (i + 1) ks =
  (mkArray (alter (leaf_row fuel rf (sample_row features i) ks) i (rows ids)) (cols ids),
   Ok (row_cost fuel rf ks (sample_row features i))).
Proof.
  intros H0 H1 H2 Hi Hw. unfold leaf_ids_impl, num_trees in *.
  rewrite <- H0, H1, H2, !Nat.eqb_refl.
  replace (i + 1 <=? shape0 features) with true by (symmetry; apply Nat.leb_le; lia).
  replace (i <=? i + 1) with true by (symmetry; apply Nat.leb_le; lia).
  replace (i + 1 - i) with 1 by lia.
  cbn [vigra_precondition mbind result_bind andb Nat.leb seq for_each].
  destruct (lookup_lt_is_Some_2 (rows features) i Hi) as [x Hx].
  unfold leaf_ids_impl_sample, bind0. rewrite Hx. cbn [of_option].
  rewrite trees_loop_ok by (by eapply walks_ok_row).
  by rewrite (sample_row_lookup _ _ _ Hx).
Qed.

Lemma leaf_ids_item_ok id_type fuel rf features ids ks thread_id i (sc : list nat) :
  shape0 features = shape0 ids ->
  shape1 features = num_features_ (problem_spec_ rf) ->
  shape1 ids = num_trees rf ->
  i < shape0 features ->
  walks_ok fuel rf features ks ->
  leaf_ids_item id_type fuel rf features ks thread_id i (ids, sc) =
  ((mkArray (alter (leaf_row fuel rf (sample_row features i) ks) i (rows ids)) (cols ids),
    alter (fun v => v + row_cost fuel rf ks (sample_row features i)) thread_id sc), Ok tt).
Proof.
  intros. unfold leaf_ids_item. by rewrite leaf_ids_impl_item_ok.
Qed.

(** *** The whole schedule *)

Lemma schedule_run id_type fuel rf features ks schedule ids (sc : list nat) :
  shape0 features = shape0 ids ->
  shape1 features = num_features_ (problem_spec_ rf) ->
  shape1 ids = num_trees rf ->
  Forall (fun p => p.2 < shape0 features) schedule ->
  walks_ok fuel rf features ks ->
  parallel_foreach schedule (leaf_ids_item id_type fuel rf features ks) (ids, sc) =
  ((mkArray
      (foldl (fun rs p => alter (leaf_row fuel rf (sample_row features p.2) ks) p.2 rs)
             (rows ids) schedule)
      (cols ids),
    foldl (fun sc p => alter (fun v => v + row_cost fuel rf ks (sample_row features p.2)) p.1 sc)
          sc schedule), Ok tt).
Proof.
  intros H0 H1 H2 Hsched Hw. revert ids sc H0 H2. unfold parallel_foreach.
  induction Hsched as [|[t i] schedule Hi _ IH]; intros ids sc H0 H2; cbn [for_each foldl].
  - by destruct ids.
  - simpl in Hi. rewrite leaf_ids_item_ok by done.
    rewrite IH; [done| |done].
    unfold shape0 in *. cbn [rows]. by rewrite length_alter.
Qed.

Lemma schedule_rows_lookup (f : nat -> list Z -> list Z)
    (schedule : list (nat * nat)) (rs : list (list Z)) j :
  NoDup schedule.*2 ->
  foldl (fun rs p => alter (f p.2) p.2 rs) rs schedule !! j =
  if decide (j ∈ schedule.*2) then f j <$> rs !! j else rs !! j.
Proof.
  revert rs. induction schedule as [|[t i] schedule IH]; intros rs Hnd; cbn [foldl].
  - case_decide as Hj; [by apply elem_of_nil in Hj|done].
  - rewrite fmap_cons in Hnd. apply NoDup_cons in Hnd as [Hi Hnd].
    rewrite IH by done. cbn [snd fmap list_fmap].
    destruct (decide (j = i)) as [->|Hne].
    + rewrite decide_False by done. rewrite decide_True by left.
      apply list_lookup_alter_eq.
    + rewrite list_lookup_alter_ne by done.
      case_decide as Hj.
      * rewrite decide_True by (by right). done.
      * rewrite decide_False; [done|]. intros [?|?]%elem_of_cons; done.
Qed.

Lemma sum_list_cons (a : nat) (l : list nat) : sum_list (a :: l) = a + sum_list l.
Proof. done. Qed.

Lemma sum_list_alter (c t : nat) (sc : list nat) :
  t < length sc -> sum_list (alter (fun v => v + c) t sc) = sum_list sc + c.
Proof.
  revert t. induction sc as [|v sc IH]; intros [|t] Ht; simpl in *; try lia.
  specialize (IH t ltac:(lia)). unfold alter in IH. lia.
Qed.

Lemma schedule_counters (g : nat -> nat) (schedule : list (nat * nat)) (sc : list nat) :
  Forall (fun p => p.1 < length sc) schedule ->
  sum_list (foldl (fun sc p => alter (fun v => v + g p.2) p.1 sc) sc schedule) =
  sum_list sc + sum_list (g <$> schedule.*2).
Proof.
  intros Hall. revert sc Hall.
  induction schedule as [|[t i] schedule IH]; intros sc Hall; cbn [foldl].
  - simpl. lia.
  - apply Forall_cons in Hall as [Ht Hall]. simpl in Ht.
    rewrite IH by (by rewrite length_alter).
    rewrite sum_list_alter by done.
    rewrite !fmap_cons, sum_list_cons. cbn [snd]. lia.
Qed.

Lemma accumulate_sum (l : list nat) (a : nat) : foldl Nat.add a l = a + sum_list l.
Proof.
  revert a. induction l as [|v l IH]; intros a; simpl; [lia|]. rewrite IH. lia.
Qed.

Lemma sum_over_samples (h : list FeatureType -> nat) features :
  sum_list ((fun i => h (sample_row features i)) <$> seq 0 (shape0 features)) =
  sum_list (h <$> rows features).
Proof.
  f_equal. apply list_eq. intros i. rewrite !list_lookup_fmap.
  unfold shape0, sample_row.
  destruct (rows features !! i) as [x|] eqn:Hx.
  - rewrite lookup_seq_lt by (by eapply lookup_lt_Some). simpl. by rewrite Hx.
  - rewrite lookup_ge_None_2; [done|]. rewrite length_seq. by apply lookup_ge_None.
Qed.

Lemma valid_schedule_items n_threads n_items schedule :
  valid_schedule n_threads n_items schedule ->
  Forall (fun p => p.2 < n_items) schedule /\ NoDup schedule.*2 /\
  (forall j, j ∈ schedule.*2 <-> j < n_items).
Proof.
  intros [_ Hperm].
  assert (Hin : forall j, j ∈ schedule.*2 <-> j < n_items).
  { intros j. rewrite Hperm, elem_of_seq. lia. }
  split; [|split; [|done]].
  - apply Forall_forall. intros p Hp. apply Hin.
    apply list_elem_of_fmap. by exists p.
  - rewrite Hperm. apply NoDup_seq.
Qed.

Lemma fill_shape (ids : MultiArray2 Z) v :
  shape0 (fill ids v) = shape0 ids /\ shape1 (fill ids v) = shape1 ids.
Proof. unfold shape0, shape1, fill. simpl. by rewrite length_fmap. Qed.

Lemma schedule_rows id_type fuel rf features ids ks n_threads schedule :
  shape0 features = shape0 ids ->
  valid_schedule n_threads (shape0 features) schedule ->
  foldl (fun rs p => alter (leaf_row fuel rf (sample_row features p.2) ks) p.2 rs)
        (rows (fill ids (to_id id_type (-1)))) schedule =
  rows (expected_ids id_type fuel rf features ids ks).
Proof.
  intros H0 Hvalid.
  destruct (valid_schedule_items _ _ _ Hvalid) as (_ & Hnd & Hin).
  apply list_eq. intros j.
  rewrite (schedule_rows_lookup (fun i => leaf_row fuel rf (sample_row features i) ks)) by done.
  unfold expected_ids, fill. cbn [rows]. rewrite lookup_zip_with, list_lookup_fmap.
  unfold shape0 in *.
  case_decide as Hj.
  - apply Hin in Hj.
    destruct (lookup_lt_is_Some_2 (rows features) j Hj) as [x Hx].
    destruct (lookup_lt_is_Some_2 (rows ids) j ltac:(lia)) as [r Hr].
    rewrite Hx, Hr. simpl. by rewrite (sample_row_lookup _ _ _ Hx).
  - rewrite Hin in Hj.
    rewrite (lookup_ge_None_2 (rows ids)) by lia.
    rewrite (lookup_ge_None_2 (rows features)) by lia. done.
Qed.

Lemma schedule_total fuel rf features ks n_threads schedule :
  valid_schedule n_threads (shape0 features) schedule ->
  foldl Nat.add 0
    (foldl (fun sc p => alter (fun v => v + row_cost fuel rf ks (sample_row features p.2)) p.1 sc)
           (replicate n_threads 0) schedule) =
  total_cost fuel rf features ks.
Proof.
  intros [Hthreads Hperm].
  rewrite accumulate_sum.
  rewrite (schedule_counters (fun i => row_cost fuel rf ks (sample_row features i)))
    by (by rewrite length_replicate).
  rewrite sum_list_replicate, Hperm, sum_over_samples. unfold total_cost. lia.
Qed.

Lemma leaf_ids_checks_ok rf features ids tree_indices :
  shape0 features = shape0 ids ->
  shape1 features = num_features_ (problem_spec_ rf) ->
  shape1 ids = num_trees rf ->
  Forall (fun k => k < num_trees rf) tree_indices ->
  leaf_ids_checks rf features ids tree_indices = Ok (resolved_trees rf tree_indices).
Proof.
  intros H0 H1 H2 Hks. unfold leaf_ids_checks.
  rewrite checked_tree_indices_eq, forallb_std_set by done.
  unfold num_trees in H2. by rewrite <- H0, H1, H2, !Nat.eqb_refl.
Qed.

(** What a valid call of [leaf_ids] returns once every requested walk
    ends within the fuel: the same array and the same quotient for
    every number of workers and every schedule. *)
Lemma leaf_ids_run id_type fuel rf features ids n_threads tree_indices schedule :
  shape0 features = shape0 ids ->
  shape1 features = num_features_ (problem_spec_ rf) ->
  shape1 ids = num_trees rf ->
  Forall (fun k => k < num_trees rf) tree_indices ->
  valid_schedule (Z.to_nat (resolve_threads hardware_concurrency n_threads))
                 (shape0 features) schedule ->
  walks_ok fuel rf features (resolved_trees rf tree_indices) ->
  leaf_ids hardware_concurrency id_type fuel rf features ids n_threads tree_indices schedule =
  (expected_ids id_type fuel rf features ids (resolved_trees rf tree_indices),
   Ok (Quot (total_cost fuel rf features (resolved_trees rf tree_indices))
            (shape0 features))).
Proof.
  intros H0 H1 H2 Hks Hvalid Hw. unfold leaf_ids.
  rewrite leaf_ids_checks_ok by done.
  destruct (fill_shape ids (to_id id_type (-1))) as [Hf0 Hf1].
  destruct (valid_schedule_items _ _ _ Hvalid) as (Hitems & _ & _).
  rewrite schedule_run; [|congruence|done|congruence|done|done].
  rewrite (schedule_rows _ _ _ _ _ _ _ _ H0 Hvalid).
  rewrite (schedule_total _ _ _ _ _ _ Hvalid).
  done.
Qed.

Lemma leaf_row_length fuel rf x ks (r : list Z) :
  length (leaf_row fuel rf x ks r) = length r.
Proof.
  revert r. induction ks as [|k ks IH]; intros r; [done|].
  by rewrite leaf_row_cons, IH, length_insert.
Qed.

Lemma leaf_row_lookup fuel rf x ks (r : list Z) k :
  k < length r ->
  leaf_row fuel rf x ks r !! k =
  if decide (k ∈ ks) then Some (Z.of_nat (leaf_of fuel rf x k)) else r !! k.
Proof.
  revert r. induction ks as [|k' ks IH]; intros r Hk.
  - rewrite decide_False; [done|]. apply not_elem_of_nil.
  - rewrite leaf_row_cons, IH by (by rewrite length_insert).
    destruct (decide (k ∈ ks)) as [Hin|Hnin].
    + by rewrite decide_True by (by right).
    + destruct (decide (k = k')) as [->|Hne].
      * rewrite decide_True by left. by apply list_lookup_insert_eq.
      * rewrite decide_False by (intros [?|?]%elem_of_cons; done).
        by apply list_lookup_insert_ne.
Qed.

Lemma expected_ids_cell id_type fuel rf features ids ks i k x :
  shape0 features = shape0 ids -> rectangular ids ->
  rows features !! i = Some x -> k < shape1 ids ->
  cell (expected_ids id_type fuel rf features ids ks) i k =
  Ok (if decide (k ∈ ks) then Z.of_nat (leaf_of fuel rf x k) else to_id id_type (-1)).
Proof.
  intros H0 Hrect Hx Hk. unfold cell, bind0, expected_ids, shape0 in *. cbn [rows].
  rewrite lookup_zip_with, Hx.
  destruct (lookup_lt_is_Some_2 (rows ids) i) as [r Hr];
    [rewrite <- H0; by eapply lookup_lt_Some|].
  rewrite Hr. cbn.
  assert (length r = cols ids) as Hlen by (by eapply (Forall_lookup_1 _ _ _ _ Hrect)).
  rewrite leaf_row_lookup by (rewrite length_fmap; unfold shape1 in Hk; lia).
  case_decide; [done|].
  rewrite list_lookup_fmap.
  destruct (lookup_lt_is_Some_2 r k) as [v ->]; [unfold shape1 in Hk; lia|done].
Qed.




(** *** The checks at the head of [leaf_ids] *)

Lemma eqb_true (a b : nat) : (a =? b) = true -> a = b.
Proof. apply Nat.eqb_eq. Qed.

Lemma checked_tree_indices_inv rf tree_indices message actual :
  checked_tree_indices rf tree_indices message = Ok actual ->
  Forall (fun k => k < num_trees rf) tree_indices /\
  actual = resolved_trees rf tree_indices.
Proof.
  rewrite checked_tree_indices_eq.
  destruct (forallb _ _) eqn:Hall; [|done]. intros [= <-].
  split; [by apply forallb_std_set_inv|done].
Qed.

Lemma checked_tree_indices_throw rf tree_indices message e :
  checked_tree_indices rf tree_indices message = Throw e ->
  e = PreconditionViolation message /\
  ~ Forall (fun k => k < num_trees rf) tree_indices.
Proof.
  rewrite checked_tree_indices_eq.
  destruct (forallb _ _) eqn:Hall; [done|]. intros [= <-].
  split; [done|]. intros Hks. by rewrite forallb_std_set in Hall.
Qed.

Lemma leaf_ids_checks_inv rf features ids tree_indices actual :
  leaf_ids_checks rf features ids tree_indices = Ok actual ->
  shape0 features = shape0 ids /\
  shape1 features = num_features_ (problem_spec_ rf) /\
  shape1 ids = num_trees rf /\
  Forall (fun k => k < num_trees rf) tree_indices /\
  actual = resolved_trees rf tree_indices.
Proof.
  unfold leaf_ids_checks. intros Hchk.
  apply checks_inv in Hchk as [H0%eqb_true Hchk].
  apply checks_inv in Hchk as [H1%eqb_true Hchk].
  apply checks_inv in Hchk as [H2%eqb_true Hchk].
  by apply checked_tree_indices_inv in Hchk as [Hks ->].
Qed.

Lemma leaf_ids_checks_throw rf features ids tree_indices e :
  leaf_ids_checks rf features ids tree_indices = Throw e ->
  exists message, e = PreconditionViolation message /\ message ∈ leaf_ids_messages.
Proof.
  unfold leaf_ids_checks. intros Hchk.
  apply checks_throw in Hchk as [[_ ->]|[_ Hchk]]; [eexists; split; [done|unfold leaf_ids_messages; rewrite !elem_of_cons; auto 10]|].
  apply checks_throw in Hchk as [[_ ->]|[_ Hchk]]; [eexists; split; [done|unfold leaf_ids_messages; rewrite !elem_of_cons; auto 10]|].
  apply checks_throw in Hchk as [[_ ->]|[_ Hchk]]; [eexists; split; [done|unfold leaf_ids_messages; rewrite !elem_of_cons; auto 10]|].
  apply checked_tree_indices_throw in Hchk as [-> _].
  eexists; split; [done|unfold leaf_ids_messages; rewrite !elem_of_cons; auto 10].
Qed.

(** C8.  Determinism under parallelism.  On a forest in which the
    requested walks end within the fuel, two runs of [leaf_ids] on the
    same forest, features, id array and tree indices that differ in
    the worker count, and in the schedule the executor chooses for it,
    return the same array and the same value. *)
Theorem leaf_ids_worker_count_irrelevant id_type fuel rf features ids tree_indices
    n_threads1 schedule1 n_threads2 schedule2 :
  valid_schedule (Z.to_nat (resolve_threads hardware_concurrency n_threads1))
                 (shape0 features) schedule1 ->
  valid_schedule (Z.to_nat (resolve_threads hardware_concurrency n_threads2))
                 (shape0 features) schedule2 ->
  walks_ok fuel rf features (resolved_trees rf tree_indices) ->
  leaf_ids hardware_concurrency id_type fuel rf features ids n_threads1 tree_indices schedule1 =
  leaf_ids hardware_concurrency id_type fuel rf features ids n_threads2 tree_indices schedule2.
Proof.
  intros Hv1 Hv2 Hw.
  destruct (leaf_ids_checks rf features ids tree_indices) as [actual|e] eqn:Hchk.
  - apply leaf_ids_checks_inv in Hchk as (H0 & H1 & H2 & Hks & _).
    by rewrite !leaf_ids_run.
  - unfold leaf_ids. by rewrite Hchk.
Qed.

(** C10.  A call of [leaf_ids] without samples (no feature rows, an
    id array with no rows and one column per tree, tree indices in
    range) passes every check, leaves the id array as it is, and
    returns the quotient of the zero comparison total by the zero
    sample count: the division has no guard. *)
Theorem leaf_ids_no_samples id_type fuel rf features ids n_threads tree_indices schedule :
  shape0 features = 0 ->
  shape0 ids = 0 ->
  shape1 features = num_features_ (problem_spec_ rf) ->
  shape1 ids = num_trees rf ->
  Forall (fun k => k < num_trees rf) tree_indices ->
  valid_schedule (Z.to_nat (resolve_threads hardware_concurrency n_threads)) 0 schedule ->
  leaf_ids hardware_concurrency id_type fuel rf features ids n_threads tree_indices schedule =
  (ids, Ok (Quot 0 0)).
Proof.
  intros Hf Hi H1 H2 Hks Hvalid.
  assert (Hrows : rows features = []) by (by apply length_zero_iff_nil).
  assert (Hirows : rows ids = []) by (by apply length_zero_iff_nil).
  rewrite leaf_ids_run; [|congruence|done|done|done|by rewrite Hf|].
  - unfold expected_ids, total_cost. rewrite Hrows, Hf. simpl.
    destruct ids as [rs c]. simpl in *. by subst.
  - unfold walks_ok. rewrite Hrows. constructor.
Qed.

(** *** Rows rewritten one by one *)

Lemma rows_fold_lookup {A : Type} (f : nat -> A -> A) (items : list nat) (rs : list A) j :
  NoDup items ->
  foldl (fun rs i => alter (f i) i rs) rs items !! j =
  if decide (j ∈ items) then f j <$> rs !! j else rs !! j.
Proof.
  revert rs. induction items as [|i items IH]; intros rs Hnd; cbn [foldl].
  - case_decide as Hj; [by apply elem_of_nil in Hj|done].
  - apply NoDup_cons in Hnd as [Hi Hnd]. rewrite IH by done.
    destruct (decide (j = i)) as [->|Hne].
    + rewrite decide_False by done. rewrite decide_True by left.
      apply list_lookup_alter_eq.
    + rewrite list_lookup_alter_ne by done.
      case_decide as Hj.
      * rewrite decide_True by (by right). done.
      * rewrite decide_False; [done|]. intros [?|?]%elem_of_cons; done.
Qed.

Lemma rows_fold_seq {A B : Type} (f : nat -> A -> A) (g : B -> A -> A)
    (xs : list B) (rs : list A) :
  length xs = length rs ->
  (forall i b, xs !! i = Some b -> f i = g b) ->
  foldl (fun rs i => alter (f i) i rs) rs (seq 0 (length xs)) = zip_with g xs rs.
Proof.
  intros Hlen Hfg. apply list_eq. intros j.
  rewrite rows_fold_lookup by apply NoDup_seq.
  rewrite lookup_zip_with.
  case_decide as Hj.
  - apply elem_of_seq in Hj.
    destruct (lookup_lt_is_Some_2 xs j) as [b Hx]; [lia|].
    destruct (lookup_lt_is_Some_2 rs j) as [r Hr]; [lia|].
    rewrite Hx, Hr. simpl. by rewrite (Hfg _ _ Hx).
  - rewrite elem_of_seq in Hj.
    rewrite (lookup_ge_None_2 rs) by lia.
    rewrite (lookup_ge_None_2 xs) by lia. done.
Qed.

Lemma for_each_rows {A : Type} (body : nat -> MultiArray2 A -> MultiArray2 A * result unit)
    (f : nat -> list A -> list A) (items : list nat) (m : MultiArray2 A) :
  (forall i m', i ∈ items -> shape0 m' = shape0 m ->
                body i m' = (mkArray (alter (f i) i (rows m')) (cols m'), Ok tt)) ->
  for_each body items m =
  (mkArray (foldl (fun rs i => alter (f i) i rs) (rows m) items) (cols m), Ok tt).
Proof.
  revert m. induction items as [|i items IH]; intros m Hbody; cbn [for_each foldl].
  - by destruct m.
  - rewrite Hbody by (done || left). rewrite IH; [done|].
    intros j m' Hj Hm'. apply Hbody; [by right|].
    rewrite Hm'. unfold shape0. cbn [rows]. by rewrite length_alter.
Qed.

Lemma for_each_cells {A : Type} (body : nat -> list A -> list A * result unit)
    (f : nat -> A -> A) (items : list nat) (l : list A) :
  (forall i l', i ∈ items -> length l' = length l ->
                body i l' = (alter (f i) i l', Ok tt)) ->
  for_each body items l = (foldl (fun l i => alter (f i) i l) l items, Ok tt).
Proof.
  revert l. induction items as [|i items IH]; intros l Hbody; cbn [for_each foldl]; [done|].
  rewrite Hbody by (done || left). rewrite IH; [done|].
  intros j l' Hj Hl'. apply Hbody; [by right|]. by rewrite Hl', length_alter.
Qed.

(** *** The responses of one sample *)

Lemma new_array_shape {A : Type} n m (init : A) :
  shape0 (new_array n m init) = n /\ shape1 (new_array n m init) = m /\
  rectangular (new_array n m init).
Proof.
  unfold shape0, shape1, rectangular, new_array. cbn [rows cols].
  rewrite length_replicate. repeat split.
  apply Forall_forall. intros r Hr. apply elem_of_replicate in Hr as [-> _].
  by rewrite length_replicate.
Qed.

Lemma response_at_ok rf ids i k leaf r :
  cell ids i k = Ok (Z.of_nat leaf) -> node_responses_ rf !! leaf = Some r ->
  response_at rf ids i k = Ok r.
Proof.
  intros Hc Hr. unfold response_at. rewrite Hc. cbn [mbind result_bind].
  replace (Z.of_nat leaf <? 0)%Z with false by (symmetry; apply Z.ltb_ge; lia).
  unfold at_. by rewrite Nat2Z.id, Hr.
Qed.

Lemma gather_ok fuel rf ids i x ks (tree_results : list AccInputType) :
  Forall (fun k => cell ids i k = Ok (Z.of_nat (leaf_of fuel rf x k)) /\
                   is_Some (node_responses_ rf !! leaf_of fuel rf x k)) ks ->
  gather rf ids i ks tree_results = Ok (tree_results ++ responses_of fuel rf x ks).
Proof.
  intros Hall. revert tree_results.
  induction Hall as [|k ks [Hc [r Hr]] _ IH]; intros tree_results; cbn [gather].
  - unfold responses_of. simpl. by rewrite app_nil_r.
  - rewrite (response_at_ok _ _ _ _ _ _ Hc Hr). cbn [mbind result_bind].
    rewrite IH. unfold responses_of. cbn [omap list_omap]. rewrite Hr.
    by rewrite <- app_assoc.
Qed.

Lemma predict_proba_sample_ok fuel rf ids ks i x (probs : MultiArray2 Prob) :
  Forall (fun k => cell ids i k = Ok (Z.of_nat (leaf_of fuel rf x k)) /\
                   is_Some (node_responses_ rf !! leaf_of fuel rf x k)) ks ->
  i < shape0 probs ->
  predict_proba_sample acc rf ids ks i probs =
  (mkArray (alter (acc (responses_of fuel rf x ks)) i (rows probs)) (cols probs), Ok tt).
Proof.
  intros Hall Hi. unfold predict_proba_sample.
  rewrite (gather_ok fuel rf ids i x) by done. cbn [app].
  destruct (lookup_lt_is_Some_2 (rows probs) i Hi) as [old Hold].
  unfold bind0. rewrite Hold. cbn [of_option]. unfold set_row. do 2 f_equal.
  rewrite list_insert_alter. apply list_alter_ext; [|done].
  intros old' Hold'. congruence.
Qed.

(** *** predict_proba *)

Lemma predict_proba_checks_ok rf features (probs : MultiArray2 Prob) tree_indices :
  shape0 features = shape0 probs ->
  shape1 features = num_features_ (problem_spec_ rf) ->
  shape1 probs = num_classes_ (problem_spec_ rf) ->
  Forall (fun k => k < num_trees rf) tree_indices ->
  predict_proba_checks rf features probs tree_indices = Ok (resolved_trees rf tree_indices).
Proof.
  intros H0 H1 H2 Hks. unfold predict_proba_checks.
  rewrite checked_tree_indices_eq, forallb_std_set by done.
  by rewrite <- H0, H1, H2, !Nat.eqb_refl.
Qed.

Lemma predict_proba_checks_inv rf features (probs : MultiArray2 Prob) tree_indices actual :
  predict_proba_checks rf features probs tree_indices = Ok actual ->
  shape0 features = shape0 probs /\
  shape1 features = num_features_ (problem_spec_ rf) /\
  shape1 probs = num_classes_ (problem_spec_ rf) /\
  Forall (fun k => k < num_trees rf) tree_indices /\
  actual = resolved_trees rf tree_indices.
Proof.
  unfold predict_proba_checks. intros Hchk.
  apply checks_inv in Hchk as [H0%eqb_true Hchk].
  apply checks_inv in Hchk as [H1%eqb_true Hchk].
  apply checks_inv in Hchk as [H2%eqb_true Hchk].
  by apply checked_tree_indices_inv in Hchk as [Hks ->].
Qed.

Lemma predict_proba_checks_throw rf features (probs : MultiArray2 Prob) tree_indices e :
  predict_proba_checks rf features probs tree_indices = Throw e ->
  exists message, e = PreconditionViolation message /\ message ∈ predict_proba_messages.
Proof.
  unfold predict_proba_checks. intros Hchk.
  apply checks_throw in Hchk as [[_ ->]|[_ Hchk]]; [eexists; split; [done|unfold predict_proba_messages; rewrite !elem_of_cons; auto 10]|].
  apply checks_throw in Hchk as [[_ ->]|[_ Hchk]]; [eexists; split; [done|unfold predict_proba_messages; rewrite !elem_of_cons; auto 10]|].
  apply checks_throw in Hchk as [[_ ->]|[_ Hchk]]; [eexists; split; [done|unfold predict_proba_messages; rewrite !elem_of_cons; auto 10]|].
  apply checked_tree_indices_throw in Hchk as [-> _].
  eexists; split; [done|unfold predict_proba_messages; rewrite !elem_of_cons; auto 10].
Qed.

(** The leaf ids [predict_proba] works with. *)
Lemma predict_proba_leaf_ids id_type fuel rf features n_threads tree_indices schedule :
  shape1 features = num_features_ (problem_spec_ rf) ->
  Forall (fun k => k < num_trees rf) tree_indices ->
  valid_schedule (Z.to_nat (resolve_threads hardware_concurrency n_threads))
                 (shape0 features) schedule ->
  walks_ok fuel rf features (resolved_trees rf tree_indices) ->
  leaf_ids hardware_concurrency id_type fuel rf features
    (new_array (shape0 features) (BinaryForest.numRoots (graph_ rf)) 0%Z)
    n_threads (resolved_trees rf tree_indices) schedule =
  (expected_ids id_type fuel rf features
     (new_array (shape0 features) (num_trees rf) 0%Z) (resolved_trees rf tree_indices),
   Ok (Quot (total_cost fuel rf features (resolved_trees rf tree_indices))
            (shape0 features))).
Proof.
  intros H1 Hks Hvalid Hw.
  destruct (new_array_shape (shape0 features) (num_trees rf) 0%Z) as (Hn0 & Hn1 & _).
  rewrite leaf_ids_run; rewrite ?resolved_trees_idem; try done.
  by apply resolved_trees_in_range.
Qed.

Lemma predict_proba_run fuel rf features (probs : MultiArray2 Prob)
    n_threads tree_indices schedule :
  shape0 features = shape0 probs ->
  shape1 features = num_features_ (problem_spec_ rf) ->
  shape1 probs = num_classes_ (problem_spec_ rf) ->
  Forall (fun k => k < num_trees rf) tree_indices ->
  valid_schedule (Z.to_nat (resolve_threads hardware_concurrency n_threads))
                 (shape0 features) schedule ->
  walks_ok fuel rf features (resolved_trees rf tree_indices) ->
  responses_ok fuel rf features (resolved_trees rf tree_indices) ->
  predict_proba acc hardware_concurrency fuel rf features probs n_threads
                tree_indices schedule =
  (expected_probs acc fuel rf features probs (resolved_trees rf tree_indices),
   Ok (Quot (total_cost fuel rf features (resolved_trees rf tree_indices))
            (shape0 features))).
Proof.
  intros H0 H1 H2 Hks Hvalid Hw Hr. unfold predict_proba.
  rewrite predict_proba_checks_ok by done.
  rewrite predict_proba_leaf_ids by done.
  set (ks := resolved_trees rf tree_indices) in *.
  destruct (new_array_shape (shape0 features) (num_trees rf) 0%Z) as (Hn0 & Hn1 & Hrect).
  rewrite (for_each_rows _ (fun i => acc (responses_of fuel rf (sample_row features i) ks))).
  - unfold expected_probs. do 2 f_equal.
    apply (rows_fold_seq _ (fun x => acc (responses_of fuel rf x ks))); [done|].
    intros i b Hb. by rewrite (sample_row_lookup _ _ _ Hb).
  - intros i m' Hi Hm'. apply elem_of_seq in Hi.
    destruct (lookup_lt_is_Some_2 (rows features) i) as [x Hx]; [unfold shape0 in Hi; lia|].
    rewrite (sample_row_lookup _ _ _ Hx).
    apply predict_proba_sample_ok; [|lia].
    apply Forall_forall. intros k Hk. split.
    + rewrite (expected_ids_cell _ _ _ _ _ _ _ _ x); try done.
      * by rewrite decide_True.
      * rewrite Hn1. pose proof (resolved_trees_in_range rf tree_indices Hks) as Hin.
        rewrite Forall_forall in Hin. by apply Hin.
    + pose proof (Forall_lookup_1 _ _ _ _ Hr Hx) as Hrx.
      rewrite Forall_forall in Hrx. by apply Hrx.
Qed.

Lemma responses_of_Forall2 fuel rf x ks :
  Forall (fun k => is_Some (node_responses_ rf !! leaf_of fuel rf x k)) ks ->
  Forall2 (fun k r => node_responses_ rf !! leaf_of fuel rf x k = Some r)
          ks (responses_of fuel rf x ks).
Proof.
  induction 1 as [|k ks [r Hr] _ IH]; unfold responses_of; cbn [omap list_omap].
  - constructor.
  - rewrite Hr. by constructor.
Qed.

Lemma responses_of_cells fuel rf ids i x ks :
  Forall (fun k => cell ids i k = Ok (Z.of_nat (leaf_of fuel rf x k))) ks ->
  Forall (fun k => is_Some (node_responses_ rf !! leaf_of fuel rf x k)) ks ->
  Forall2 (fun k r => exists leaf, cell ids i k = Ok (Z.of_nat leaf) /\
                                   node_responses_ rf !! leaf = Some r)
          ks (responses_of fuel rf x ks).
Proof.
  intros Hcells Hresp. revert Hcells.
  induction Hresp as [|k ks [r Hr] _ IH]; intros Hcells;
    unfold responses_of; cbn [omap list_omap]; [constructor|].
  apply Forall_cons in Hcells as [Hc Hcells]. rewrite Hr.
  constructor; [by exists (leaf_of fuel rf x k)|by apply IH].
Qed.

(** C3.  A valid call of [predict_proba] on a forest in which the
    requested walks end within the fuel and the leaves reached have
    responses: the leaf ids are computed by [leaf_ids], on the
    [size_t] array that [predict_proba] allocates, for the very set
    [ks] of tree indices that the responses are then gathered for; [ks] is strictly ascending and holds the given indices, or
    all trees when none is given; and row i of the probabilities
    becomes the result of one application of the accumulator to the
    list that holds, for the trees of [ks] in that order, the response
    of the node whose id [leaf_ids] stored at (i, k). *)
Theorem predict_proba_gathers fuel rf features (probs : MultiArray2 Prob)
    n_threads tree_indices schedule :
  shape0 features = shape0 probs ->
  shape1 features = num_features_ (problem_spec_ rf) ->
  shape1 probs = num_classes_ (problem_spec_ rf) ->
  Forall (fun k => k < num_trees rf) tree_indices ->
  valid_schedule (Z.to_nat (resolve_threads hardware_concurrency n_threads))
                 (shape0 features) schedule ->
  walks_ok fuel rf features (resolved_trees rf tree_indices) ->
  responses_ok fuel rf features (resolved_trees rf tree_indices) ->
  exists ks ids' average probs',
    leaf_ids hardware_concurrency size_t fuel rf features
      (new_array (shape0 features) (num_trees rf) 0%Z) n_threads ks schedule
      = (ids', Ok average) /\
    predict_proba acc hardware_concurrency fuel rf features probs n_threads
      tree_indices schedule = (probs', Ok average) /\
    StronglySorted lt ks /\
    (forall k, k ∈ ks <-> k ∈ tree_indices \/ (tree_indices = [] /\ k < num_trees rf)) /\
    shape0 probs' = shape0 probs /\
    (forall i x old,
       rows features !! i = Some x -> rows probs !! i = Some old ->
       exists tree_results,
         Forall2 (fun k r => exists leaf, cell ids' i k = Ok (Z.of_nat leaf) /\
                                          node_responses_ rf !! leaf = Some r)
                 ks tree_results /\
         rows probs' !! i = Some (acc tree_results old)).
Proof.
  intros H0 H1 H2 Hks Hvalid Hw Hr.
  set (ks := resolved_trees rf tree_indices) in *.
  destruct (new_array_shape (shape0 features) (num_trees rf) 0%Z) as (Hn0 & Hn1 & Hrect).
  exists ks, (expected_ids size_t fuel rf features (new_array (shape0 features) (num_trees rf) 0%Z) ks),
    (Quot (total_cost fuel rf features ks) (shape0 features)),
    (expected_probs acc fuel rf features probs ks).
  split; [by apply predict_proba_leaf_ids|].
  split; [by apply predict_proba_run|].
  split; [apply resolved_trees_sorted|].
  split; [apply elem_of_resolved_trees|].
  split.
  { unfold expected_probs, shape0 in *. cbn [rows]. rewrite length_zip_with. lia. }
  intros i x old Hx Hold. exists (responses_of fuel rf x ks). split.
  - apply responses_of_cells; [|exact (Forall_lookup_1 _ _ _ _ Hr Hx)].
    apply Forall_forall. intros k Hk.
    rewrite (expected_ids_cell _ _ _ _ _ _ _ _ x); try done.
    + by rewrite decide_True.
    + rewrite Hn1. pose proof (resolved_trees_in_range rf tree_indices Hks) as Hin.
      rewrite Forall_forall in Hin. by apply Hin.
  - unfold expected_probs. cbn [rows]. by rewrite lookup_zip_with, Hx, Hold.
Qed.

(** *** The first maximum *)

Lemma max_element_from_spec (pre rest : list Prob) li l :
  strict_weak_order prob_lt ->
  pre !! li = Some l ->
  (forall j' y, pre !! j' = Some y -> prob_lt l y = false) ->
  (forall j' y, j' < li -> pre !! j' = Some y -> prob_lt y l = true) ->
  first_max prob_lt (pre ++ rest) (max_element_from prob_lt li l (length pre) rest).
Proof.
  intros (Hirr & Htrans & Hneg). revert pre li l.
  induction rest as [|y rest IH]; intros pre li l Hl Hmax Hfirst; cbn [max_element_from].
  - rewrite app_nil_r. by exists l.
  - replace (pre ++ y :: rest) with ((pre ++ [y]) ++ rest) by (by rewrite <- app_assoc).
    replace (S (length pre)) with (length (pre ++ [y])) by (rewrite length_app; simpl; lia).
    destruct (prob_lt l y) eqn:Hly.
    + apply IH.
      * rewrite lookup_app_r by lia. by rewrite Nat.sub_diag.
      * intros j' y' Hy'. apply lookup_app_Some in Hy' as [Hy'|[_ Hy']].
        -- destruct (prob_lt y y') eqn:Hyy'; [|done].
           rewrite <- (Hmax _ _ Hy'). symmetry. by eapply Htrans.
        -- apply list_lookup_singleton_Some in Hy' as [_ <-]. apply Hirr.
      * intros j' y' Hj' Hy'. rewrite lookup_app_l in Hy' by done.
        destruct (prob_lt y' y) eqn:Hy'y; [done|].
        rewrite <- Hly. symmetry. eapply Hneg; [|exact Hy'y]. by eapply Hmax.
    + apply IH.
      * rewrite lookup_app_l; [done|]. by eapply lookup_lt_Some.
      * intros j' y' Hy'. apply lookup_app_Some in Hy' as [Hy'|[_ Hy']].
        -- by eapply Hmax.
        -- by apply list_lookup_singleton_Some in Hy' as [_ <-].
      * intros j' y' Hj' Hy'.
        assert (li < length pre) by (by eapply lookup_lt_Some).
        rewrite lookup_app_l in Hy' by lia. by eapply Hfirst.
Qed.

Lemma max_element_first_max (row : list Prob) :
  strict_weak_order prob_lt -> row <> [] ->
  first_max prob_lt row (max_element prob_lt row).
Proof.
  intros Hswo Hrow. destruct row as [|y row]; [done|]. cbn [max_element].
  apply (max_element_from_spec [y] row 0 y); [done|done| |].
  - intros [|j'] y' Hy'; [|done]. injection Hy' as <-. by destruct Hswo as [Hirr _].
  - intros j' y' Hj'. lia.
Qed.

Lemma max_element_from_bound li l fi (rest : list Prob) :
  li < fi -> max_element_from prob_lt li l fi rest < fi + length rest.
Proof.
  revert li l fi. induction rest as [|y rest IH]; intros li l fi Hli; cbn [max_element_from].
  - simpl. lia.
  - destruct (prob_lt l y).
    + specialize (IH fi y (S fi) ltac:(lia)). simpl. lia.
    + specialize (IH li l (S fi) ltac:(lia)). simpl. lia.
Qed.

Lemma max_element_bound (row : list Prob) :
  row <> [] -> max_element prob_lt row < length row.
Proof.
  destruct row as [|y row]; [done|]. intros _. cbn [max_element].
  pose proof (max_element_from_bound 0 y 1 row ltac:(lia)). simpl. lia.
Qed.

(** *** predict *)

Lemma predict_checks_ok rf features (labels : list LabelType) :
  shape0 features = length labels ->
  shape1 features = num_features_ (problem_spec_ rf) ->
  predict_checks rf features labels = Ok tt.
Proof.
  intros H0 H1. unfold predict_checks. by rewrite <- H0, H1, !Nat.eqb_refl.
Qed.

Lemma predict_checks_inv rf features (labels : list LabelType) u :
  predict_checks rf features labels = Ok u ->
  shape0 features = length labels /\
  shape1 features = num_features_ (problem_spec_ rf).
Proof.
  unfold predict_checks. intros Hchk.
  apply checks_inv in Hchk as [H0%eqb_true Hchk].
  unfold vigra_precondition in Hchk.
  destruct (shape1 features =? _) eqn:H1; [|done]. by apply eqb_true in H1.
Qed.

Lemma predict_checks_throw rf features (labels : list LabelType) e :
  predict_checks rf features labels = Throw e ->
  exists message, e = PreconditionViolation message /\ message ∈ predict_messages.
Proof.
  unfold predict_checks. intros Hchk.
  apply checks_throw in Hchk as [[_ ->]|[_ Hchk]]; [eexists; split; [done|unfold predict_messages; rewrite !elem_of_cons; auto 10]|].
  unfold vigra_precondition in Hchk.
  destruct (shape1 features =? _); [done|]. injection Hchk as <-.
  eexists; split; [done|unfold predict_messages; rewrite !elem_of_cons; auto 10].
Qed.

Lemma predict_loop rf (probs : MultiArray2 Prob) items (labels : list LabelType) :
  (forall i, i ∈ items ->
     i < length labels /\
     exists row c, rows probs !! i = Some row /\
                   distinct_classes_ (problem_spec_ rf) !! max_element prob_lt row = Some c) ->
  exists labels',
    for_each (predict_sample prob_lt rf probs) items labels = (labels', Ok tt) /\
    length labels' = length labels /\
    forall j, labels' !! j =
              if decide (j ∈ items)
              then row ← rows probs !! j;
                   distinct_classes_ (problem_spec_ rf) !! max_element prob_lt row
              else labels !! j.
Proof.
  revert labels. induction items as [|i items IH]; intros labels Hitems; cbn [for_each].
  - exists labels. split; [done|]. split; [done|].
    intros j. rewrite decide_False; [done|apply not_elem_of_nil].
  - destruct (Hitems i ltac:(left)) as (Hi & row & c & Hrow & Hc).
    unfold predict_sample at 1. unfold bind0. rewrite Hrow. cbn [of_option]. rewrite Hc.
    destruct (IH (<[i := c]> labels)) as (labels' & Hrun & Hlen & Hlook).
    { intros j Hj. rewrite length_insert. apply Hitems. by right. }
    exists labels'. rewrite length_insert in Hlen. split; [done|]. split; [done|].
    intros j. rewrite Hlook.
    destruct (decide (j ∈ items)) as [Hj|Hj].
    + by rewrite decide_True by (by right).
    + destruct (decide (j = i)) as [->|Hne].
      * rewrite decide_True by left. rewrite list_lookup_insert_eq by done.
        rewrite Hrow. simpl. by rewrite Hc.
      * rewrite decide_False by (intros [?|?]%elem_of_cons; done).
        by rewrite list_lookup_insert_ne.
Qed.

Lemma first_max_unique (row : list Prob) j1 j2 :
  first_max prob_lt row j1 -> first_max prob_lt row j2 -> j1 = j2.
Proof.
  intros (m1 & Hm1 & Hmax1 & Hfirst1) (m2 & Hm2 & Hmax2 & Hfirst2).
  destruct (Nat.lt_trichotomy j1 j2) as [Hlt|[->|Hlt]]; [|done|].
  - specialize (Hfirst2 _ _ Hlt Hm1). specialize (Hmax1 _ _ Hm2). congruence.
  - specialize (Hfirst1 _ _ Hlt Hm2). specialize (Hmax2 _ _ Hm1). congruence.
Qed.

Lemma expected_probs_row_length fuel rf features n m ks i row :
  (forall rs old, length (acc rs old) = length old) ->
  rows (expected_probs acc fuel rf features (new_array n m prob_zero) ks) !! i = Some row ->
  length row = m.
Proof.
  intros Hacc. unfold expected_probs, new_array. cbn [rows].
  rewrite lookup_zip_with.
  destruct (rows features !! i) as [x|]; [|done]. cbn.
  destruct (replicate n (replicate m prob_zero) !! i) as [old|] eqn:Hold; [|done].
  apply lookup_replicate in Hold as [-> _]. cbn. intros [= <-].
  by rewrite Hacc, length_replicate.
Qed.

Lemma predict_run fuel rf features (labels : list LabelType) n_threads tree_indices schedule :
  (forall rs old, length (acc rs old) = length old) ->
  0 < num_classes_ (problem_spec_ rf) ->
  num_classes_ (problem_spec_ rf) <= length (distinct_classes_ (problem_spec_ rf)) ->
  shape0 features = length labels ->
  shape1 features = num_features_ (problem_spec_ rf) ->
  Forall (fun k => k < num_trees rf) tree_indices ->
  valid_schedule (Z.to_nat (resolve_threads hardware_concurrency n_threads))
                 (shape0 features) schedule ->
  walks_ok fuel rf features (resolved_trees rf tree_indices) ->
  responses_ok fuel rf features (resolved_trees rf tree_indices) ->
  exists labels',
    predict prob_lt prob_zero acc hardware_concurrency fuel rf features labels
            n_threads tree_indices schedule =
      (labels', Ok (Quot (total_cost fuel rf features (resolved_trees rf tree_indices))
                         (shape0 features))) /\
    length labels' = length labels /\
    forall i row,
      rows (expected_probs acc fuel rf features
              (new_array (shape0 features) (num_classes_ (problem_spec_ rf)) prob_zero)
              (resolved_trees rf tree_indices)) !! i = Some row ->
      row <> [] /\
      exists c, distinct_classes_ (problem_spec_ rf) !! max_element prob_lt row = Some c /\
                labels' !! i = Some c.
Proof.
  intros Hacc Hnc Hdc H0 H1 Hks Hvalid Hw Hr.
  set (nc := num_classes_ (problem_spec_ rf)) in *.
  set (ks := resolved_trees rf tree_indices) in *.
  destruct (new_array_shape (shape0 features) nc prob_zero) as (Hn0 & Hn1 & _).
  set (probs' := expected_probs acc fuel rf features (new_array (shape0 features) nc prob_zero) ks).
  assert (Hrows : forall i row, rows probs' !! i = Some row ->
            row <> [] /\ exists c,
              distinct_classes_ (problem_spec_ rf) !! max_element prob_lt row = Some c).
  { intros i row Hrow. apply expected_probs_row_length in Hrow; [|done].
    assert (row <> []) as Hne by (intros ->; simpl in Hrow; lia).
    split; [done|]. apply lookup_lt_is_Some_2.
    pose proof (max_element_bound row Hne) as Hlt.
    eapply Nat.lt_le_trans; [exact Hlt|]. by rewrite Hrow. }
  assert (Hlen' : shape0 probs' = shape0 features).
  { unfold probs', expected_probs, shape0 in *. cbn [rows]. rewrite length_zip_with. lia. }
  destruct (predict_loop rf probs' (seq 0 (shape0 features)) labels) as (labels' & Hrun & Hlen & Hlook).
  { intros i Hi. apply elem_of_seq in Hi. split; [lia|].
    destruct (lookup_lt_is_Some_2 (rows probs') i) as [row Hrow];
      [unfold shape0 in *; lia|].
    destruct (Hrows _ _ Hrow) as [_ [c Hc]]. by exists row, c. }
  exists labels'. split; [|split; [done|]].
  - unfold predict. rewrite predict_checks_ok by done.
    rewrite predict_proba_run by (done || lia).
    fold ks. fold nc. fold probs'. by rewrite Hrun.
  - intros i row Hrow. destruct (Hrows _ _ Hrow) as [Hne [c Hc]].
    split; [done|]. exists c. split; [done|].
    rewrite Hlook. rewrite decide_True.
    + rewrite Hrow. simpl. done.
    + apply elem_of_seq. apply lookup_lt_Some in Hrow. unfold shape0 in *. lia.
Qed.

(** C4.  A valid call of [predict] (accumulator rows of the class
    count, a positive class count covered by the distinct labels, a
    forest that serves the requested walks and responses, [<] a
    strict weak order on the probabilities): the label written for
    sample i is the entry of the distinct-label list of the problem
    specification at the position of the first maximum of row i of
    the probabilities that [predict_proba] computes from a
    zero-initialised array. *)
Theorem predict_takes_first_maximum fuel rf features (labels : list LabelType)
    n_threads tree_indices schedule :
  strict_weak_order prob_lt ->
  (forall rs old, length (acc rs old) = length old) ->
  0 < num_classes_ (problem_spec_ rf) ->
  num_classes_ (problem_spec_ rf) <= length (distinct_classes_ (problem_spec_ rf)) ->
  shape0 features = length labels ->
  shape1 features = num_features_ (problem_spec_ rf) ->
  Forall (fun k => k < num_trees rf) tree_indices ->
  valid_schedule (Z.to_nat (resolve_threads hardware_concurrency n_threads))
                 (shape0 features) schedule ->
  walks_ok fuel rf features (resolved_trees rf tree_indices) ->
  responses_ok fuel rf features (resolved_trees rf tree_indices) ->
  exists probs' average labels',
    predict_proba acc hardware_concurrency fuel rf features
      (new_array (shape0 features) (num_classes_ (problem_spec_ rf)) prob_zero)
      n_threads tree_indices schedule = (probs', Ok average) /\
    predict prob_lt prob_zero acc hardware_concurrency fuel rf features labels
      n_threads tree_indices schedule = (labels', Ok average) /\
    length labels' = length labels /\
    shape0 probs' = shape0 features /\
    forall i row,
      rows probs' !! i = Some row ->
      exists j c,
        first_max prob_lt row j /\
        (forall j', first_max prob_lt row j' -> j' = j) /\
        distinct_classes_ (problem_spec_ rf) !! j = Some c /\
        labels' !! i = Some c.
Proof.
  intros Hswo Hacc Hnc Hdc H0 H1 Hks Hvalid Hw Hr.
  destruct (predict_run fuel rf features labels n_threads tree_indices schedule)
    as (labels' & Hrun & Hlen & Hlabels); try done.
  destruct (new_array_shape (shape0 features) (num_classes_ (problem_spec_ rf)) prob_zero)
    as (Hn0 & Hn1 & _).
  eexists _, _, labels'.
  split; [apply predict_proba_run; done || lia|].
  split; [exact Hrun|]. split; [done|]. split.
  { unfold expected_probs, shape0 in *. cbn [rows]. rewrite length_zip_with. lia. }
  intros i row Hrow. destruct (Hlabels _ _ Hrow) as (Hne & c & Hc & Hl).
  exists (max_element prob_lt row), c.
  pose proof (max_element_first_max row Hswo Hne) as Hfm.
  split; [done|]. split; [|done].
  intros j' Hj'. by eapply first_max_unique.
Qed.

(** C6.  On valid input the three operations return the same
    average-comparison value for the same forest, features, tree
    indices, worker count and schedule. *)
Theorem average_split_counts_agree id_type fuel rf features ids (probs : MultiArray2 Prob)
    (labels : list LabelType) n_threads tree_indices schedule :
  (forall rs old, length (acc rs old) = length old) ->
  0 < num_classes_ (problem_spec_ rf) ->
  num_classes_ (problem_spec_ rf) <= length (distinct_classes_ (problem_spec_ rf)) ->
  shape0 features = shape0 ids ->
  shape1 ids = num_trees rf ->
  shape0 features = shape0 probs ->
  shape1 probs = num_classes_ (problem_spec_ rf) ->
  shape0 features = length labels ->
  shape1 features = num_features_ (problem_spec_ rf) ->
  Forall (fun k => k < num_trees rf) tree_indices ->
  valid_schedule (Z.to_nat (resolve_threads hardware_concurrency n_threads))
                 (shape0 features) schedule ->
  walks_ok fuel rf features (resolved_trees rf tree_indices) ->
  responses_ok fuel rf features (resolved_trees rf tree_indices) ->
  exists average,
    (leaf_ids hardware_concurrency id_type fuel rf features ids n_threads tree_indices schedule).2
      = Ok average /\
    (predict_proba acc hardware_concurrency fuel rf features probs n_threads
                   tree_indices schedule).2 = Ok average /\
    (predict prob_lt prob_zero acc hardware_concurrency fuel rf features labels
             n_threads tree_indices schedule).2 = Ok average.
Proof.
  intros Hacc Hnc Hdc Hi0 Hi1 Hp0 Hp1 Hl0 H1 Hks Hvalid Hw Hr.
  destruct (predict_run fuel rf features labels n_threads tree_indices schedule)
    as (labels' & Hrun & _); try done.
  eexists. rewrite leaf_ids_run, predict_proba_run, Hrun by done. done.
Qed.

(** *** Failures after the checks are not precondition violations *)

Lemma runtime_failure_kinds e :
  e = InvalidAccess \/ e = OutOfRange \/ e = OutOfFuel -> runtime_failure e.
Proof. intros [-> | [-> | ->]] message; discriminate. Qed.

Lemma leaf_ids_impl_item_cases id_type fuel rf features ids i ks ids' r :
  shape0 features = shape0 ids ->
  shape1 features = num_features_ (problem_spec_ rf) ->
  shape1 ids = num_trees rf ->
  i < shape0 features ->
  leaf_ids_impl id_type fuel rf features ids i (i + 1) ks = (ids', r) ->
  (shape0 ids' = shape0 ids /\ shape1 ids' = shape1 ids) /\
  (forall e, r = Throw e -> runtime_failure e).
Proof.
  intros H0 H1 H2 Hi. unfold leaf_ids_impl, num_trees in *.
  rewrite <- H0, H1, H2, !Nat.eqb_refl.
  replace (i + 1 <=? shape0 features) with true by (symmetry; apply Nat.leb_le; lia).
  replace (i <=? i + 1) with true by (symmetry; apply Nat.leb_le; lia).
  replace (i + 1 - i) with 1 by lia.
  cbn [vigra_precondition mbind result_bind andb Nat.leb seq for_each].
  destruct (lookup_lt_is_Some_2 (rows features) i Hi) as [x Hx].
  unfold leaf_ids_impl_sample, bind0. rewrite Hx. cbn [of_option].
  destruct (for_each (leaf_ids_impl_tree id_type fuel rf x i) ks (ids, 0))
    as [[ids1 c1] r1] eqn:Hloop.
  destruct (trees_loop_shape _ _ _ _ _ _ _ _ _ _ _ Hloop) as [Hs0 Hs1].
  destruct r1 as [[]|e1]; intros [= <- <-]; (split; [split; congruence|]); [done|].
  intros e [= <-]. eapply runtime_failure_kinds, trees_loop_throw_kind. exact Hloop.
Qed.

Lemma leaf_ids_violation id_type fuel rf features ids n_threads tree_indices schedule ids' message :
  valid_schedule (Z.to_nat (resolve_threads hardware_concurrency n_threads))
                 (shape0 features) schedule ->
  leaf_ids hardware_concurrency id_type fuel rf features ids n_threads tree_indices schedule =
    (ids', Throw (PreconditionViolation message)) ->
  ids' = ids /\
  leaf_ids_checks rf features ids tree_indices = Throw (PreconditionViolation message).
Proof.
  intros Hvalid. unfold leaf_ids.
  destruct (leaf_ids_checks rf features ids tree_indices) as [actual|e] eqn:Hchk;
    [|by intros [= <- <-]].
  apply leaf_ids_checks_inv in Hchk as (H0 & H1 & H2 & Hks & _).
  destruct (valid_schedule_items _ _ _ Hvalid) as (Hitems & _ & _).
  destruct (fill_shape ids (to_id id_type (-1))) as [Hf0 Hf1].
  destruct (parallel_foreach _ _ _) as [[ids1 sc1] r] eqn:Hrun.
  unfold parallel_foreach in Hrun.
  apply (for_each_invariant
           (fun st => shape0 st.1 = shape0 features /\ shape1 st.1 = num_trees rf)
           runtime_failure) in Hrun as [_ Hfail].
  - destruct r as [[]|e]; [done|]. intros [= <- ->]. by destruct (Hfail _ eq_refl message).
  - intros [t i] [ids2 sc2] [ids3 sc3] r' Hin [Hs0 Hs1]. cbn [fst] in *.
    rewrite Forall_forall in Hitems. specialize (Hitems _ Hin). cbn [snd] in Hitems.
    unfold leaf_ids_item.
    destruct (leaf_ids_impl id_type fuel rf features ids2 i (i + 1) actual) as [ids4 r4] eqn:Himpl.
    apply leaf_ids_impl_item_cases in Himpl as [[Hs0' Hs1'] Hfail]; try done.
    destruct r4 as [c|e]; intros [= <- <- <-]; cbn [fst].
    + split; [split; congruence|done].
    + split; [split; congruence|]. intros e' [= <-]. by apply Hfail.
  - cbn [fst]. split; congruence.
Qed.

Lemma gather_throw_kind rf ids i ks (tree_results : list AccInputType) e :
  gather rf ids i ks tree_results = Throw e -> runtime_failure e.
Proof.
  revert tree_results. induction ks as [|k ks IH]; intros tree_results; cbn [gather]; [done|].
  destruct (response_at rf ids i k) as [r|e'] eqn:Hr; cbn [mbind result_bind]; [apply IH|].
  intros [= <-]. unfold response_at, cell, bind0, at_ in Hr.
  apply runtime_failure_kinds.
  destruct (rows ids !! i) as [row|]; cbn in Hr; [|injection Hr as <-; auto].
  destruct (row !! k) as [id|]; cbn in Hr; [|injection Hr as <-; auto].
  destruct (id <? 0)%Z; [injection Hr as <-; auto|].
  destruct (node_responses_ rf !! Z.to_nat id); [done|]. injection Hr as <-; auto.
Qed.

Lemma predict_proba_loop_throw_kind rf ids ks items (probs probs' : MultiArray2 Prob) e :
  for_each (predict_proba_sample acc rf ids ks) items probs = (probs', Throw e) ->
  runtime_failure e.
Proof.
  intros Hrun.
  apply (for_each_invariant (fun _ => True) runtime_failure) in Hrun as [_ Hfail];
    [by apply Hfail| |done].
  intros i m m' r _ _. unfold predict_proba_sample.
  destruct (gather rf ids i ks []) as [rs|e1] eqn:Hg.
  - unfold bind0. destruct (rows m !! i); cbn [of_option]; intros [= <- <-]; [done|].
    split; [done|]. intros e' [= <-]. apply runtime_failure_kinds. auto.
  - intros [= <- <-]. split; [done|]. intros e' [= <-]. by eapply gather_throw_kind.
Qed.

Lemma predict_proba_violation fuel rf features (probs : MultiArray2 Prob)
    n_threads tree_indices schedule probs' message :
  predict_proba acc hardware_concurrency fuel rf features probs n_threads
                tree_indices schedule = (probs', Throw (PreconditionViolation message)) ->
  probs' = probs.
Proof.
  unfold predict_proba.
  destruct (predict_proba_checks rf features probs tree_indices) as [actual|e];
    [|by intros [= <- _]].
  destruct (leaf_ids _ _ _ _ _ _ _ _) as [ids' [average|e]]; [|by intros [= <- _]].
  destruct (for_each _ _ _) as [probs1 [[]|e]] eqn:Hloop; [done|].
  intros [= <- ->]. apply predict_proba_loop_throw_kind in Hloop.
  by destruct (Hloop message).
Qed.

Lemma predict_loop_throw_kind rf (probs : MultiArray2 Prob) items
    (labels labels' : list LabelType) e :
  for_each (predict_sample prob_lt rf probs) items labels = (labels', Throw e) ->
  runtime_failure e.
Proof.
  intros Hrun.
  apply (for_each_invariant (fun _ => True) runtime_failure) in Hrun as [_ Hfail];
    [by apply Hfail| |done].
  intros i l l' r _ _. unfold predict_sample, bind0.
  destruct (rows probs !! i) as [row|]; cbn [of_option].
  - destruct (distinct_classes_ (problem_spec_ rf) !! _); intros [= <- <-]; [done|].
    split; [done|]. intros e' [= <-]. apply runtime_failure_kinds. auto.
  - intros [= <- <-]. split; [done|]. intros e' [= <-]. apply runtime_failure_kinds. auto.
Qed.

Lemma predict_violation fuel rf features (labels : list LabelType)
    n_threads tree_indices schedule labels' message :
  predict prob_lt prob_zero acc hardware_concurrency fuel rf features labels
          n_threads tree_indices schedule = (labels', Throw (PreconditionViolation message)) ->
  labels' = labels.
Proof.
  unfold predict.
  destruct (predict_checks rf features labels) as [[]|e]; [|by intros [= <- _]].
  destruct (predict_proba _ _ _ _ _ _ _ _ _) as [probs' [average|e]]; [|by intros [= <- _]].
  destruct (for_each _ _ _) as [labels1 [[]|e]] eqn:Hloop; [done|].
  intros [= <- ->]. apply predict_loop_throw_kind in Hloop.
  by destruct (Hloop message).
Qed.

(** C7.  A public operation that ends in a precondition violation has
    written nothing: the id array of [leaf_ids], the probability array
    of [predict_proba], the labels of [predict] and the forest of
    [merge] are returned as they were passed; for [leaf_ids] the
    violation is the one its checks raise before the array is filled. *)
Theorem precondition_failure_writes_nothing id_type fuel rf other features ids
    (probs : MultiArray2 Prob) (labels : list LabelType)
    n_threads tree_indices schedule message :
  valid_schedule (Z.to_nat (resolve_threads hardware_concurrency n_threads))
                 (shape0 features) schedule ->
  (forall ids',
     leaf_ids hardware_concurrency id_type fuel rf features ids n_threads tree_indices schedule
       = (ids', Throw (PreconditionViolation message)) ->
     ids' = ids /\
     leaf_ids_checks rf features ids tree_indices = Throw (PreconditionViolation message)) /\
  (forall probs',
     predict_proba acc hardware_concurrency fuel rf features probs n_threads
                   tree_indices schedule
       = (probs', Throw (PreconditionViolation message)) ->
     probs' = probs) /\
  (forall labels',
     predict prob_lt prob_zero acc hardware_concurrency fuel rf features labels
             n_threads tree_indices schedule
       = (labels', Throw (PreconditionViolation message)) ->
     labels' = labels) /\
  (forall rf',
     merge rf other = (rf', Throw (PreconditionViolation message)) -> rf' = rf).
Proof.
  intros Hvalid. repeat split.
  - by eapply leaf_ids_violation.
  - by eapply leaf_ids_violation.
  - intros probs'. apply predict_proba_violation.
  - intros labels'. apply predict_violation.
  - intros rf'. unfold merge.
    destruct (vigra_precondition _ _) as [[]|e]; [done|]. by intros [= <- _].
Qed.

(** *** merge *)

Lemma reinsert_lookup {V : Type} (offset : nat) (other into : gmap nat V) (j : nat) :
  reinsert offset other into !! j =
  match (if decide (offset <= j) then other !! (j - offset) else None) with
  | Some v => Some v
  | None => into !! j
  end.
Proof.
  unfold reinsert. revert j.
  apply (map_fold_weak_ind
           (fun r m => forall j, r !! j =
              match (if decide (offset <= j) then m !! (j - offset) else None) with
              | Some v => Some v
              | None => into !! j
              end)).
  - intros j. case_decide; [by rewrite lookup_empty|done].
  - intros i v m r Hi IH j.
    destruct (decide (j = i + offset)) as [->|Hne].
    + rewrite lookup_insert_eq. rewrite decide_True by lia.
      replace (i + offset - offset) with i by lia. by rewrite lookup_insert_eq.
    + rewrite lookup_insert_ne by done. rewrite IH.
      case_decide; [|done]. rewrite lookup_insert_ne by lia. done.
Qed.

Lemma reinsert_lookup_shifted {V : Type} (offset : nat) (other into : gmap nat V) n v :
  other !! n = Some v -> reinsert offset other into !! (n + offset) = Some v.
Proof.
  intros Hn. rewrite reinsert_lookup, decide_True by lia.
  replace (n + offset - offset) with n by lia. by rewrite Hn.
Qed.

Lemma reinsert_lookup_below {V : Type} (offset : nat) (other into : gmap nat V) n :
  n < offset -> reinsert offset other into !! n = into !! n.
Proof. intros Hn. rewrite reinsert_lookup, decide_False by lia. done. Qed.

Lemma merge_nodes_shifted (g other : BinaryForest.t) n :
  BinaryForest.nodes_ (BinaryForest.merge g other) !! (n + BinaryForest.numNodes g) =
  BinaryForest.shift (BinaryForest.numNodes g) <$> BinaryForest.nodes_ other !! n.
Proof.
  unfold BinaryForest.merge, BinaryForest.numNodes. cbn.
  rewrite lookup_app_r by lia.
  replace (n + length (BinaryForest.nodes_ g) - length (BinaryForest.nodes_ g)) with n by lia.
  by rewrite list_lookup_fmap.
Qed.

Lemma merge_roots_shifted (g other : BinaryForest.t) j :
  BinaryForest.root_nodes_ (BinaryForest.merge g other) !! (BinaryForest.numRoots g + j) =
  (fun r => r + BinaryForest.numNodes g) <$> BinaryForest.root_nodes_ other !! j.
Proof.
  unfold BinaryForest.merge, BinaryForest.numRoots. cbn.
  rewrite lookup_app_r by lia.
  replace (length (BinaryForest.root_nodes_ g) + j - length (BinaryForest.root_nodes_ g))
    with j by lia.
  by rewrite list_lookup_fmap.
Qed.

Lemma merge_ok rf other :
  problem_spec_ rf = problem_spec_ other -> merge rf other = (merged rf other, Ok tt).
Proof.
  intros Hspec. unfold merge. by rewrite bool_decide_eq_true_2.
Qed.

Lemma merged_descend rf other fuel x node c leaf c' :
  descend fuel other x node c = Ok (leaf, c') ->
  descend fuel (merged rf other) x (node + num_nodes rf) c = Ok (leaf + num_nodes rf, c').
Proof.
  revert node c. induction fuel as [|fuel IH]; intros node c; cbn [descend];
    unfold BinaryForest.outDegree, BinaryForest.getChild, at_; cbn [graph_ split_tests_ merged];
    unfold num_nodes; rewrite !merge_nodes_shifted;
    destruct (BinaryForest.nodes_ (graph_ other) !! node) as [[[l r]|]|]; cbn; try done.
  - by intros [= <- <-].
  - rewrite reinsert_lookup, decide_True by lia.
    replace (node + BinaryForest.numNodes (graph_ rf) - BinaryForest.numNodes (graph_ rf))
      with node by lia.
    destruct (split_tests_ other !! node) as [test|]; cbn; [|done].
    destruct (test x) as [|[|?]]; cbn; [apply IH|apply IH|done].
  - by intros [= <- <-].
Qed.

Lemma merged_tree_walk rf other fuel x j leaf c :
  tree_walk fuel other x j = Ok (leaf, c) ->
  tree_walk fuel (merged rf other) x (num_trees rf + j) = Ok (leaf + num_nodes rf, c).
Proof.
  unfold tree_walk, BinaryForest.getRoot, num_trees. cbn [graph_ merged].
  rewrite merge_roots_shifted.
  destruct (BinaryForest.root_nodes_ (graph_ other) !! j) as [root|]; cbn; [|done].
  apply merged_descend.
Qed.

Lemma merged_walk_ok rf other fuel x j :
  is_ok (tree_walk fuel other x j) = true ->
  is_ok (tree_walk fuel (merged rf other) x (num_trees rf + j)) = true /\
  leaf_of fuel (merged rf other) x (num_trees rf + j) = leaf_of fuel other x j + num_nodes rf /\
  cost_of fuel (merged rf other) x (num_trees rf + j) = cost_of fuel other x j.
Proof.
  unfold leaf_of, cost_of.
  destruct (tree_walk fuel other x j) as [[leaf c]|] eqn:Hw; [|done]. intros _.
  by rewrite (merged_tree_walk _ _ _ _ _ _ _ Hw).
Qed.

Lemma set_insert_shift (a v : nat) (s : list nat) :
  set_insert (a + v) ((fun k => a + k) <$> s) = (fun k => a + k) <$> set_insert v s.
Proof.
  induction s as [|y s IH]; [done|]. cbn [fmap list_fmap set_insert].
  replace (a + v <? a + y) with (v <? y)
    by (destruct (Nat.ltb_spec v y), (Nat.ltb_spec (a + v) (a + y)); done || lia).
  replace (a + v =? a + y) with (v =? y)
    by (destruct (Nat.eqb_spec v y), (Nat.eqb_spec (a + v) (a + y)); done || lia).
  destruct (v <? y); [done|]. destruct (v =? y); [done|].
  cbn [fmap list_fmap]. f_equal. apply IH.
Qed.

Lemma std_set_shift (a : nat) (l : list nat) :
  std_set ((fun k => a + k) <$> l) = (fun k => a + k) <$> std_set l.
Proof.
  unfold std_set. change (@nil nat) with ((fun k => a + k) <$> @nil nat) at 1.
  generalize (@nil nat) as s. induction l as [|v l IH]; intros s; [done|].
  cbn [fmap list_fmap foldl]. rewrite set_insert_shift. apply IH.
Qed.

Lemma merged_counts rf other :
  num_nodes (merged rf other) = num_nodes rf + num_nodes other /\
  num_trees (merged rf other) = num_trees rf + num_trees other.
Proof.
  unfold num_nodes, num_trees, BinaryForest.numNodes, BinaryForest.numRoots. cbn.
  by rewrite !length_app, !length_fmap.
Qed.

Lemma resolved_trees_shift rf other ks :
  ks <> [] ->
  resolved_trees (merged rf other) ((fun k => num_trees rf + k) <$> ks) =
  (fun k => num_trees rf + k) <$> resolved_trees other ks.
Proof.
  intros Hks. unfold resolved_trees. rewrite std_set_shift.
  destruct (std_set ks) as [|k s] eqn:Hs; [by apply std_set_nil_inv in Hs|done].
Qed.

Lemma merged_walks_ok rf other fuel features ks :
  walks_ok fuel other features ks ->
  walks_ok fuel (merged rf other) features ((fun k => num_trees rf + k) <$> ks).
Proof.
  unfold walks_ok. intros Hw. eapply Forall_impl; [exact Hw|]. cbn. intros x Hx.
  apply Forall_fmap. eapply Forall_impl; [exact Hx|]. cbn. intros k Hk.
  by apply merged_walk_ok.
Qed.

Lemma merged_row_cost rf other fuel x ks :
  Forall (fun k => is_ok (tree_walk fuel other x k) = true) ks ->
  row_cost fuel (merged rf other) ((fun k => num_trees rf + k) <$> ks) x =
  row_cost fuel other ks x.
Proof.
  unfold row_cost. induction 1 as [|k ks Hk _ IH]; [done|].
  rewrite !fmap_cons, !sum_list_cons, IH.
  by destruct (merged_walk_ok rf other fuel x k Hk) as (_ & _ & ->).
Qed.

Lemma merged_total_cost rf other fuel features ks :
  walks_ok fuel other features ks ->
  total_cost fuel (merged rf other) features ((fun k => num_trees rf + k) <$> ks) =
  total_cost fuel other features ks.
Proof.
  unfold total_cost, walks_ok. induction 1 as [|x xs Hx _ IH]; [done|].
  by rewrite !fmap_cons, !sum_list_cons, IH, merged_row_cost.
Qed.

Lemma merged_responses rf other fuel x ks :
  Forall (fun k => is_ok (tree_walk fuel other x k) = true) ks ->
  Forall (fun k => is_Some (node_responses_ other !! leaf_of fuel other x k)) ks ->
  responses_of fuel (merged rf other) x ((fun k => num_trees rf + k) <$> ks) =
    responses_of fuel other x ks /\
  Forall (fun k => is_Some (node_responses_ (merged rf other) !!
                              leaf_of fuel (merged rf other) x k))
         ((fun k => num_trees rf + k) <$> ks).
Proof.
  unfold responses_of. intros Hw. induction Hw as [|k ks Hk _ IH]; intros Hr.
  - split; [done|constructor].
  - apply Forall_cons in Hr as [[r Hrk] Hr]. destruct (IH Hr) as [IH1 IH2].
    destruct (merged_walk_ok rf other fuel x k Hk) as (_ & Hleaf & _).
    assert (node_responses_ (merged rf other) !! leaf_of fuel (merged rf other) x (num_trees rf + k)
            = Some r) as Hm.
    { rewrite Hleaf. cbn [merged node_responses_]. by apply reinsert_lookup_shifted. }
    rewrite !fmap_cons. cbn [omap list_omap]. rewrite Hm, Hrk.
    split; [by f_equal|]. constructor; [by rewrite Hm|done].
Qed.

Lemma merged_expected_probs rf other fuel features (probs : MultiArray2 Prob) ks :
  walks_ok fuel other features ks ->
  responses_ok fuel other features ks ->
  expected_probs acc fuel (merged rf other) features probs ((fun k => num_trees rf + k) <$> ks) =
    expected_probs acc fuel other features probs ks /\
  responses_ok fuel (merged rf other) features ((fun k => num_trees rf + k) <$> ks).
Proof.
  intros Hw Hr. split.
  - unfold expected_probs. f_equal. apply list_eq. intros i.
    rewrite !lookup_zip_with.
    destruct (rows features !! i) as [x|] eqn:Hx; [|done]. cbn.
    destruct (rows probs !! i) as [old|]; [|done]. cbn.
    pose proof (Forall_lookup_1 _ _ _ _ Hw Hx) as Hwx.
    pose proof (Forall_lookup_1 _ _ _ _ Hr Hx) as Hrx.
    by destruct (merged_responses rf other fuel x ks Hwx Hrx) as [-> _].
  - unfold responses_ok. apply Forall_forall. intros x Hx.
    unfold walks_ok, responses_ok in *. rewrite Forall_forall in Hw, Hr.
    by apply merged_responses; [apply Hw|apply Hr].
Qed.

Lemma predict_congr fuel rf1 rf2 features (labels : list LabelType)
    n_threads ks1 ks2 schedule :
  problem_spec_ rf1 = problem_spec_ rf2 ->
  predict_proba acc hardware_concurrency fuel rf1 features
    (new_array (shape0 features) (num_classes_ (problem_spec_ rf1)) prob_zero)
    n_threads ks1 schedule =
  predict_proba acc hardware_concurrency fuel rf2 features
    (new_array (shape0 features) (num_classes_ (problem_spec_ rf2)) prob_zero)
    n_threads ks2 schedule ->
  predict prob_lt prob_zero acc hardware_concurrency fuel rf1 features labels
          n_threads ks1 schedule =
  predict prob_lt prob_zero acc hardware_concurrency fuel rf2 features labels
          n_threads ks2 schedule.
Proof.
  intros Hspec Hproba. unfold predict, predict_checks, predict_sample.
  rewrite Hproba. by rewrite Hspec.
Qed.

Lemma merged_predict_proba rf other fuel features (probs : MultiArray2 Prob)
    n_threads ks schedule :
  problem_spec_ rf = problem_spec_ other ->
  ks <> [] ->
  Forall (fun k => k < num_trees other) ks ->
  shape0 features = shape0 probs ->
  shape1 features = num_features_ (problem_spec_ other) ->
  shape1 probs = num_classes_ (problem_spec_ other) ->
  valid_schedule (Z.to_nat (resolve_threads hardware_concurrency n_threads))
                 (shape0 features) schedule ->
  walks_ok fuel other features (resolved_trees other ks) ->
  responses_ok fuel other features (resolved_trees other ks) ->
  predict_proba acc hardware_concurrency fuel (merged rf other) features probs n_threads
                ((fun k => num_trees rf + k) <$> ks) schedule =
  predict_proba acc hardware_concurrency fuel other features probs n_threads ks schedule.
Proof.
  intros Hspec Hne Hks H0 H1 H2 Hvalid Hw Hr.
  destruct (merged_expected_probs rf other fuel features probs _ Hw Hr) as [Hprobs Hr'].
  rewrite (predict_proba_run fuel other) by done.
  rewrite (predict_proba_run fuel (merged rf other)).
  - by rewrite resolved_trees_shift, Hprobs, merged_total_cost.
  - done.
  - cbn [merged problem_spec_]. by rewrite Hspec.
  - cbn [merged problem_spec_]. by rewrite Hspec.
  - apply Forall_fmap. eapply Forall_impl; [exact Hks|]. intros k Hk. cbv beta in *.
    unfold compose. destruct (merged_counts rf other) as [_ ->]. lia.
  - done.
  - rewrite resolved_trees_shift by done. by apply merged_walks_ok.
  - by rewrite resolved_trees_shift.
Qed.

(** C5.  Merging [other] into [rf] when the problem specifications
    are equal succeeds and leaves a forest with: the node count of
    [rf] plus that of [other] (and likewise the tree count); every
    split test and every response of [other] under its node id plus
    the node count [rf] had; the nodes, roots, split tests and
    responses of [rf] under the ids and tree indices they had; the
    roots of [other], shifted, at the tree indices that follow those
    of [rf]; and, for every non-empty set [ks] of tree indices of
    [other] that [other] serves on the features, the probabilities,
    labels and average that [other] computes for [ks] when asked for
    the trees of [ks] at their indices after the merge. *)
Theorem merge_appends_forest rf other fuel features n_threads ks schedule :
  problem_spec_ rf = problem_spec_ other ->
  ks <> [] ->
  Forall (fun k => k < num_trees other) ks ->
  shape1 features = num_features_ (problem_spec_ other) ->
  valid_schedule (Z.to_nat (resolve_threads hardware_concurrency n_threads))
                 (shape0 features) schedule ->
  walks_ok fuel other features (resolved_trees other ks) ->
  responses_ok fuel other features (resolved_trees other ks) ->
  merge rf other = (merged rf other, Ok tt) /\
  num_nodes (merged rf other) = num_nodes rf + num_nodes other /\
  num_trees (merged rf other) = num_trees rf + num_trees other /\
  (forall n test, split_tests_ other !! n = Some test ->
                  split_tests_ (merged rf other) !! (n + num_nodes rf) = Some test) /\
  (forall n r, node_responses_ other !! n = Some r ->
               node_responses_ (merged rf other) !! (n + num_nodes rf) = Some r) /\
  (forall n, n < num_nodes rf ->
     BinaryForest.nodes_ (graph_ (merged rf other)) !! n = BinaryForest.nodes_ (graph_ rf) !! n /\
     split_tests_ (merged rf other) !! n = split_tests_ rf !! n /\
     node_responses_ (merged rf other) !! n = node_responses_ rf !! n) /\
  (forall k, k < num_trees rf ->
     BinaryForest.getRoot (graph_ (merged rf other)) k = BinaryForest.getRoot (graph_ rf) k) /\
  (forall j root, BinaryForest.getRoot (graph_ other) j = Ok root ->
     BinaryForest.getRoot (graph_ (merged rf other)) (num_trees rf + j)
       = Ok (root + num_nodes rf)) /\
  (forall probs : MultiArray2 Prob,
     shape0 features = shape0 probs ->
     shape1 probs = num_classes_ (problem_spec_ other) ->
     predict_proba acc hardware_concurrency fuel (merged rf other) features probs n_threads
                   ((fun k => num_trees rf + k) <$> ks) schedule =
     predict_proba acc hardware_concurrency fuel other features probs n_threads ks schedule) /\
  (forall labels : list LabelType,
     predict prob_lt prob_zero acc hardware_concurrency fuel (merged rf other) features labels
             n_threads ((fun k => num_trees rf + k) <$> ks) schedule =
     predict prob_lt prob_zero acc hardware_concurrency fuel other features labels
             n_threads ks schedule).
Proof.
  intros Hspec Hne Hks H1 Hvalid Hw Hr.
  destruct (merged_counts rf other) as [Hnodes Htrees].
  split; [by apply merge_ok|]. split; [done|]. split; [done|].
  split; [intros n test Hn; by apply reinsert_lookup_shifted|].
  split; [intros n r Hn; by apply reinsert_lookup_shifted|].
  split.
  { intros n Hn. cbn [merged graph_ split_tests_ node_responses_].
    rewrite !reinsert_lookup_below by done. split; [|done].
    unfold BinaryForest.merge. cbn. by rewrite lookup_app_l. }
  split.
  { intros k Hk. unfold BinaryForest.getRoot, BinaryForest.merge. cbn.
    by rewrite lookup_app_l. }
  split.
  { intros j root. unfold BinaryForest.getRoot. cbn [merged graph_].
    unfold num_trees. rewrite merge_roots_shifted.
    destruct (BinaryForest.root_nodes_ (graph_ other) !! j); cbn; [|done].
    by intros [= ->]. }
  split.
  { intros probs H0 H2. by apply merged_predict_proba. }
  intros labels. apply predict_congr; [done|].
  destruct (new_array_shape (shape0 features) (num_classes_ (problem_spec_ other)) prob_zero)
    as (Hn0 & Hn1 & _).
  cbn [merged problem_spec_]. rewrite Hspec.
  by apply merged_predict_proba.
Qed.

(** C9 (as amended).  When a precondition check of [leaf_ids],
    [predict_proba], [predict] or [merge] fails, the operation returns
    what it was given together with a precondition violation whose
    message is the fixed text of the failed check, one of the texts
    of the operation (for [predict] also those of [predict_proba],
    which checks the tree indices for it); the text names the
    operation and the precondition and is the same whatever the
    offending values are. *)
Theorem precondition_failures_are_typed id_type fuel rf other features ids
    (probs : MultiArray2 Prob) (labels : list LabelType) n_threads tree_indices schedule :
  (forall e,
     leaf_ids_checks rf features ids tree_indices = Throw e ->
     leaf_ids hardware_concurrency id_type fuel rf features ids n_threads tree_indices schedule
       = (ids, Throw e) /\
     exists message, e = PreconditionViolation message /\ message ∈ leaf_ids_messages) /\
  (forall e,
     predict_proba_checks rf features probs tree_indices = Throw e ->
     predict_proba acc hardware_concurrency fuel rf features probs n_threads
                   tree_indices schedule = (probs, Throw e) /\
     exists message, e = PreconditionViolation message /\ message ∈ predict_proba_messages) /\
  (forall e,
     predict_checks rf features labels = Throw e ->
     predict prob_lt prob_zero acc hardware_concurrency fuel rf features labels
             n_threads tree_indices schedule = (labels, Throw e) /\
     exists message, e = PreconditionViolation message /\ message ∈ predict_messages) /\
  (forall e,
     predict_checks rf features labels = Ok tt ->
     predict_proba_checks rf features
       (new_array (shape0 features) (num_classes_ (problem_spec_ rf)) prob_zero)
       tree_indices = Throw e ->
     predict prob_lt prob_zero acc hardware_concurrency fuel rf features labels
             n_threads tree_indices schedule = (labels, Throw e) /\
     exists message, e = PreconditionViolation message /\ message ∈ predict_proba_messages) /\
  (problem_spec_ rf <> problem_spec_ other ->
   merge rf other = (rf, Throw (PreconditionViolation merge_message))) /\
  (shape0 features = length labels ->
   shape1 features <> num_features_ (problem_spec_ rf) ->
   predict prob_lt prob_zero acc hardware_concurrency fuel rf features labels
           n_threads tree_indices schedule =
   (labels, Throw (PreconditionViolation
      "RandomForest::predict(): Number of features in prediction differs from training."))).
Proof.
  split; [|split; [|split; [|split; [|split]]]].
  - intros e He. split; [|by eapply leaf_ids_checks_throw].
    unfold leaf_ids. by rewrite He.
  - intros e He. split; [|by eapply predict_proba_checks_throw].
    unfold predict_proba. by rewrite He.
  - intros e He. split; [|by eapply predict_checks_throw].
    unfold predict. by rewrite He.
  - intros e Hok He. split; [|by eapply predict_proba_checks_throw].
    unfold predict, predict_proba. by rewrite Hok, He.
  - intros Hspec. unfold merge, merge_message. by rewrite bool_decide_eq_false_2.
  - intros H0 H1. unfold predict, predict_checks. rewrite H0, Nat.eqb_refl.
    apply Nat.eqb_neq in H1. by rewrite H1.
Qed.

End facts.

(** * The unit-test forest as an instance *)

Module Witness.
Import BaseClassTest.

Lemma ltb_strict_weak_order : strict_weak_order Nat.ltb.
Proof.
  repeat split.
  - intros a. apply Nat.ltb_irrefl.
  - intros a b c Hab%Nat.ltb_lt Hbc%Nat.ltb_lt. apply Nat.ltb_lt. lia.
  - intros a b c Hab%Nat.ltb_ge Hbc%Nat.ltb_ge. apply Nat.ltb_ge. lia.
Qed.

Lemma vote_counts_length responses row : length (vote_counts responses row) = length row.
Proof.
  unfold vote_counts. rewrite <- (length_map (fun _ => 0) row).
  generalize (map (fun _ : nat => 0) row) as r.
  induction responses as [|c responses IH]; intros r; [done|].
  cbn [foldl]. by rewrite IH, length_alter.
Qed.

Lemma one_worker_valid : valid_schedule 1 8 one_worker.
Proof. split; [vm_compute; repeat constructor|reflexivity]. Qed.

Lemma two_workers_valid : valid_schedule 2 8 two_workers.
Proof.
  split; [vm_compute; repeat constructor|].
  change (two_workers.*2) with (rev (seq 0 8)). symmetry. apply Permutation_rev.
Qed.

Lemma test_walks_ok : walks_ok 7 rf test_x [0].
Proof. vm_compute. repeat constructor. Qed.

Lemma test_responses_ok : responses_ok 7 rf test_x [0].
Proof. unfold responses_ok. repeat constructor; vm_compute; eauto. Qed.

Lemma stump_walks_ok : walks_ok 7 stump test_x [0].
Proof. vm_compute. repeat constructor. Qed.

Lemma stump_responses_ok : responses_ok 7 stump test_x [0].
Proof. unfold responses_ok. repeat constructor; vm_compute; eauto. Qed.

(** After the stump has been merged into the test forest, tree 1 answers
    class 1 for every sample, as the stump does on its own. *)
Example test_merge :
  predict Nat.ltb 0 vote_counts 4 7 (merge rf stump).1 test_x (replicate 8 0%Z) 1 [1] one_worker
  = ([1; 1; 1; 1; 1; 1; 1; 1]%Z, Ok (Quot 0 8)).
Proof. vm_compute. reflexivity. Qed.

(** The scenario of [test_base_class]. *)
Example test_base_class :
  predict Nat.ltb 0 vote_counts 4 7 rf test_x (replicate 8 0%Z) 1 [] one_worker
  = (test_y, Ok (Quot 16 8)).
Proof. vm_compute. reflexivity. Qed.

Example test_leaf_ids :
  leaf_ids 4 signed_id 7 rf test_x (new_array 8 1 0%Z) 2 [] two_workers
  = (mkArray [[3]; [3]; [4]; [4]; [5]; [5]; [6]; [6]]%Z 1, Ok (Quot 16 8)).
Proof. vm_compute. reflexivity. Qed.


Lemma traversal_engine_witness :
  leaf_ids_impl signed_id 7 rf test_x (new_array 8 1 0%Z) 4 5 [0]
  = (set_cell (new_array 8 1 0%Z) 4 0 5%Z, Ok 2).
Proof.
  destruct (traversal_engine signed_id 7 rf test_x (new_array 8 1 0%Z) 4 0 [7 # 10; 2 # 10])
    as (root & Hroot & _ & Himpl & _).
  - reflexivity.
  - reflexivity.
  - reflexivity.
  - reflexivity.
  - vm_compute. lia.
  - assert (root = 0) as -> by (vm_compute in Hroot; congruence).
    apply Himpl. exists 5. split; [|split; [lia|reflexivity]].
    apply (reaches_step rf _ 0 (LessEqualSplitTest 0 (6 # 10)) 2 5 1);
      [reflexivity|reflexivity|vm_compute; lia|reflexivity|].
    apply (reaches_step rf _ 2 (LessEqualSplitTest 1 (75 # 100)) 5 5 0);
      [reflexivity|reflexivity|vm_compute; lia|reflexivity|].
    apply reaches_leaf. reflexivity.
Defined.


Lemma predict_proba_gathers_witness :
  exists probs',
    predict_proba vote_counts 4 7 rf test_x (new_array 8 4 0) 2 [] two_workers
      = (probs', Ok (Quot 16 8)) /\
    shape0 probs' = 8.
Proof.
  destruct (predict_proba_gathers vote_counts 4 7 rf test_x (new_array 8 4 0) 2 [] two_workers)
    as (ks & ids' & average & probs' & Hids & Hrun & _ & _ & Hshape & _).
  - reflexivity.
  - reflexivity.
  - reflexivity.
  - constructor.
  - exact two_workers_valid.
  - exact test_walks_ok.
  - exact test_responses_ok.
  - exists probs'. split; [|exact Hshape].
    rewrite Hrun. vm_compute in Hrun. by injection Hrun as _ <-.
Defined.

Lemma predict_takes_first_maximum_witness :
  exists labels',
    predict Nat.ltb 0 vote_counts 4 7 rf test_x (replicate 8 0%Z) 2 [] two_workers
      = (labels', Ok (Quot 16 8)) /\
    length labels' = 8.
Proof.
  destruct (predict_takes_first_maximum Nat.ltb 0 vote_counts 4 7 rf test_x
              (replicate 8 0%Z) 2 [] two_workers)
    as (probs' & average & labels' & _ & Hrun & Hlen & _).
  - exact ltb_strict_weak_order.
  - exact vote_counts_length.
  - vm_compute. lia.
  - vm_compute. lia.
  - reflexivity.
  - reflexivity.
  - constructor.
  - exact two_workers_valid.
  - exact test_walks_ok.
  - exact test_responses_ok.
  - exists labels'. split; [|exact Hlen].
    rewrite Hrun. vm_compute in Hrun. by injection Hrun as _ <-.
Defined.

Lemma merge_appends_forest_witness :
  merge rf stump = (merged rf stump, Ok tt) /\
  num_nodes (merged rf stump) = 8 /\
  predict Nat.ltb 0 vote_counts 4 7 (merged rf stump) test_x (replicate 8 0%Z) 2 [1] two_workers
  = predict Nat.ltb 0 vote_counts 4 7 stump test_x (replicate 8 0%Z) 2 [0] two_workers.
Proof.
  destruct (merge_appends_forest Nat.ltb 0 vote_counts 4 rf stump 7 test_x 2 [0] two_workers)
    as (Hmerge & Hnodes & _ & _ & _ & _ & _ & _ & _ & Hpredict).
  - reflexivity.
  - discriminate.
  - vm_compute. repeat constructor.
  - reflexivity.
  - exact two_workers_valid.
  - exact stump_walks_ok.
  - exact stump_responses_ok.
  - split; [exact Hmerge|]. split; [exact Hnodes|]. exact (Hpredict (replicate 8 0%Z)).
Defined.

Lemma average_split_counts_agree_witness :
  exists average,
    (leaf_ids 4 signed_id 7 rf test_x (new_array 8 1 0%Z) 2 [] two_workers).2 = Ok average /\
    (predict_proba vote_counts 4 7 rf test_x (new_array 8 4 0) 2 [] two_workers).2
      = Ok average /\
    (predict Nat.ltb 0 vote_counts 4 7 rf test_x (replicate 8 0%Z) 2 [] two_workers).2
      = Ok average.
Proof.
  apply (average_split_counts_agree Nat.ltb 0 vote_counts 4 signed_id 7 rf test_x).
  - exact vote_counts_length.
  - vm_compute. lia.
  - vm_compute. lia.
  - reflexivity.
  - reflexivity.
  - reflexivity.
  - reflexivity.
  - reflexivity.
  - reflexivity.
  - constructor.
  - exact two_workers_valid.
  - exact test_walks_ok.
  - exact test_responses_ok.
Defined.

Lemma precondition_failure_writes_nothing_witness :
  leaf_ids 4 signed_id 7 rf three_columns (new_array 1 1 7%Z) 1 [] [(0, 0)]
  = (new_array 1 1 7%Z,
     Throw (PreconditionViolation
       "RandomForest::leaf_ids(): Number of features in prediction differs from training.")).
Proof.
  destruct (leaf_ids 4 signed_id 7 rf three_columns (new_array 1 1 7%Z) 1 [] [(0, 0)])
    as [ids' r] eqn:Hrun.
  assert (r = Throw (PreconditionViolation
       "RandomForest::leaf_ids(): Number of features in prediction differs from training."))
    as -> by (vm_compute in Hrun; by injection Hrun as _ <-).
  destruct (precondition_failure_writes_nothing Nat.ltb 0 vote_counts 4 signed_id 7 rf rf
              three_columns (new_array 1 1 7%Z) (new_array 1 4 0) [0%Z] 1 [] [(0, 0)]
              "RandomForest::leaf_ids(): Number of features in prediction differs from training.")
    as (Hids & _).
  - split; [repeat constructor|reflexivity].
  - by destruct (Hids ids' Hrun) as [-> _].
Defined.

Lemma leaf_ids_worker_count_irrelevant_witness :
  leaf_ids 4 signed_id 7 rf test_x (new_array 8 1 0%Z) 1 [] one_worker
  = leaf_ids 4 signed_id 7 rf test_x (new_array 8 1 0%Z) 2 [] two_workers.
Proof.
  apply leaf_ids_worker_count_irrelevant.
  - exact one_worker_valid.
  - exact two_workers_valid.
  - exact test_walks_ok.
Defined.

Lemma leaf_ids_no_samples_witness :
  leaf_ids 4 signed_id 7 rf (mkArray [] 2) (mkArray [] 1) (-1) [] [] = (mkArray [] 1, Ok (Quot 0 0)).
Proof.
  apply leaf_ids_no_samples.
  - reflexivity.
  - reflexivity.
  - reflexivity.
  - reflexivity.
  - constructor.
  - split; [constructor|reflexivity].
Defined.

Lemma precondition_failures_are_typed_witness :
  predict Nat.ltb 0 vote_counts 4 7 rf three_columns [0%Z] 1 [] [(0, 0)] =
  ([0%Z], Throw (PreconditionViolation
     "RandomForest::predict(): Number of features in prediction differs from training.")).
Proof.
  destruct (precondition_failures_are_typed Nat.ltb 0 vote_counts 4 signed_id 7 rf rf three_columns
              (new_array 1 1 0%Z) (new_array 1 4 0) [0%Z] 1 [] [(0, 0)])
    as (_ & _ & _ & _ & _ & Hcount).
  apply Hcount; [reflexivity|]. vm_compute. lia.
Defined.

(** C9 (as stated) fails: [predict] raises the very same failure for
    features with three and with five columns, so the count given
    cannot be read off the failure. *)
Lemma failure_hides_feature_counts :
  ~ @failure_tells_feature_counts Q Z nat nat Nat.ltb 0 vote_counts 4.
Proof.
  intros [report Hreport].
  pose proof (Hreport 7 rf three_columns [0%Z] 1%Z [] [(0, 0)] _ _
                eq_refl ltac:(vm_compute; lia) eq_refl) as H3.
  pose proof (Hreport 7 rf five_columns [0%Z] 1%Z [] [(0, 0)] _ _
                eq_refl ltac:(vm_compute; lia) eq_refl) as H5.
  vm_compute in H3, H5. congruence.
Qed.

End Witness.

(** * Further properties of the code *)

Lemma sorted_lt_ext (l1 l2 : list nat) :
  StronglySorted lt l1 -> StronglySorted lt l2 ->
  (forall k, k ∈ l1 <-> k ∈ l2) -> l1 = l2.
Proof.
  intros H1. revert l2. induction H1 as [|a l1 Hs1 IH Ha]; intros l2 H2 Hext.
  - destruct l2 as [|b l2]; [done|].
    assert (b ∈ @nil nat) as Hb by (apply Hext; left). by apply elem_of_nil in Hb.
  - destruct H2 as [|b l2 Hs2 Hb].
    { assert (a ∈ @nil nat) as Ha' by (apply Hext; left). by apply elem_of_nil in Ha'. }
    rewrite Forall_forall in Ha, Hb.
    assert (a = b) as <-.
    { assert (a ∈ b :: l2) as Ha' by (apply Hext; left).
      assert (b ∈ a :: l1) as Hb' by (apply Hext; left).
      apply elem_of_cons in Ha' as [?|Ha']; [done|].
      apply elem_of_cons in Hb' as [?|Hb']; [done|].
      specialize (Ha _ Hb'). specialize (Hb _ Ha'). lia. }
    f_equal. apply IH; [done|]. intros k. split; intros Hk.
    + assert (k ∈ a :: l2) as Hk' by (apply Hext; by right).
      apply elem_of_cons in Hk' as [->|?]; [|done]. specialize (Ha _ Hk). lia.
    + assert (k ∈ a :: l1) as Hk' by (apply Hext; by right).
      apply elem_of_cons in Hk' as [->|?]; [|done]. specialize (Hb _ Hk). lia.
Qed.

Lemma std_set_ext (l1 l2 : list nat) :
  (forall k, k ∈ l1 <-> k ∈ l2) -> std_set l1 = std_set l2.
Proof.
  intros Hext. apply sorted_lt_ext; [apply std_set_sorted|apply std_set_sorted|].
  intros k. by rewrite !elem_of_std_set.
Qed.

Lemma for_each_app {S B : Type} (body : B -> S -> S * result unit) (l1 l2 : list B) (s : S) :
  for_each body (l1 ++ l2) s =
  match for_each body l1 s with
  | (s', Ok _) => for_each body l2 s'
  | (s', Throw e) => (s', Throw e)
  end.
Proof.
  revert s. induction l1 as [|b l1 IH]; intros s; simpl; [done|].
  destruct (body b s) as [s1 [[]|e]]; [apply IH|done].
Qed.

Lemma sum_list_bound (b : nat) (l : list nat) :
  Forall (fun v => v <= b) l -> sum_list l <= b * length l.
Proof.
  induction 1 as [|v l Hv _ IH]; simpl; [lia|].
  change (v + sum_list l <= b * S (length l)). lia.
Qed.

Lemma foldl_alter_length {A : Type} (f : nat -> A -> A) (items : list nat) (rs : list A) :
  length (foldl (fun rs i => alter (f i) i rs) rs items) = length rs.
Proof.
  revert rs. induction items as [|i items IH]; intros rs; [done|].
  cbn [foldl]. by rewrite IH, length_alter.
Qed.

Lemma for_each_counter {A B : Type} (body : B -> A * nat -> (A * nat) * result unit)
    (l : list B) :
  (forall b a c, body b (a, c) = let '((a', c'), r) := body b (a, 0) in ((a', c + c'), r)) ->
  forall a c, for_each body l (a, c) =
              let '((a', c'), r) := for_each body l (a, 0) in ((a', c + c'), r).
Proof.
  intros Hbody. induction l as [|b l IH]; intros a c; cbn [for_each].
  - by rewrite Nat.add_0_r.
  - rewrite (Hbody b a c). destruct (body b (a, 0)) as [[a1 c1] [[]|e]]; [|done].
    rewrite (IH a1 (c + c1)), (IH a1 c1).
    destruct (for_each body l (a1, 0)) as [[a2 c2] r]. by rewrite Nat.add_assoc.
Qed.

Section further.
Context {FeatureType LabelType AccInputType Prob : Type}.
Context `{EqDecision LabelType}.
Context (prob_lt : Prob -> Prob -> bool) (prob_zero : Prob).
Context (acc : list AccInputType -> list Prob -> list Prob).
Context (hardware_concurrency : nat).

Abbreviation Forest := (@RandomForest FeatureType LabelType AccInputType).
Implicit Types (rf : Forest) (x : list FeatureType) (features : MultiArray2 FeatureType).
Implicit Types (ids : MultiArray2 Z) (ks : list nat).

(** *** The tree indices are a set *)

Lemma checked_tree_indices_ext rf (l1 l2 : list nat) message :
  (forall k, k ∈ l1 <-> k ∈ l2) ->
  checked_tree_indices rf l1 message = checked_tree_indices rf l2 message.
Proof. intros Hext. unfold checked_tree_indices. by rewrite (std_set_ext l1 l2). Qed.

(** X1.  The tree indices count as a set: two index lists with the same
    members, whatever their order and repetitions, give the same result
    in [leaf_ids], [predict_proba] and [predict], failures included. *)
Theorem tree_indices_as_set id_type fuel rf features ids (probs : MultiArray2 Prob)
    (labels : list LabelType) n_threads schedule (l1 l2 : list nat) :
  (forall k, k ∈ l1 <-> k ∈ l2) ->
  leaf_ids hardware_concurrency id_type fuel rf features ids n_threads l1 schedule =
  leaf_ids hardware_concurrency id_type fuel rf features ids n_threads l2 schedule /\
  predict_proba acc hardware_concurrency fuel rf features probs n_threads l1 schedule =
  predict_proba acc hardware_concurrency fuel rf features probs n_threads l2 schedule /\
  predict prob_lt prob_zero acc hardware_concurrency fuel rf features labels
          n_threads l1 schedule =
  predict prob_lt prob_zero acc hardware_concurrency fuel rf features labels
          n_threads l2 schedule.
Proof.
  intros Hext.
  assert (Hproba : forall probs : MultiArray2 Prob,
            predict_proba acc hardware_concurrency fuel rf features probs n_threads l1 schedule =
            predict_proba acc hardware_concurrency fuel rf features probs n_threads l2 schedule).
  { intros p. unfold predict_proba, predict_proba_checks.
    by rewrite (checked_tree_indices_ext rf l1 l2). }
  split; [|split; [apply Hproba|]].
  - unfold leaf_ids, leaf_ids_checks. by rewrite (checked_tree_indices_ext rf l1 l2).
  - unfold predict. by rewrite Hproba.
Qed.

(** *** Which check fails first *)

(** X2.  The checks of [leaf_ids] in their order: a sample-count
    mismatch is reported first, then a wrong feature count, then a wrong
    number of id columns, then a tree index that is not below the tree
    count; in each case the id array is returned as it was passed. *)
Theorem leaf_ids_first_failed_check id_type fuel rf features ids n_threads tree_indices schedule :
  (shape0 features <> shape0 ids ->
   leaf_ids hardware_concurrency id_type fuel rf features ids n_threads tree_indices schedule =
   (ids, Throw (PreconditionViolation
      "RandomForest::leaf_ids(): Shape mismatch between features and probabilities."))) /\
  (shape0 features = shape0 ids ->
   shape1 features <> num_features_ (problem_spec_ rf) ->
   leaf_ids hardware_concurrency id_type fuel rf features ids n_threads tree_indices schedule =
   (ids, Throw (PreconditionViolation
      "RandomForest::leaf_ids(): Number of features in prediction differs from training."))) /\
  (shape0 features = shape0 ids ->
   shape1 features = num_features_ (problem_spec_ rf) ->
   shape1 ids <> num_trees rf ->
   leaf_ids hardware_concurrency id_type fuel rf features ids n_threads tree_indices schedule =
   (ids, Throw (PreconditionViolation
      "RandomForest::leaf_ids(): Leaf array has wrong shape."))) /\
  (shape0 features = shape0 ids ->
   shape1 features = num_features_ (problem_spec_ rf) ->
   shape1 ids = num_trees rf ->
   forall k, k ∈ tree_indices -> num_trees rf <= k ->
   leaf_ids hardware_concurrency id_type fuel rf features ids n_threads tree_indices schedule =
   (ids, Throw (PreconditionViolation
      "RandomForest::leaf_ids(): Tree index out of range."))).
Proof.
  unfold leaf_ids, leaf_ids_checks, num_trees. repeat split.
  - intros H0%Nat.eqb_neq. by rewrite H0.
  - intros H0 H1%Nat.eqb_neq. by rewrite H0, Nat.eqb_refl, H1.
  - intros H0 H1 H2%Nat.eqb_neq. by rewrite H0, H1, !Nat.eqb_refl, H2.
  - intros H0 H1 H2 k Hk Hge. rewrite H0, H1, H2, !Nat.eqb_refl.
    rewrite checked_tree_indices_eq.
    destruct (forallb _ _) eqn:Hall; [|done].
    apply forallb_std_set_inv in Hall. rewrite Forall_forall in Hall.
    specialize (Hall k Hk). unfold num_trees in Hall. lia.
Qed.

(** X3.  The checks of [predict_proba] in their order (sample count,
    feature count, class columns, tree indices), and the tree-index
    check that [predict] leaves to [predict_proba]: the output is
    returned as it was passed, and the text of the failure is the one
    of [predict_proba] also when [predict] was called. *)
Theorem predict_proba_first_failed_check fuel rf features (probs : MultiArray2 Prob)
    (labels : list LabelType) n_threads tree_indices schedule :
  (shape0 features <> shape0 probs ->
   predict_proba acc hardware_concurrency fuel rf features probs n_threads
                 tree_indices schedule =
   (probs, Throw (PreconditionViolation
      "RandomForest::predict_proba(): Shape mismatch between features and probabilities."))) /\
  (shape0 features = shape0 probs ->
   shape1 features <> num_features_ (problem_spec_ rf) ->
   predict_proba acc hardware_concurrency fuel rf features probs n_threads
                 tree_indices schedule =
   (probs, Throw (PreconditionViolation
      "RandomForest::predict_proba(): Number of features in prediction differs from training."))) /\
  (shape0 features = shape0 probs ->
   shape1 features = num_features_ (problem_spec_ rf) ->
   shape1 probs <> num_classes_ (problem_spec_ rf) ->
   predict_proba acc hardware_concurrency fuel rf features probs n_threads
                 tree_indices schedule =
   (probs, Throw (PreconditionViolation
      "RandomForest::predict_proba(): Number of labels in probabilities differs from training."))) /\
  (shape0 features = shape0 probs ->
   shape1 features = num_features_ (problem_spec_ rf) ->
   shape1 probs = num_classes_ (problem_spec_ rf) ->
   forall k, k ∈ tree_indices -> num_trees rf <= k ->
   predict_proba acc hardware_concurrency fuel rf features probs n_threads
                 tree_indices schedule =
   (probs, Throw (PreconditionViolation
      "RandomForest::predict_proba(): Tree index out of range."))) /\
  (shape0 features = length labels ->
   shape1 features = num_features_ (problem_spec_ rf) ->
   forall k, k ∈ tree_indices -> num_trees rf <= k ->
   predict prob_lt prob_zero acc hardware_concurrency fuel rf features labels
           n_threads tree_indices schedule =
   (labels, Throw (PreconditionViolation
      "RandomForest::predict_proba(): Tree index out of range."))).
Proof.
  assert (Hrange : forall message k, k ∈ tree_indices -> num_trees rf <= k ->
            checked_tree_indices rf tree_indices message =
            Throw (PreconditionViolation message)).
  { intros message k Hk Hge. rewrite checked_tree_indices_eq.
    destruct (forallb _ _) eqn:Hall; [|done].
    apply forallb_std_set_inv in Hall. rewrite Forall_forall in Hall.
    specialize (Hall k Hk). lia. }
  assert (Hproba : forall p : MultiArray2 Prob,
            shape0 features = shape0 p ->
            shape1 features = num_features_ (problem_spec_ rf) ->
            shape1 p = num_classes_ (problem_spec_ rf) ->
            forall k, k ∈ tree_indices -> num_trees rf <= k ->
            predict_proba acc hardware_concurrency fuel rf features p n_threads
                          tree_indices schedule =
            (p, Throw (PreconditionViolation
               "RandomForest::predict_proba(): Tree index out of range."))).
  { intros p H0 H1 H2 k Hk Hge. unfold predict_proba, predict_proba_checks.
    rewrite H0, H1, H2, !Nat.eqb_refl.
    cbn [vigra_precondition mbind result_bind]. by rewrite (Hrange _ k). }
  split; [|split; [|split; [|split]]].
  - intros H0%Nat.eqb_neq. unfold predict_proba, predict_proba_checks. by rewrite H0.
  - intros H0 H1%Nat.eqb_neq. unfold predict_proba, predict_proba_checks.
    by rewrite H0, Nat.eqb_refl, H1.
  - intros H0 H1 H2%Nat.eqb_neq. unfold predict_proba, predict_proba_checks.
    by rewrite H0, H1, !Nat.eqb_refl, H2.
  - apply Hproba.
  - intros H0 H1 k Hk Hge. unfold predict. rewrite predict_checks_ok by done.
    destruct (new_array_shape (shape0 features) (num_classes_ (problem_spec_ rf)) prob_zero)
      as (Hn0 & Hn1 & _).
    by rewrite (Hproba _ (eq_sym Hn0) H1 Hn1 k Hk Hge).
Qed.

(** *** The worker count *)

(** X4.  The worker count that [leaf_ids] works with is at least 1: a
    count of 1 or more is taken as given, -1 stands for the hardware
    concurrency (1 when that is reported as 0), and 0 or any other
    negative count stands for 1. *)
Theorem worker_count_resolution (n_threads : Z) :
  (1 <= resolve_threads hardware_concurrency n_threads)%Z /\
  ((1 <= n_threads)%Z -> resolve_threads hardware_concurrency n_threads = n_threads) /\
  (resolve_threads hardware_concurrency (-1) = Z.max 1 (Z.of_nat hardware_concurrency)) /\
  ((n_threads < 1)%Z -> n_threads <> (-1)%Z ->
   resolve_threads hardware_concurrency n_threads = 1%Z).
Proof.
  unfold resolve_threads. repeat split.
  - destruct (n_threads =? -1)%Z;
      [destruct (Z.ltb_spec (Z.of_nat hardware_concurrency) 1)
      |destruct (Z.ltb_spec n_threads 1)]; lia.
  - intros Hn. destruct (Z.eqb_spec n_threads (-1)); [lia|].
    destruct (Z.ltb_spec n_threads 1); lia.
  - cbn [Z.eqb Pos.eqb]. destruct (Z.ltb_spec (Z.of_nat hardware_concurrency) 1); lia.
  - intros Hn Hne. destruct (Z.eqb_spec n_threads (-1)); [done|].
    destruct (Z.ltb_spec n_threads 1); lia.
Qed.

(** *** When [leaf_ids] returns *)

Lemma trees_loop_ok_inv id_type fuel rf x i ks ids c st :
  for_each (leaf_ids_impl_tree id_type fuel rf x i) ks (ids, c) = (st, Ok tt) ->
  Forall (fun k => is_ok (tree_walk fuel rf x k) = true) ks.
Proof.
  revert ids c. induction ks as [|k ks IH]; intros ids c; cbn [for_each]; [constructor|].
  destruct (tree_walk fuel rf x k) as [[leaf n]|e] eqn:Hw.
  - rewrite leaf_ids_impl_tree_ok by (by rewrite Hw). intros Hrest.
    constructor; [by rewrite Hw|by eapply IH].
  - by rewrite (leaf_ids_impl_tree_throw _ _ _ _ _ _ _ _ e).
Qed.

Lemma leaf_ids_impl_item_ok_inv id_type fuel rf features ids i ks ids' c :
  shape0 features = shape0 ids ->
  shape1 features = num_features_ (problem_spec_ rf) ->
  shape1 ids = num_trees rf ->
  i < shape0 features ->
  leaf_ids_impl id_type fuel rf features ids i (i + 1) ks = (ids', Ok c) ->
  Forall (fun k => is_ok (tree_walk fuel rf (sample_row features i) k) = true) ks.
Proof.
  intros H0 H1 H2 Hi. unfold leaf_ids_impl, num_trees in *.
  rewrite <- H0, H1, H2, !Nat.eqb_refl.
  replace (i + 1 <=? shape0 features) with true by (symmetry; apply Nat.leb_le; lia).
  replace (i <=? i + 1) with true by (symmetry; apply Nat.leb_le; lia).
  replace (i + 1 - i) with 1 by lia.
  cbn [vigra_precondition mbind result_bind andb Nat.leb seq for_each].
  destruct (lookup_lt_is_Some_2 (rows features) i Hi) as [x Hx].
  unfold leaf_ids_impl_sample, bind0. rewrite Hx. cbn [of_option].
  rewrite (sample_row_lookup _ _ _ Hx).
  destruct (for_each (leaf_ids_impl_tree id_type fuel rf x i) ks (ids, 0))
    as [[ids1 c1] [[]|e1]] eqn:Hloop; [|done].
  intros _. by eapply trees_loop_ok_inv.
Qed.

Lemma schedule_ok_inv id_type fuel rf features ks schedule ids (sc : list nat) st :
  shape0 features = shape0 ids ->
  shape1 features = num_features_ (problem_spec_ rf) ->
  shape1 ids = num_trees rf ->
  Forall (fun p => p.2 < shape0 features) schedule ->
  parallel_foreach schedule (leaf_ids_item id_type fuel rf features ks) (ids, sc) = (st, Ok tt) ->
  Forall (fun p => Forall (fun k => is_ok (tree_walk fuel rf (sample_row features p.2) k) = true)
                          ks) schedule.
Proof.
  intros H0 H1 H2 Hsched. revert ids sc H0 H2. unfold parallel_foreach.
  induction Hsched as [|[t i] schedule Hi _ IH]; intros ids sc H0 H2; cbn [for_each];
    [constructor|].
  cbn [snd] in Hi. unfold leaf_ids_item at 1.
  destruct (leaf_ids_impl id_type fuel rf features ids i (i + 1) ks) as [ids1 [c|e]] eqn:Himpl; [|done].
  pose proof (leaf_ids_impl_item_ok_inv _ _ _ _ _ _ _ _ _ H0 H1 H2 Hi Himpl) as Hrow.
  apply leaf_ids_impl_item_cases in Himpl as [[Hs0 Hs1] _]; try done.
  intros Hrest. constructor; [done|].
  eapply IH; [by rewrite Hs0|by rewrite Hs1|exact Hrest].
Qed.

(** X5.  A valid call of [leaf_ids] returns a value exactly when every
    sample reaches a leaf in every requested tree (within the fuel): a
    walk that fails, at a split test that is missing or at a node
    outside the graph, makes the whole call fail. *)
Theorem leaf_ids_returns_iff_walks_end id_type fuel rf features ids n_threads tree_indices schedule :
  shape0 features = shape0 ids ->
  shape1 features = num_features_ (problem_spec_ rf) ->
  shape1 ids = num_trees rf ->
  Forall (fun k => k < num_trees rf) tree_indices ->
  valid_schedule (Z.to_nat (resolve_threads hardware_concurrency n_threads))
                 (shape0 features) schedule ->
  (exists ids' average,
     leaf_ids hardware_concurrency id_type fuel rf features ids n_threads tree_indices schedule
       = (ids', Ok average)) <->
  walks_ok fuel rf features (resolved_trees rf tree_indices).
Proof.
  intros H0 H1 H2 Hks Hvalid. split; [|intros Hw; rewrite leaf_ids_run by done; eauto].
  intros (ids' & average & Hrun). unfold leaf_ids in Hrun.
  rewrite leaf_ids_checks_ok in Hrun by done.
  destruct (valid_schedule_items _ _ _ Hvalid) as (Hitems & _ & Hin).
  destruct (fill_shape ids (to_id id_type (-1))) as [Hf0 Hf1].
  destruct (parallel_foreach _ _ _) as [[ids1 sc1] [[]|e]] eqn:Hpar; [|done].
  apply schedule_ok_inv in Hpar; [|congruence|done|congruence|done].
  unfold walks_ok. apply Forall_lookup_2. intros i x Hx.
  assert (i ∈ schedule.*2) as Hi by (apply Hin; by eapply lookup_lt_Some).
  apply list_elem_of_fmap in Hi as ([t i'] & -> & Hp).
  rewrite Forall_forall in Hpar. specialize (Hpar _ Hp). cbn [snd] in *.
  by rewrite (sample_row_lookup _ _ _ Hx) in Hpar.
Qed.

(** *** The ids stored are leaves *)

Lemma reaches_ends_at_leaf rf x node leaf n :
  reaches rf x node leaf n -> BinaryForest.nodes_ (graph_ rf) !! leaf = Some None.
Proof.
  induction 1 as [node Hd|]; [|done].
  unfold BinaryForest.outDegree in Hd.
  by destruct (BinaryForest.nodes_ (graph_ rf) !! node) as [[?|]|].
Qed.

Lemma tree_walk_leaf fuel rf x k :
  is_ok (tree_walk fuel rf x k) = true ->
  BinaryForest.nodes_ (graph_ rf) !! leaf_of fuel rf x k = Some None.
Proof.
  unfold leaf_of. destruct (tree_walk fuel rf x k) as [[leaf n]|] eqn:Hw; [|done]. intros _.
  unfold tree_walk in Hw.
  destruct (BinaryForest.getRoot (graph_ rf) k) as [root|]; [|done]. cbn in Hw.
  apply descend_reaches in Hw as [Hr _]. by eapply reaches_ends_at_leaf.
Qed.

(** X6.  Every id that a valid, successful call of [leaf_ids] stores
    for a requested tree is the id of a node of the graph that has no
    children. *)
Theorem leaf_ids_stores_leaves id_type fuel rf features ids n_threads tree_indices schedule :
  shape0 features = shape0 ids ->
  shape1 features = num_features_ (problem_spec_ rf) ->
  shape1 ids = num_trees rf ->
  rectangular ids ->
  Forall (fun k => k < num_trees rf) tree_indices ->
  valid_schedule (Z.to_nat (resolve_threads hardware_concurrency n_threads))
                 (shape0 features) schedule ->
  walks_ok fuel rf features (resolved_trees rf tree_indices) ->
  forall i k,
    i < shape0 features -> k ∈ resolved_trees rf tree_indices ->
    exists leaf,
      cell (leaf_ids hardware_concurrency id_type fuel rf features ids n_threads
              tree_indices schedule).1 i k = Ok (Z.of_nat leaf) /\
      leaf < num_nodes rf /\
      BinaryForest.outDegree (graph_ rf) leaf = Ok 0.
Proof.
  intros H0 H1 H2 Hrect Hks Hvalid Hw i k Hi Hk.
  rewrite leaf_ids_run by done. cbn [fst].
  destruct (lookup_lt_is_Some_2 (rows features) i Hi) as [x Hx].
  exists (leaf_of fuel rf x k).
  assert (k < shape1 ids) as Hlt.
  { rewrite H2. pose proof (resolved_trees_in_range rf tree_indices Hks) as Hin.
    rewrite Forall_forall in Hin. by apply Hin. }
  rewrite (expected_ids_cell _ _ _ _ _ _ _ _ x) by done. rewrite decide_True by done.
  assert (BinaryForest.nodes_ (graph_ rf) !! leaf_of fuel rf x k = Some None) as Hleaf.
  { apply tree_walk_leaf. pose proof (walks_ok_row _ _ _ _ _ _ Hw Hx) as Hrow.
    rewrite Forall_forall in Hrow. by apply Hrow. }
  split; [done|]. split; [by eapply lookup_lt_Some|].
  unfold BinaryForest.outDegree. by rewrite Hleaf.
Qed.

(** *** Forests that satisfy the invariants of the data model *)

Lemma proper_tree_walk fuel rf x k root h :
  BinaryForest.getRoot (graph_ rf) k = Ok root ->
  proper_tree rf root h -> h <= fuel ->
  is_ok (tree_walk fuel rf x k) = true /\ cost_of fuel rf x k <= h.
Proof.
  intros Hroot Hproper Hfuel.
  destruct (proper_tree_reaches rf x root h Hproper) as (leaf & n & Hr & Hn).
  unfold cost_of, tree_walk. rewrite Hroot. cbn [mbind result_bind].
  by rewrite (reaches_descend fuel rf x root leaf n Hr) by lia.
Qed.

Lemma proper_forest_walks_ok fuel rf features ks h :
  proper_forest rf ks h -> h <= fuel -> walks_ok fuel rf features ks.
Proof.
  intros Hproper Hfuel. unfold walks_ok. apply Forall_forall. intros x _.
  eapply Forall_impl; [exact Hproper|]. intros k (root & Hroot & Htree).
  by eapply proper_tree_walk.
Qed.

Lemma proper_forest_total_cost fuel rf features ks h :
  proper_forest rf ks h -> h <= fuel ->
  total_cost fuel rf features ks <= h * length ks * shape0 features.
Proof.
  intros Hproper Hfuel. unfold total_cost, shape0.
  rewrite <- (length_fmap (row_cost fuel rf ks) (rows features)).
  apply sum_list_bound, Forall_fmap, Forall_forall. intros x _.
  unfold compose, row_cost. rewrite <- (length_fmap (cost_of fuel rf x) ks).
  apply sum_list_bound, Forall_fmap.
  eapply Forall_impl; [exact Hproper|]. intros k (root & Hroot & Htree).
  by eapply proper_tree_walk.
Qed.

(** X7.  On a forest whose requested trees satisfy the invariants of the
    data model (finite trees of height at most [h], a 0/1 split test at
    every node with children) every valid call of [leaf_ids] returns,
    and the total number of comparisons it reports is at most [h] per
    sample and requested tree. *)
Theorem leaf_ids_on_proper_forest id_type fuel rf features ids n_threads tree_indices schedule h :
  shape0 features = shape0 ids ->
  shape1 features = num_features_ (problem_spec_ rf) ->
  shape1 ids = num_trees rf ->
  Forall (fun k => k < num_trees rf) tree_indices ->
  valid_schedule (Z.to_nat (resolve_threads hardware_concurrency n_threads))
                 (shape0 features) schedule ->
  proper_forest rf (resolved_trees rf tree_indices) h ->
  h <= fuel ->
  exists ids' comparisons,
    leaf_ids hardware_concurrency id_type fuel rf features ids n_threads tree_indices schedule
      = (ids', Ok (Quot comparisons (shape0 features))) /\
    comparisons <= h * length (resolved_trees rf tree_indices) * shape0 features.
Proof.
  intros H0 H1 H2 Hks Hvalid Hproper Hfuel.
  eexists _, _. split.
  - apply leaf_ids_run; try done. by eapply proper_forest_walks_ok.
  - by apply proper_forest_total_cost.
Qed.

(** *** One tree among others *)

Lemma walks_ok_subset fuel rf features ks ks' :
  (forall k, k ∈ ks' -> k ∈ ks) ->
  walks_ok fuel rf features ks -> walks_ok fuel rf features ks'.
Proof.
  intros Hsub Hw. unfold walks_ok in *. eapply Forall_impl; [exact Hw|].
  intros x Hx. rewrite Forall_forall in Hx. apply Forall_forall. auto.
Qed.

(** X8.  The leaf id stored for a sample and a tree does not depend on
    which other trees are requested: asked for some trees, [leaf_ids]
    stores in their columns what it stores there when asked for all. *)
Theorem leaf_ids_column_independent id_type fuel rf features ids n_threads tree_indices schedule :
  shape0 features = shape0 ids ->
  shape1 features = num_features_ (problem_spec_ rf) ->
  shape1 ids = num_trees rf ->
  rectangular ids ->
  Forall (fun k => k < num_trees rf) tree_indices ->
  valid_schedule (Z.to_nat (resolve_threads hardware_concurrency n_threads))
                 (shape0 features) schedule ->
  walks_ok fuel rf features (seq 0 (num_trees rf)) ->
  forall i k,
    i < shape0 features -> k ∈ tree_indices ->
    cell (leaf_ids hardware_concurrency id_type fuel rf features ids n_threads
            tree_indices schedule).1 i k =
    cell (leaf_ids hardware_concurrency id_type fuel rf features ids n_threads [] schedule).1 i k.
Proof.
  intros H0 H1 H2 Hrect Hks Hvalid Hw i k Hi Hk.
  assert (k < num_trees rf) as Hlt by (rewrite Forall_forall in Hks; by apply Hks).
  assert (Hw1 : walks_ok fuel rf features (resolved_trees rf tree_indices)).
  { eapply walks_ok_subset; [|exact Hw]. intros k' Hk'.
    apply elem_of_seq. pose proof (resolved_trees_in_range rf tree_indices Hks) as Hin.
    rewrite Forall_forall in Hin. specialize (Hin _ Hk'). lia. }
  assert (Hw2 : walks_ok fuel rf features (resolved_trees rf [])) by done.
  rewrite (leaf_ids_run _ _ fuel rf features ids n_threads tree_indices) by done.
  rewrite (leaf_ids_run _ _ fuel rf features ids n_threads []) by (done || constructor).
  cbn [fst]. destruct (lookup_lt_is_Some_2 (rows features) i Hi) as [x Hx].
  rewrite !(expected_ids_cell _ _ _ _ _ _ _ _ x) by (done || lia).
  rewrite !decide_True; [done| |].
  - apply elem_of_resolved_trees. by right.
  - apply elem_of_resolved_trees. by left.
Qed.

(** *** A leaf without a response *)

Lemma gather_missing fuel rf ids i x ks (tree_results : list AccInputType) :
  Forall (fun k => cell ids i k = Ok (Z.of_nat (leaf_of fuel rf x k))) ks ->
  Exists (fun k => node_responses_ rf !! leaf_of fuel rf x k = None) ks ->
  gather rf ids i ks tree_results = Throw OutOfRange.
Proof.
  intros Hcells. revert tree_results.
  induction Hcells as [|k ks Hc _ IH]; intros tree_results Hmiss; [by apply Exists_nil in Hmiss|].
  cbn [gather]. unfold response_at. rewrite Hc. cbn [mbind result_bind].
  replace (Z.of_nat (leaf_of fuel rf x k) <? 0)%Z with false by (symmetry; apply Z.ltb_ge; lia).
  unfold at_. rewrite Nat2Z.id.
  destruct (node_responses_ rf !! leaf_of fuel rf x k) as [r|] eqn:Hr; cbn; [|done].
  apply IH. apply Exists_cons in Hmiss as [Hk|?]; [congruence|done].
Qed.

Lemma requested_cells id_type fuel rf features tree_indices i x :
  Forall (fun k => k < num_trees rf) tree_indices ->
  rows features !! i = Some x ->
  Forall (fun k => cell (expected_ids id_type fuel rf features
                           (new_array (shape0 features) (num_trees rf) 0%Z)
                           (resolved_trees rf tree_indices)) i k
                   = Ok (Z.of_nat (leaf_of fuel rf x k)))
         (resolved_trees rf tree_indices).
Proof.
  intros Hks Hx.
  destruct (new_array_shape (shape0 features) (num_trees rf) 0%Z) as (Hn0 & Hn1 & Hrect).
  apply Forall_forall. intros k Hk.
  rewrite (expected_ids_cell _ _ _ _ _ _ _ _ x); try done.
  - by rewrite decide_True.
  - rewrite Hn1. pose proof (resolved_trees_in_range rf tree_indices Hks) as Hin.
    rewrite Forall_forall in Hin. by apply Hin.
Qed.

(** X9.  A reached leaf without an entry in the response map stops
    [predict_proba] with the lookup failure of the map at the first
    such sample: the rows of the samples before it have been rewritten
    by the accumulator, the rows from that sample on are as they were
    passed.  [predict] then fails in the same way and leaves every label
    as it was. *)
Theorem predict_proba_missing_response fuel rf features (probs : MultiArray2 Prob)
    (labels : list LabelType) n_threads tree_indices schedule i0 x0 :
  shape0 features = shape0 probs ->
  shape1 features = num_features_ (problem_spec_ rf) ->
  shape1 probs = num_classes_ (problem_spec_ rf) ->
  Forall (fun k => k < num_trees rf) tree_indices ->
  valid_schedule (Z.to_nat (resolve_threads hardware_concurrency n_threads))
                 (shape0 features) schedule ->
  walks_ok fuel rf features (resolved_trees rf tree_indices) ->
  rows features !! i0 = Some x0 ->
  Forall (fun x => Forall (fun k => is_Some (node_responses_ rf !! leaf_of fuel rf x k))
                          (resolved_trees rf tree_indices))
         (take i0 (rows features)) ->
  Exists (fun k => node_responses_ rf !! leaf_of fuel rf x0 k = None)
         (resolved_trees rf tree_indices) ->
  (exists probs',
     predict_proba acc hardware_concurrency fuel rf features probs n_threads
                   tree_indices schedule = (probs', Throw OutOfRange) /\
     shape0 probs' = shape0 probs /\
     (forall i, i < i0 ->
        rows probs' !! i =
        rows (expected_probs acc fuel rf features probs (resolved_trees rf tree_indices)) !! i) /\
     (forall i, i0 <= i -> rows probs' !! i = rows probs !! i)) /\
  (shape0 features = length labels ->
   predict prob_lt prob_zero acc hardware_concurrency fuel rf features labels
           n_threads tree_indices schedule = (labels, Throw OutOfRange)).
Proof.
  intros H0 H1 H2 Hks Hvalid Hw Hx0 Hbefore Hmiss.
  set (ks := resolved_trees rf tree_indices) in *.
  assert (Hi0 : i0 < shape0 features) by (by eapply lookup_lt_Some).
  assert (Hloop : forall p : MultiArray2 Prob,
            shape0 features = shape0 p ->
            for_each (predict_proba_sample acc rf
                        (expected_ids size_t fuel rf features
                           (new_array (shape0 features) (num_trees rf) 0%Z) ks) ks)
                     (seq 0 (shape0 features)) p =
            (mkArray (foldl (fun rs i => alter (acc (responses_of fuel rf (sample_row features i) ks))
                                               i rs) (rows p) (seq 0 i0)) (cols p),
             Throw OutOfRange)).
  { intros p Hp.
    replace (shape0 features) with (i0 + S (shape0 features - S i0)) at 2 by lia.
    rewrite seq_app, for_each_app.
    rewrite (for_each_rows _ (fun i => acc (responses_of fuel rf (sample_row features i) ks))).
    - cbn [seq for_each Nat.add]. unfold predict_proba_sample.
      rewrite (gather_missing fuel rf _ i0 x0); [done| |done].
      by apply requested_cells.
    - intros i m' Hi Hm'. apply elem_of_seq in Hi.
      destruct (lookup_lt_is_Some_2 (rows features) i) as [x Hx]; [unfold shape0 in *; lia|].
      rewrite (sample_row_lookup _ _ _ Hx).
      apply predict_proba_sample_ok; [|lia].
      pose proof (requested_cells size_t fuel rf features tree_indices i x Hks Hx) as Hcells.
      assert (Forall (fun k => is_Some (node_responses_ rf !! leaf_of fuel rf x k)) ks) as Hresp.
      { eapply (Forall_lookup_1 _ _ i x Hbefore). rewrite lookup_take_lt by lia. done. }
      fold ks in Hcells. rewrite Forall_forall in Hcells, Hresp.
      apply Forall_forall. intros k Hk. split; [by apply Hcells|by apply Hresp]. }
  assert (Hrun : forall p : MultiArray2 Prob,
            shape0 features = shape0 p ->
            shape1 p = num_classes_ (problem_spec_ rf) ->
            predict_proba acc hardware_concurrency fuel rf features p n_threads
                          tree_indices schedule =
            (mkArray (foldl (fun rs i => alter (acc (responses_of fuel rf (sample_row features i) ks))
                                               i rs) (rows p) (seq 0 i0)) (cols p),
             Throw OutOfRange)).
  { intros p Hp0 Hp1. unfold predict_proba.
    rewrite predict_proba_checks_ok by done.
    rewrite predict_proba_leaf_ids by done. fold ks. by rewrite Hloop. }
  split.
  - eexists. split; [by apply Hrun|]. cbn [rows].
    split; [unfold shape0; cbn [rows]; by rewrite foldl_alter_length|].
    split.
    + intros i Hi. rewrite rows_fold_lookup by apply NoDup_seq.
      rewrite decide_True by (apply elem_of_seq; lia).
      unfold expected_probs. cbn [rows]. rewrite lookup_zip_with.
      destruct (lookup_lt_is_Some_2 (rows features) i) as [x Hx]; [unfold shape0 in *; lia|].
      rewrite Hx, (sample_row_lookup _ _ _ Hx). cbn.
      by destruct (rows probs !! i).
    + intros i Hi. rewrite rows_fold_lookup by apply NoDup_seq.
      rewrite decide_False; [done|]. rewrite elem_of_seq. lia.
  - intros Hl. unfold predict. rewrite predict_checks_ok by done.
    destruct (new_array_shape (shape0 features) (num_classes_ (problem_spec_ rf)) prob_zero)
      as (Hn0 & Hn1 & _).
    by rewrite Hrun.
Qed.

(** *** What [predict] writes *)

Lemma expected_probs_shape0 fuel rf features (probs : MultiArray2 Prob) ks :
  shape0 features = shape0 probs ->
  shape0 (expected_probs acc fuel rf features probs ks) = shape0 features.
Proof.
  intros H0. unfold expected_probs, shape0 in *. cbn [rows]. rewrite length_zip_with. lia.
Qed.

(** X10.  A valid, successful call of [predict] overwrites every label:
    the labels returned do not depend on what the label array held
    before, and each of them is an entry of the distinct-label list of
    the problem specification. *)
Theorem predict_overwrites_labels fuel rf features (labels1 labels2 : list LabelType)
    n_threads tree_indices schedule :
  (forall rs old, length (acc rs old) = length old) ->
  0 < num_classes_ (problem_spec_ rf) ->
  num_classes_ (problem_spec_ rf) <= length (distinct_classes_ (problem_spec_ rf)) ->
  shape0 features = length labels1 ->
  shape0 features = length labels2 ->
  shape1 features = num_features_ (problem_spec_ rf) ->
  Forall (fun k => k < num_trees rf) tree_indices ->
  valid_schedule (Z.to_nat (resolve_threads hardware_concurrency n_threads))
                 (shape0 features) schedule ->
  walks_ok fuel rf features (resolved_trees rf tree_indices) ->
  responses_ok fuel rf features (resolved_trees rf tree_indices) ->
  predict prob_lt prob_zero acc hardware_concurrency fuel rf features labels1
          n_threads tree_indices schedule =
  predict prob_lt prob_zero acc hardware_concurrency fuel rf features labels2
          n_threads tree_indices schedule /\
  Forall (fun c => c ∈ distinct_classes_ (problem_spec_ rf))
         (predict prob_lt prob_zero acc hardware_concurrency fuel rf features labels1
                  n_threads tree_indices schedule).1.
Proof.
  intros Hacc Hnc Hdc Hl1 Hl2 H1 Hks Hvalid Hw Hr.
  destruct (predict_run prob_lt prob_zero acc hardware_concurrency fuel rf features labels1
              n_threads tree_indices schedule) as (out1 & Hrun1 & Hlen1 & Hout1); try done.
  destruct (predict_run prob_lt prob_zero acc hardware_concurrency fuel rf features labels2
              n_threads tree_indices schedule) as (out2 & Hrun2 & Hlen2 & Hout2); try done.
  destruct (new_array_shape (shape0 features) (num_classes_ (problem_spec_ rf)) prob_zero)
    as (Hn0 & _ & _).
  pose proof (expected_probs_shape0 fuel rf features
                (new_array (shape0 features) (num_classes_ (problem_spec_ rf)) prob_zero)
                (resolved_trees rf tree_indices) (eq_sym Hn0)) as Hshape.
  rewrite Hrun1, Hrun2. cbn [fst]. split.
  - f_equal. apply list_eq. intros i.
    destruct (decide (i < shape0 features)) as [Hi|Hi].
    + destruct (lookup_lt_is_Some_2 _ i (eq_ind_r (lt i) Hi Hshape)) as [row Hrow].
      destruct (Hout1 _ _ Hrow) as (_ & c1 & Hc1 & ->).
      destruct (Hout2 _ _ Hrow) as (_ & c2 & Hc2 & ->). congruence.
    + rewrite !lookup_ge_None_2; [done|lia|lia].
  - apply Forall_forall. intros c Hc.
    apply list_elem_of_lookup in Hc as [i Hi].
    assert (i < shape0 features) as Hlt by (apply lookup_lt_Some in Hi; lia).
    destruct (lookup_lt_is_Some_2 _ i (eq_ind_r (lt i) Hlt Hshape)) as [row Hrow].
    destruct (Hout1 _ _ Hrow) as (_ & c1 & Hc1 & Hi1).
    assert (c = c1) as -> by congruence. by eapply list_elem_of_lookup_2.
Qed.

(** X11.  Without samples [predict_proba] and [predict] pass their
    checks, write nothing, and return the quotient of the zero
    comparison total by the zero sample count, as [leaf_ids] does; no
    accumulator call and no label lookup takes place, so this holds for
    every forest, also one without classes. *)
Theorem predict_no_samples fuel rf features n_threads tree_indices schedule :
  shape0 features = 0 ->
  shape1 features = num_features_ (problem_spec_ rf) ->
  Forall (fun k => k < num_trees rf) tree_indices ->
  valid_schedule (Z.to_nat (resolve_threads hardware_concurrency n_threads)) 0 schedule ->
  (forall probs : MultiArray2 Prob,
     shape0 probs = 0 -> shape1 probs = num_classes_ (problem_spec_ rf) ->
     predict_proba acc hardware_concurrency fuel rf features probs n_threads
                   tree_indices schedule = (probs, Ok (Quot 0 0))) /\
  predict prob_lt prob_zero acc hardware_concurrency fuel rf features []
          n_threads tree_indices schedule = ([], Ok (Quot 0 0)).
Proof.
  intros Hf H1 Hks Hvalid.
  assert (Hrows : rows features = []) by (by apply length_zero_iff_nil).
  assert (Hproba : forall probs : MultiArray2 Prob,
            shape0 probs = 0 -> shape1 probs = num_classes_ (problem_spec_ rf) ->
            predict_proba acc hardware_concurrency fuel rf features probs n_threads
                          tree_indices schedule = (probs, Ok (Quot 0 0))).
  { intros probs Hp0 Hp1.
    assert (Hprows : rows probs = []) by (by apply length_zero_iff_nil).
    rewrite predict_proba_run; [|congruence|done|done|done|by rewrite Hf| |].
    - unfold expected_probs, total_cost. rewrite Hrows, Hf. cbn.
      destruct probs as [rs c]. cbn in *. by subst.
    - unfold walks_ok. rewrite Hrows. constructor.
    - unfold responses_ok. rewrite Hrows. constructor. }
  split; [exact Hproba|].
  unfold predict. rewrite predict_checks_ok by done.
  rewrite Hf. rewrite Hproba; [done|done|done].
Qed.

(** X12.  [predict] reads [distinct_classes_[label]] without a bounds
    check: with an empty distinct-label list and at least one sample, a
    call that is valid otherwise comes to that read for the first
    sample, which is outside the list, and no label is written. *)
Theorem predict_without_labels fuel rf features (labels : list LabelType)
    n_threads tree_indices schedule :
  distinct_classes_ (problem_spec_ rf) = [] ->
  0 < shape0 features ->
  shape0 features = length labels ->
  shape1 features = num_features_ (problem_spec_ rf) ->
  Forall (fun k => k < num_trees rf) tree_indices ->
  valid_schedule (Z.to_nat (resolve_threads hardware_concurrency n_threads))
                 (shape0 features) schedule ->
  walks_ok fuel rf features (resolved_trees rf tree_indices) ->
  responses_ok fuel rf features (resolved_trees rf tree_indices) ->
  predict prob_lt prob_zero acc hardware_concurrency fuel rf features labels
          n_threads tree_indices schedule = (labels, Throw InvalidAccess).
Proof.
  intros Hnone Hpos H0 H1 Hks Hvalid Hw Hr. unfold predict.
  rewrite predict_checks_ok by done.
  destruct (new_array_shape (shape0 features) (num_classes_ (problem_spec_ rf)) prob_zero)
    as (Hn0 & Hn1 & _).
  rewrite predict_proba_run by done.
  pose proof (expected_probs_shape0 fuel rf features
                (new_array (shape0 features) (num_classes_ (problem_spec_ rf)) prob_zero)
                (resolved_trees rf tree_indices) (eq_sym Hn0)) as Hshape.
  destruct (shape0 features) as [|n] eqn:Hn; [lia|].
  cbn [seq for_each]. unfold predict_sample at 1, bind0.
  destruct (lookup_lt_is_Some_2
              (rows (expected_probs acc fuel rf features
                       (new_array (S n) (num_classes_ (problem_spec_ rf)) prob_zero)
                       (resolved_trees rf tree_indices))) 0) as [row Hrow].
  { unfold shape0 in Hshape. lia. }
  rewrite Hrow. cbn [of_option]. by rewrite Hnone.
Qed.

(** *** merge and the empty forest *)

Lemma shift_zero (n : option (nat * nat)) : BinaryForest.shift 0 n = n.
Proof. destruct n as [[l r]|]; [|done]. cbn. by rewrite !Nat.add_0_r. Qed.

Lemma reinsert_into_empty {V : Type} (m : gmap nat V) : reinsert 0 m ∅ = m.
Proof.
  apply map_eq. intros j. rewrite reinsert_lookup, decide_True by lia.
  rewrite Nat.sub_0_r. by destruct (m !! j).
Qed.

(** X13.  Merging a default-constructed (empty) forest into a forest
    with the same problem specification changes nothing, and a forest
    merged into an empty one of its specification arrives unchanged:
    growing a forest by merges can start from the empty forest. *)
Theorem merge_empty_forest rf :
  merge rf (empty_forest (problem_spec_ rf)) = (rf, Ok tt) /\
  merge (empty_forest (problem_spec_ rf)) rf = (rf, Ok tt).
Proof.
  split.
  - rewrite merge_ok by done. f_equal.
    destruct rf as [[nodes roots] tests responses spec].
    unfold merged, reinsert, BinaryForest.merge. cbn.
    by rewrite !app_nil_r, !map_fold_empty.
  - rewrite merge_ok by done. f_equal.
    destruct rf as [[nodes roots] tests responses spec].
    unfold merged, BinaryForest.merge, num_nodes. cbn.
    rewrite !reinsert_into_empty. do 2 f_equal.
    + rewrite <- (list_fmap_id nodes) at 2. apply list_fmap_ext. intros _ n _. apply shift_zero.
    + rewrite <- (list_fmap_id roots) at 2. apply list_fmap_ext. intros _ r _. cbn. lia.
Qed.

(** *** merge after merge *)

Lemma reinsert_assoc {V : Type} (na nb : nat) (a b c : gmap nat V) :
  reinsert (na + nb) c (reinsert na b a) = reinsert na (reinsert nb c b) a.
Proof.
  apply map_eq. intros j. rewrite !reinsert_lookup.
  destruct (decide (na + nb <= j)) as [Hj|Hj].
  - rewrite (decide_True (P := na <= j)) by lia.
    rewrite (decide_True (P := nb <= j - na)) by lia.
    replace (j - na - nb) with (j - (na + nb)) by lia.
    case_decide; [|lia]. by destruct (c !! (j - (na + nb))).
  - destruct (decide (na <= j)) as [Hj'|Hj']; [|done].
    rewrite (decide_False (P := nb <= j - na)) by lia. done.
Qed.

Lemma shift_shift (na nb : nat) (n : option (nat * nat)) :
  BinaryForest.shift na (BinaryForest.shift nb n) = BinaryForest.shift (na + nb) n.
Proof. destruct n as [[l r]|]; [|done]. cbn. do 2 f_equal; lia. Qed.

Lemma graph_merge_assoc (a b c : BinaryForest.t) :
  BinaryForest.merge (BinaryForest.merge a b) c =
  BinaryForest.merge a (BinaryForest.merge b c).
Proof.
  destruct a as [na ra], b as [nb rb], c as [nc rc].
  unfold BinaryForest.merge, BinaryForest.numNodes. cbn.
  rewrite !length_app, !length_fmap, !fmap_app, <- !app_assoc, <- !list_fmap_compose.
  f_equal; f_equal; f_equal; apply list_fmap_ext.
  - intros _ n _. cbn. by rewrite shift_shift.
  - intros _ r _. cbn. lia.
Qed.

(** X14.  Merging is associative: merging [b] and then [c] into [a]
    leaves the forest that merging into [a] the result of merging [c]
    into [b] leaves (equal problem specifications throughout), so the
    node ids and tree indices of a forest built by merges depend on the
    order of the parts only. *)
Theorem merge_associative (a b c : Forest) :
  problem_spec_ a = problem_spec_ b ->
  problem_spec_ b = problem_spec_ c ->
  merge (merge a b).1 c = (merged (merged a b) c, Ok tt) /\
  merge a (merge b c).1 = (merged a (merged b c), Ok tt) /\
  merged (merged a b) c = merged a (merged b c).
Proof.
  intros Hab Hbc.
  rewrite (merge_ok a b), (merge_ok b c) by done. cbn [fst].
  split; [apply merge_ok; cbn; congruence|].
  split; [apply merge_ok; cbn; congruence|].
  unfold merged at 1 3. cbn [graph_ split_tests_ node_responses_ problem_spec_ merged].
  destruct (merged_counts a b) as [-> _].
  by rewrite graph_merge_assoc, !reinsert_assoc.
Qed.

(** *** merge and the trees that were there *)

Lemma merged_descend_left rf other fuel x node c leaf c' :
  descend fuel rf x node c = Ok (leaf, c') ->
  descend fuel (merged rf other) x node c = Ok (leaf, c').
Proof.
  revert node c. induction fuel as [|fuel IH]; intros node c; cbn [descend];
    unfold BinaryForest.outDegree, BinaryForest.getChild, at_;
    cbn [graph_ split_tests_ merged BinaryForest.merge BinaryForest.nodes_];
    destruct (BinaryForest.nodes_ (graph_ rf) !! node) as [n|] eqn:Hn; cbn; try done;
    rewrite (lookup_app_l_Some _ _ _ _ Hn); cbn; [done|].
  destruct n as [[l r]|]; cbn; [|done].
  rewrite reinsert_lookup_below by (by eapply lookup_lt_Some).
  destruct (split_tests_ rf !! node) as [test|]; cbn; [|done].
  destruct (test x) as [|[|?]]; cbn; [apply IH|apply IH|done].
Qed.

Lemma merged_walk_ok_left rf other fuel x k :
  is_ok (tree_walk fuel rf x k) = true ->
  is_ok (tree_walk fuel (merged rf other) x k) = true /\
  leaf_of fuel (merged rf other) x k = leaf_of fuel rf x k /\
  cost_of fuel (merged rf other) x k = cost_of fuel rf x k.
Proof.
  unfold leaf_of, cost_of, tree_walk, BinaryForest.getRoot.
  cbn [graph_ merged BinaryForest.merge BinaryForest.root_nodes_].
  destruct (BinaryForest.root_nodes_ (graph_ rf) !! k) as [root|] eqn:Hroot; [|done].
  rewrite (lookup_app_l_Some _ _ _ _ Hroot). cbn.
  destruct (descend fuel rf x root 0) as [[leaf c]|] eqn:Hd; [|done]. intros _.
  by rewrite (merged_descend_left _ _ _ _ _ _ _ _ Hd).
Qed.

Lemma merged_expected_probs_left rf other fuel features (probs : MultiArray2 Prob) ks :
  walks_ok fuel rf features ks ->
  responses_ok fuel rf features ks ->
  walks_ok fuel (merged rf other) features ks /\
  responses_ok fuel (merged rf other) features ks /\
  total_cost fuel (merged rf other) features ks = total_cost fuel rf features ks /\
  expected_probs acc fuel (merged rf other) features probs ks =
    expected_probs acc fuel rf features probs ks.
Proof.
  intros Hw Hr.
  assert (Hrow : forall x, x ∈ rows features ->
            Forall (fun k => is_ok (tree_walk fuel (merged rf other) x k) = true) ks /\
            Forall (fun k => is_Some (node_responses_ (merged rf other) !!
                                        leaf_of fuel (merged rf other) x k)) ks /\
            row_cost fuel (merged rf other) ks x = row_cost fuel rf ks x /\
            responses_of fuel (merged rf other) x ks = responses_of fuel rf x ks).
  { intros x Hx. unfold walks_ok, responses_ok in *.
    rewrite Forall_forall in Hw, Hr. specialize (Hw x Hx). specialize (Hr x Hx).
    unfold row_cost, responses_of. clear Hx.
    induction Hw as [|k ks Hk Hw IH]; [by repeat split|].
    apply Forall_cons in Hr as [Hrk Hr].
    destruct (IH Hr) as (IH1 & IH2 & IH3 & IH4).
    destruct (merged_walk_ok_left rf other fuel x k Hk) as (Hok & Hleaf & Hcost).
    assert (node_responses_ (merged rf other) !! leaf_of fuel (merged rf other) x k
            = node_responses_ rf !! leaf_of fuel rf x k) as Hresp.
    { rewrite Hleaf. cbn [merged node_responses_]. apply reinsert_lookup_below.
      pose proof (tree_walk_leaf fuel rf x k Hk) as Hnode. by eapply lookup_lt_Some. }
    repeat split.
    - by constructor.
    - constructor; [by rewrite Hresp|done].
    - rewrite !fmap_cons, !sum_list_cons. by rewrite Hcost, IH3.
    - cbn [omap list_omap]. by rewrite Hresp, IH4. }
  repeat split.
  - apply Forall_forall. intros x Hx. by apply Hrow.
  - apply Forall_forall. intros x Hx. by apply Hrow.
  - unfold total_cost. f_equal. apply list_fmap_ext. intros i x Hx.
    apply Hrow. by eapply list_elem_of_lookup_2.
  - unfold expected_probs. f_equal. apply list_eq. intros i.
    rewrite !lookup_zip_with.
    destruct (rows features !! i) as [x|] eqn:Hx; [|done]. cbn.
    destruct (rows probs !! i) as [old|]; [|done]. cbn.
    destruct (Hrow x) as (_ & _ & _ & ->); [by eapply list_elem_of_lookup_2|done].
Qed.

Lemma resolved_trees_merged_left rf other ks :
  ks <> [] -> resolved_trees (merged rf other) ks = resolved_trees rf ks.
Proof.
  intros Hks. unfold resolved_trees.
  destruct (std_set ks) as [|k s] eqn:Hs; [by apply std_set_nil_inv in Hs|done].
Qed.

(** X15.  A merge does not change what the trees that were there
    answer: for a non-empty set of tree indices of the forest before
    the merge, [predict_proba] and [predict] on the merged forest
    return what they returned before (for inputs the forest served). *)
Theorem merge_keeps_original_predictions rf other fuel features n_threads ks schedule :
  problem_spec_ rf = problem_spec_ other ->
  ks <> [] ->
  Forall (fun k => k < num_trees rf) ks ->
  shape1 features = num_features_ (problem_spec_ rf) ->
  valid_schedule (Z.to_nat (resolve_threads hardware_concurrency n_threads))
                 (shape0 features) schedule ->
  walks_ok fuel rf features (resolved_trees rf ks) ->
  responses_ok fuel rf features (resolved_trees rf ks) ->
  (forall probs : MultiArray2 Prob,
     shape0 features = shape0 probs ->
     shape1 probs = num_classes_ (problem_spec_ rf) ->
     predict_proba acc hardware_concurrency fuel (merge rf other).1 features probs
                   n_threads ks schedule =
     predict_proba acc hardware_concurrency fuel rf features probs n_threads ks schedule) /\
  (forall labels : list LabelType,
     predict prob_lt prob_zero acc hardware_concurrency fuel (merge rf other).1 features labels
             n_threads ks schedule =
     predict prob_lt prob_zero acc hardware_concurrency fuel rf features labels
             n_threads ks schedule).
Proof.
  intros Hspec Hne Hks H1 Hvalid Hw Hr. rewrite merge_ok by done. cbn [fst].
  assert (Hproba : forall probs : MultiArray2 Prob,
     shape0 features = shape0 probs ->
     shape1 probs = num_classes_ (problem_spec_ rf) ->
     predict_proba acc hardware_concurrency fuel (merged rf other) features probs
                   n_threads ks schedule =
     predict_proba acc hardware_concurrency fuel rf features probs n_threads ks schedule).
  { intros probs H0 H2.
    destruct (merged_expected_probs_left rf other fuel features probs _ Hw Hr)
      as (Hw' & Hr' & Hcost & Hprobs).
    rewrite (predict_proba_run acc _ fuel rf) by done.
    rewrite (predict_proba_run acc _ fuel (merged rf other)).
    - by rewrite resolved_trees_merged_left, Hprobs, Hcost.
    - done.
    - done.
    - done.
    - eapply Forall_impl; [exact Hks|]. intros k Hk. cbv beta in *.
      destruct (merged_counts rf other) as [_ ->]. lia.
    - done.
    - by rewrite resolved_trees_merged_left.
    - by rewrite resolved_trees_merged_left. }
  split; [exact Hproba|].
  intros labels. apply predict_congr; [done|].
  destruct (new_array_shape (shape0 features) (num_classes_ (problem_spec_ rf)) prob_zero)
    as (Hn0 & Hn1 & _).
  cbn [merged problem_spec_]. by apply Hproba.
Qed.

(** *** leaf_ids_impl on a range of samples *)

Lemma leaf_ids_impl_tree_counter id_type fuel rf x i k ids c :
  leaf_ids_impl_tree id_type fuel rf x i k (ids, c) =
  let '((ids', c'), r) := leaf_ids_impl_tree id_type fuel rf x i k (ids, 0) in ((ids', c + c'), r).
Proof.
  destruct (tree_walk fuel rf x k) as [[leaf n]|e] eqn:Hw.
  - by rewrite !leaf_ids_impl_tree_ok by (by rewrite Hw).
  - rewrite !(leaf_ids_impl_tree_throw _ _ _ _ _ _ _ _ e) by done. by rewrite Nat.add_0_r.
Qed.

Lemma leaf_ids_impl_sample_counter id_type fuel rf features ks i ids c :
  leaf_ids_impl_sample id_type fuel rf features ks i (ids, c) =
  let '((ids', c'), r) := leaf_ids_impl_sample id_type fuel rf features ks i (ids, 0) in
  ((ids', c + c'), r).
Proof.
  unfold leaf_ids_impl_sample. destruct (bind0 features i) as [x|e].
  - apply for_each_counter. intros k a c0. apply leaf_ids_impl_tree_counter.
  - by rewrite Nat.add_0_r.
Qed.

Lemma leaf_ids_impl_ok_inv id_type fuel rf features ids from to ks ids' c :
  leaf_ids_impl id_type fuel rf features ids from to ks = (ids', Ok c) ->
  shape0 features = shape0 ids /\
  shape1 features = num_features_ (problem_spec_ rf) /\
  from <= to <= shape0 features /\
  shape1 ids = num_trees rf /\
  for_each (leaf_ids_impl_sample id_type fuel rf features ks) (seq from (to - from)) (ids, 0)
    = ((ids', c), Ok tt).
Proof.
  unfold leaf_ids_impl, num_trees.
  destruct (Nat.eqb_spec (shape0 features) (shape0 ids)) as [H0|]; [|done].
  destruct (Nat.eqb_spec (shape1 features) (num_features_ (problem_spec_ rf))) as [H1|]; [|done].
  destruct (Nat.leb_spec from to) as [Hft|Hft]; [|by rewrite andb_false_r].
  destruct (Nat.leb_spec to (shape0 features)) as [Hto|Hto]; [|by rewrite andb_false_r].
  destruct (Nat.eqb_spec (shape1 ids) (BinaryForest.numRoots (graph_ rf))) as [H2|]; [|done].
  cbn [Nat.leb andb vigra_precondition mbind result_bind].
  destruct (for_each _ _ _) as [[ids1 c1] [[]|e]]; [|done].
  intros [= <- <-]. repeat split; done || lia.
Qed.

Lemma leaf_ids_impl_ok_intro id_type fuel rf features ids from to ks ids' c :
  shape0 features = shape0 ids ->
  shape1 features = num_features_ (problem_spec_ rf) ->
  from <= to <= shape0 features ->
  shape1 ids = num_trees rf ->
  for_each (leaf_ids_impl_sample id_type fuel rf features ks) (seq from (to - from)) (ids, 0)
    = ((ids', c), Ok tt) ->
  leaf_ids_impl id_type fuel rf features ids from to ks = (ids', Ok c).
Proof.
  intros H0 H1 [Hft Hto] H2 Hloop. unfold leaf_ids_impl, num_trees in *.
  rewrite <- H0, H1, H2, !Nat.eqb_refl.
  replace (from <=? to) with true by (symmetry; by apply Nat.leb_le).
  replace (to <=? shape0 features) with true by (symmetry; by apply Nat.leb_le).
  cbn [Nat.leb andb vigra_precondition mbind result_bind]. by rewrite Hloop.
Qed.

(** X16.  [leaf_ids_impl] on a range of samples [from, to) does what it
    does on [from, mid) followed by what it does on [mid, to), and its
    comparison count is the sum of the two counts: the way [leaf_ids]
    cuts the samples into unit ranges does not show in the result. *)
Theorem leaf_ids_impl_range_split id_type fuel rf features ids from mid to ks ids1 c1 ids2 c2 :
  leaf_ids_impl id_type fuel rf features ids from mid ks = (ids1, Ok c1) ->
  leaf_ids_impl id_type fuel rf features ids1 mid to ks = (ids2, Ok c2) ->
  leaf_ids_impl id_type fuel rf features ids from to ks = (ids2, Ok (c1 + c2)).
Proof.
  intros Hfirst Hsecond.
  apply leaf_ids_impl_ok_inv in Hfirst as (H0 & H1 & [Hfm _] & H2 & Hloop1).
  apply leaf_ids_impl_ok_inv in Hsecond as (_ & _ & [Hmt Hto] & _ & Hloop2).
  apply leaf_ids_impl_ok_intro; [done|done|lia|done|].
  replace (to - from) with ((mid - from) + (to - mid)) by lia.
  rewrite seq_app, for_each_app, Hloop1.
  replace (from + (mid - from)) with mid by lia.
  rewrite (for_each_counter _ _ (leaf_ids_impl_sample_counter _ fuel rf features ks)).
  by rewrite Hloop2.
Qed.

Lemma samples_loop_no_trees id_type fuel rf features ids from n c :
  from + n <= shape0 features ->
  for_each (leaf_ids_impl_sample id_type fuel rf features []) (seq from n) (ids, c) = ((ids, c), Ok tt).
Proof.
  revert from. induction n as [|n IH]; intros from Hn; [done|].
  cbn [seq for_each]. unfold leaf_ids_impl_sample at 1, bind0.
  destruct (lookup_lt_is_Some_2 (rows features) from) as [x ->]; [unfold shape0 in Hn; lia|].
  cbn [of_option for_each]. apply IH. lia.
Qed.

(** X17.  The edges of [leaf_ids_impl]: an empty range [from, from) and
    an empty list of trees leave the id array as it is and count no
    comparison; a range with [from] beyond [to], or [to] beyond the
    sample count, is rejected as out of range before anything is
    written (and before the id columns are checked). *)
Theorem leaf_ids_impl_edges id_type fuel rf features ids from to ks :
  shape0 features = shape0 ids ->
  shape1 features = num_features_ (problem_spec_ rf) ->
  (shape1 ids = num_trees rf -> from <= shape0 features ->
   leaf_ids_impl id_type fuel rf features ids from from ks = (ids, Ok 0)) /\
  (shape1 ids = num_trees rf -> from <= to <= shape0 features ->
   leaf_ids_impl id_type fuel rf features ids from to [] = (ids, Ok 0)) /\
  (to < from \/ shape0 features < to ->
   leaf_ids_impl id_type fuel rf features ids from to ks =
   (ids, Throw (PreconditionViolation "RandomForest::leaf_ids_impl(): Indices out of range."))).
Proof.
  intros H0 H1. repeat split.
  - intros H2 Hfrom. apply leaf_ids_impl_ok_intro; [done|done|lia|done|].
    by rewrite Nat.sub_diag.
  - intros H2 [Hft Hto]. apply leaf_ids_impl_ok_intro; [done|done|done|done|].
    apply samples_loop_no_trees. lia.
  - intros Hbad. unfold leaf_ids_impl. rewrite <- H0, H1, !Nat.eqb_refl.
    replace ((0 <=? from) && (from <=? to) && (to <=? shape0 features)) with false; [done|].
    symmetry. cbn [Nat.leb andb]. apply andb_false_iff.
    destruct Hbad; [left; apply Nat.leb_gt|right; apply Nat.leb_gt]; lia.
Qed.

(** *** Workers and the predictions *)

(** X18.  The probabilities and labels do not depend on the worker
    count either: on a forest whose requested walks end, two runs of
    [predict_proba], and two runs of [predict], that differ in the
    worker count and in the schedule chosen for it return the same
    arrays and the same value (and the same failure, when the call is
    rejected or a response is missing). *)
Theorem predictions_worker_count_irrelevant fuel rf features (probs : MultiArray2 Prob)
    (labels : list LabelType) tree_indices n_threads1 schedule1 n_threads2 schedule2 :
  valid_schedule (Z.to_nat (resolve_threads hardware_concurrency n_threads1))
                 (shape0 features) schedule1 ->
  valid_schedule (Z.to_nat (resolve_threads hardware_concurrency n_threads2))
                 (shape0 features) schedule2 ->
  walks_ok fuel rf features (resolved_trees rf tree_indices) ->
  predict_proba acc hardware_concurrency fuel rf features probs n_threads1
                tree_indices schedule1 =
  predict_proba acc hardware_concurrency fuel rf features probs n_threads2
                tree_indices schedule2 /\
  predict prob_lt prob_zero acc hardware_concurrency fuel rf features labels
          n_threads1 tree_indices schedule1 =
  predict prob_lt prob_zero acc hardware_concurrency fuel rf features labels
          n_threads2 tree_indices schedule2.
Proof.
  intros Hv1 Hv2 Hw.
  assert (Hproba : forall p : MultiArray2 Prob,
            predict_proba acc hardware_concurrency fuel rf features p n_threads1
                          tree_indices schedule1 =
            predict_proba acc hardware_concurrency fuel rf features p n_threads2
                          tree_indices schedule2).
  { intros p. unfold predict_proba.
    destruct (predict_proba_checks rf features p tree_indices) as [actual|e] eqn:Hchk; [|done].
    apply predict_proba_checks_inv in Hchk as (H0 & H1 & H2 & Hks & ->).
    by rewrite !predict_proba_leaf_ids. }
  split; [apply Hproba|]. unfold predict. by rewrite Hproba.
Qed.

(** *** The leaf ids of appended trees *)

(** X19.  After a merge the leaf ids of the appended trees are those of
    the other forest plus the node count the first forest had: for a
    non-empty set of tree indices of [other], what [leaf_ids] stores on
    the merged forest in the column of an appended tree is the id that
    [leaf_ids] stores on [other] in the column of that tree, plus that
    offset. *)
Theorem merge_shifts_leaf_ids id_type rf other fuel features ids_other ids_merged n_threads ks schedule :
  problem_spec_ rf = problem_spec_ other ->
  ks <> [] ->
  Forall (fun k => k < num_trees other) ks ->
  shape1 features = num_features_ (problem_spec_ other) ->
  shape0 features = shape0 ids_other -> shape1 ids_other = num_trees other ->
  rectangular ids_other ->
  shape0 features = shape0 ids_merged ->
  shape1 ids_merged = num_trees rf + num_trees other ->
  rectangular ids_merged ->
  valid_schedule (Z.to_nat (resolve_threads hardware_concurrency n_threads))
                 (shape0 features) schedule ->
  walks_ok fuel other features (resolved_trees other ks) ->
  forall i k,
    i < shape0 features -> k ∈ ks ->
    exists leaf,
      cell (leaf_ids hardware_concurrency id_type fuel other features ids_other n_threads
              ks schedule).1 i k = Ok (Z.of_nat leaf) /\
      cell (leaf_ids hardware_concurrency id_type fuel (merge rf other).1 features ids_merged n_threads
              ((fun k => num_trees rf + k) <$> ks) schedule).1 i (num_trees rf + k)
        = Ok (Z.of_nat (leaf + num_nodes rf)).
Proof.
  intros Hspec Hne Hks H1 Ho0 Ho1 Horect Hm0 Hm1 Hmrect Hvalid Hw i k Hi Hk.
  rewrite merge_ok by done. cbn [fst].
  destruct (merged_counts rf other) as [_ Htrees].
  destruct (lookup_lt_is_Some_2 (rows features) i Hi) as [x Hx].
  assert (k < num_trees other) as Hlt by (rewrite Forall_forall in Hks; by apply Hks).
  assert (k ∈ resolved_trees other ks) as Hk' by (apply elem_of_resolved_trees; by left).
  exists (leaf_of fuel other x k). split.
  - rewrite leaf_ids_run by done. cbn [fst].
    rewrite (expected_ids_cell _ _ _ _ _ _ _ _ x) by (done || lia).
    by rewrite decide_True.
  - rewrite leaf_ids_run; cbn [fst].
    + rewrite (expected_ids_cell _ _ _ _ _ _ _ _ x) by (done || lia).
      rewrite resolved_trees_shift by done.
      rewrite decide_True by (apply list_elem_of_fmap; by exists k).
      pose proof (walks_ok_row _ _ _ _ _ _ Hw Hx) as Hrow. rewrite Forall_forall in Hrow.
      by destruct (merged_walk_ok rf other fuel x k (Hrow k Hk')) as (_ & -> & _).
    + done.
    + cbn [merged problem_spec_]. by rewrite Hspec.
    + by rewrite Htrees.
    + apply Forall_fmap. eapply Forall_impl; [exact Hks|]. intros k0 Hk0. cbv beta in *.
      unfold compose. rewrite Htrees. lia.
    + done.
    + rewrite resolved_trees_shift by done. by apply merged_walks_ok.
Qed.

End further.

(** * The further properties on the unit-test forest *)

Module FurtherWitness.
Import BaseClassTest EdgeCases.

Lemma LessEqualSplitTest_bound dim val x : LessEqualSplitTest dim val x < 2.
Proof.
  unfold LessEqualSplitTest. destruct (x !! dim) as [v|]; [|lia].
  destruct (Qle_bool v val); lia.
Qed.

Lemma test_forest_proper : proper_forest rf [0] 2.
Proof.
  repeat constructor. exists 0. split; [reflexivity|].
  apply (proper_split rf 0 1 2 (LessEqualSplitTest 0 (6 # 10)) 1);
    [reflexivity|reflexivity|apply LessEqualSplitTest_bound| |].
  - apply (proper_split rf 1 3 4 (LessEqualSplitTest 1 (25 # 100)) 0);
      [reflexivity|reflexivity|apply LessEqualSplitTest_bound| |];
      by apply proper_leaf.
  - apply (proper_split rf 2 5 6 (LessEqualSplitTest 1 (75 # 100)) 0);
      [reflexivity|reflexivity|apply LessEqualSplitTest_bound| |];
      by apply proper_leaf.
Qed.

Lemma two_trees_walks_ok : walks_ok 7 (merged rf stump) test_x [0; 1].
Proof. vm_compute. repeat constructor. Qed.

Lemma no_response_walks_ok : walks_ok 7 rf_no_response test_x [0].
Proof. vm_compute. repeat constructor. Qed.

Lemma no_labels_walks_ok : walks_ok 7 rf_no_labels test_x [0].
Proof. vm_compute. repeat constructor. Qed.

Lemma no_labels_responses_ok : responses_ok 7 rf_no_labels test_x [0].
Proof. unfold responses_ok. repeat constructor; vm_compute; eauto. Qed.

Lemma leaf_ids_first_failed_check_witness :
  leaf_ids 4 signed_id 7 rf test_x (new_array 8 1 0%Z) 2 [3] two_workers =
  (new_array 8 1 0%Z,
   Throw (PreconditionViolation "RandomForest::leaf_ids(): Tree index out of range.")).
Proof.
  destruct (leaf_ids_first_failed_check 4 signed_id 7 rf test_x (new_array 8 1 0%Z) 2 [3] two_workers)
    as (_ & _ & _ & Hindex).
  apply (Hindex eq_refl eq_refl eq_refl 3); [left|vm_compute; lia].
Defined.

Lemma predict_proba_first_failed_check_witness :
  predict Nat.ltb 0 vote_counts 4 7 rf test_x (replicate 8 0%Z) 2 [3] two_workers =
  (replicate 8 0%Z,
   Throw (PreconditionViolation "RandomForest::predict_proba(): Tree index out of range.")).
Proof.
  destruct (predict_proba_first_failed_check Nat.ltb 0 vote_counts 4 7 rf test_x
              (new_array 8 4 0) (replicate 8 0%Z) 2 [3] two_workers)
    as (_ & _ & _ & _ & Hindex).
  apply (Hindex eq_refl eq_refl 3); [left|vm_compute; lia].
Defined.

Lemma worker_count_resolution_witness :
  resolve_threads 4 0 = 1%Z /\ resolve_threads 4 (-1) = 4%Z /\ resolve_threads 0 (-1) = 1%Z.
Proof.
  split; [|split].
  - destruct (worker_count_resolution 4 0) as (_ & _ & _ & Hone). apply Hone; lia.
  - destruct (worker_count_resolution 4 0) as (_ & _ & Hhw & _). exact Hhw.
  - destruct (worker_count_resolution 0 0) as (_ & _ & Hhw & _). exact Hhw.
Defined.

Lemma tree_indices_as_set_witness :
  leaf_ids 4 signed_id 7 rf test_x (new_array 8 1 0%Z) 2 [0; 0] two_workers =
  leaf_ids 4 signed_id 7 rf test_x (new_array 8 1 0%Z) 2 [0] two_workers.
Proof.
  destruct (tree_indices_as_set Nat.ltb 0 vote_counts 4 signed_id 7 rf test_x (new_array 8 1 0%Z)
              (new_array 8 4 0) (replicate 8 0%Z) 2 two_workers [0; 0] [0]) as (Hids & _).
  - intros k. split; [intros [->|Hk]%elem_of_cons; [left|done]|intros Hk; by right].
  - exact Hids.
Defined.

Lemma leaf_ids_returns_iff_walks_end_witness :
  exists ids' average,
    leaf_ids 4 signed_id 7 rf test_x (new_array 8 1 0%Z) 2 [] two_workers = (ids', Ok average).
Proof.
  apply (leaf_ids_returns_iff_walks_end 4 signed_id 7 rf test_x (new_array 8 1 0%Z) 2 [] two_workers).
  - reflexivity.
  - reflexivity.
  - reflexivity.
  - constructor.
  - exact Witness.two_workers_valid.
  - exact Witness.test_walks_ok.
Defined.

Lemma leaf_ids_stores_leaves_witness :
  exists leaf,
    cell (leaf_ids 4 signed_id 7 rf test_x (new_array 8 1 0%Z) 2 [] two_workers).1 2 0
      = Ok (Z.of_nat leaf) /\
    leaf < num_nodes rf /\
    BinaryForest.outDegree (graph_ rf) leaf = Ok 0.
Proof.
  apply (leaf_ids_stores_leaves 4 signed_id 7 rf test_x (new_array 8 1 0%Z) 2 [] two_workers).
  - reflexivity.
  - reflexivity.
  - reflexivity.
  - vm_compute. repeat constructor.
  - constructor.
  - exact Witness.two_workers_valid.
  - exact Witness.test_walks_ok.
  - vm_compute. lia.
  - vm_compute. left.
Defined.

Lemma leaf_ids_on_proper_forest_witness :
  exists ids' comparisons,
    leaf_ids 4 signed_id 7 rf test_x (new_array 8 1 0%Z) 2 [] two_workers
      = (ids', Ok (Quot comparisons 8)) /\
    comparisons <= 16.
Proof.
  apply (leaf_ids_on_proper_forest 4 signed_id 7 rf test_x (new_array 8 1 0%Z) 2 [] two_workers 2).
  - reflexivity.
  - reflexivity.
  - reflexivity.
  - constructor.
  - exact Witness.two_workers_valid.
  - exact test_forest_proper.
  - lia.
Defined.

Lemma leaf_ids_column_independent_witness :
  cell (leaf_ids 4 signed_id 7 (merged rf stump) test_x (new_array 8 2 0%Z) 2 [1] two_workers).1 3 1 =
  cell (leaf_ids 4 signed_id 7 (merged rf stump) test_x (new_array 8 2 0%Z) 2 [] two_workers).1 3 1.
Proof.
  apply (leaf_ids_column_independent 4 signed_id 7 (merged rf stump) test_x (new_array 8 2 0%Z) 2 [1]
           two_workers).
  - reflexivity.
  - reflexivity.
  - reflexivity.
  - vm_compute. repeat constructor.
  - vm_compute. repeat constructor.
  - exact Witness.two_workers_valid.
  - exact two_trees_walks_ok.
  - vm_compute. lia.
  - left.
Defined.

Lemma predict_proba_missing_response_witness :
  predict Nat.ltb 0 vote_counts 4 7 rf_no_response test_x (replicate 8 0%Z) 2 [] two_workers
  = (replicate 8 0%Z, Throw OutOfRange).
Proof.
  destruct (predict_proba_missing_response Nat.ltb 0 vote_counts 4 7 rf_no_response test_x
              (new_array 8 4 0) (replicate 8 0%Z) 2 [] two_workers 4 [7 # 10; 2 # 10])
    as (_ & Hpredict).
  - reflexivity.
  - reflexivity.
  - reflexivity.
  - constructor.
  - exact Witness.two_workers_valid.
  - exact no_response_walks_ok.
  - reflexivity.
  - repeat constructor; vm_compute; eauto.
  - constructor. vm_compute. reflexivity.
  - apply Hpredict. reflexivity.
Defined.

Lemma predict_overwrites_labels_witness :
  predict Nat.ltb 0 vote_counts 4 7 rf test_x (replicate 8 0%Z) 2 [] two_workers =
  predict Nat.ltb 0 vote_counts 4 7 rf test_x (replicate 8 5%Z) 2 [] two_workers.
Proof.
  destruct (predict_overwrites_labels Nat.ltb 0 vote_counts 4 7 rf test_x
              (replicate 8 0%Z) (replicate 8 5%Z) 2 [] two_workers) as (Hsame & _).
  - exact Witness.vote_counts_length.
  - vm_compute. lia.
  - vm_compute. lia.
  - reflexivity.
  - reflexivity.
  - reflexivity.
  - constructor.
  - exact Witness.two_workers_valid.
  - exact Witness.test_walks_ok.
  - exact Witness.test_responses_ok.
  - exact Hsame.
Defined.

Lemma predict_no_samples_witness :
  predict Nat.ltb 0 vote_counts 4 7 rf (mkArray [] 2) [] 2 [] [] = ([], Ok (Quot 0 0)).
Proof.
  destruct (predict_no_samples Nat.ltb 0 vote_counts 4 7 rf (mkArray [] 2) 2 [] [])
    as (_ & Hpredict).
  - reflexivity.
  - reflexivity.
  - constructor.
  - split; [constructor|reflexivity].
  - exact Hpredict.
Defined.

Lemma predict_without_labels_witness :
  predict Nat.ltb 0 vote_counts 4 7 rf_no_labels test_x (replicate 8 0%Z) 2 [] two_workers
  = (replicate 8 0%Z, Throw InvalidAccess).
Proof.
  apply (predict_without_labels Nat.ltb 0 vote_counts 4 7 rf_no_labels test_x).
  - reflexivity.
  - vm_compute. lia.
  - reflexivity.
  - reflexivity.
  - constructor.
  - exact Witness.two_workers_valid.
  - exact no_labels_walks_ok.
  - exact no_labels_responses_ok.
Defined.

Lemma merge_associative_witness :
  merged (merged rf stump) rf = merged rf (merged stump rf).
Proof.
  destruct (merge_associative rf stump rf) as (_ & _ & Hassoc).
  - reflexivity.
  - reflexivity.
  - exact Hassoc.
Defined.

Lemma merge_keeps_original_predictions_witness :
  predict Nat.ltb 0 vote_counts 4 7 (merge rf stump).1 test_x (replicate 8 0%Z) 2 [0] two_workers
  = predict Nat.ltb 0 vote_counts 4 7 rf test_x (replicate 8 0%Z) 2 [0] two_workers.
Proof.
  destruct (merge_keeps_original_predictions Nat.ltb 0 vote_counts 4 rf stump 7 test_x 2 [0]
              two_workers) as (_ & Hpredict).
  - reflexivity.
  - discriminate.
  - vm_compute. repeat constructor.
  - reflexivity.
  - exact Witness.two_workers_valid.
  - exact Witness.test_walks_ok.
  - exact Witness.test_responses_ok.
  - exact (Hpredict (replicate 8 0%Z)).
Defined.

Lemma leaf_ids_impl_range_split_witness :
  leaf_ids_impl signed_id 7 rf test_x (new_array 8 1 0%Z) 0 8 [0] = (ids_after_all, Ok (6 + 10)).
Proof.
  apply (leaf_ids_impl_range_split signed_id 7 rf test_x (new_array 8 1 0%Z) 0 3 8 [0] ids_after_three).
  - vm_compute. reflexivity.
  - vm_compute. reflexivity.
Defined.

Lemma leaf_ids_impl_edges_witness :
  leaf_ids_impl signed_id 7 rf test_x (new_array 8 1 0%Z) 9 3 [0] =
  (new_array 8 1 0%Z,
   Throw (PreconditionViolation "RandomForest::leaf_ids_impl(): Indices out of range.")).
Proof.
  destruct (leaf_ids_impl_edges signed_id 7 rf test_x (new_array 8 1 0%Z) 9 3 [0]) as (_ & _ & Hbad).
  - reflexivity.
  - reflexivity.
  - apply Hbad. left. lia.
Defined.

Lemma predictions_worker_count_irrelevant_witness :
  predict Nat.ltb 0 vote_counts 4 7 rf test_x (replicate 8 0%Z) 1 [] one_worker =
  predict Nat.ltb 0 vote_counts 4 7 rf test_x (replicate 8 0%Z) 2 [] two_workers.
Proof.
  destruct (predictions_worker_count_irrelevant Nat.ltb 0 vote_counts 4 7 rf test_x
              (new_array 8 4 0) (replicate 8 0%Z) [] 1 one_worker 2 two_workers)
    as (_ & Hpredict).
  - exact Witness.one_worker_valid.
  - exact Witness.two_workers_valid.
  - exact Witness.test_walks_ok.
  - exact Hpredict.
Defined.

Lemma merge_shifts_leaf_ids_witness :
  exists leaf,
    cell (leaf_ids 4 signed_id 7 stump test_x (new_array 8 1 0%Z) 2 [0] two_workers).1 0 0
      = Ok (Z.of_nat leaf) /\
    cell (leaf_ids 4 signed_id 7 (merge rf stump).1 test_x (new_array 8 2 0%Z) 2 [1] two_workers).1 0 1
      = Ok (Z.of_nat (leaf + 7)).
Proof.
  apply (merge_shifts_leaf_ids 4 signed_id rf stump 7 test_x (new_array 8 1 0%Z) (new_array 8 2 0%Z) 2 [0]
           two_workers).
  - reflexivity.
  - discriminate.
  - vm_compute. repeat constructor.
  - reflexivity.
  - reflexivity.
  - reflexivity.
  - vm_compute. repeat constructor.
  - reflexivity.
  - reflexivity.
  - vm_compute. repeat constructor.
  - exact Witness.two_workers_valid.
  - exact Witness.stump_walks_ok.
  - vm_compute. lia.
  - left.
Defined.

End FurtherWitness.
